(** * AMP-Webhook: signature validation, key codec and submission store

    A shallow embedding of the parts of the AMP-Webhook server that decide
    whether a signed form submission is accepted and how accepted
    submissions are stored:

    - [AmpValidator] (services/ampValidator.ts): the hand-written DER
      encoder for RSA public keys, the key cache and [validateSignature];
    - [validateAmpSignature] (middleware/ampValidation.ts): the express
      middleware that feeds the validator;
    - [WebhookService] (services/webhookService.ts): the bounded in-memory
      table of submissions.

    JavaScript values are embedded as follows.  A [Buffer] is a list of
    integers in [0, 256).  A JS string is a Rocq [string]; header values are
    Latin-1 decoded by Node, so one character is one code unit.  A JS number
    that the code only uses as an integer is a [Z]; [NaN] is an explicit
    constructor.  The JS [Map] is an association list in insertion order.
    A thrown exception is the [Thrown] constructor of [outcome].  The clock,
    the network and the RSA primitive are oracles collected in [World]. *)

From Stdlib Require Import ZArith List String Ascii Bool Lia Arith.
From Stdlib Require Import Sorting.Sorted Sorting.Permutation.
From Stdlib Require Import DecimalString DecimalZ DecimalNat.
Import ListNotations.

Local Open Scope string_scope.
Local Open Scope list_scope.
Local Open Scope Z_scope.

(** String concatenation, JS [+] on strings. *)
Infix "+++" := String.append (right associativity, at level 60).

(** ** Exceptions *)

Inductive outcome (A : Type) : Type :=
| Returned (a : A)
| Thrown (message : string).

Arguments Returned {A} a.
Arguments Thrown {A} message.

(** ** The logger

    A line handed to the winston logger is kept as its level and message;
    the structured payload that accompanies it is not. *)

Inductive Level : Type := LDebug | LInfo | LWarn | LError.

(** ** Buffers *)

Definition Buffer := list Z.

Definition is_byte (b : Z) : Prop := 0 <= b < 256.

Definition buffer_length (v : Buffer) : Z := Z.of_nat (List.length v).

(** JS bit operators work on the 32-bit two's complement image of their
    operand. *)
Definition to_int32 (x : Z) : Z := (x + 2 ^ 31) mod 2 ^ 32 - 2 ^ 31.

Definition js_and (x y : Z) : Z := Z.land (to_int32 x) (to_int32 y).
Definition js_or (x y : Z) : Z := Z.lor (to_int32 x) (to_int32 y).
Definition js_shr (x k : Z) : Z := Z.shiftr (to_int32 x) k.

(** [Buffer.from([x])] stores [x & 255]. *)
Definition byte_of (x : Z) : Z := x mod 256.

(** The first [n] characters of a string, and the rest. *)
Fixpoint string_take (n : nat) (s : string) : string :=
  match n, s with
  | S n', String c rest => String c (string_take n' rest)
  | _, _ => ""
  end.

Fixpoint string_drop (n : nat) (s : string) : string :=
  match n, s with
  | S n', String _ rest => string_drop n' rest
  | _, _ => s
  end.

(** ** The key codec of AmpValidator *)

Module AmpValidatorCodec.

(** *** encodeLength

    <<
    if (length < 0x80) return Buffer.from([length]);
    const lengthBytes = [];
    let temp = length;
    while (temp > 0) { lengthBytes.unshift(temp & 0xff); temp = temp >> 8; }
    return Buffer.concat([Buffer.from([0x80 | lengthBytes.length]),
                          Buffer.from(lengthBytes)]);
    >>

    After one round [temp] is below [2^23], so the loop body runs at most
    four times; five rounds of fuel always reach the exit test (lemma
    [encodeLength_loop_fuel]). *)
Fixpoint encodeLength_loop (fuel : nat) (temp : Z) (lengthBytes : list Z) : list Z :=
  match fuel with
  | O => lengthBytes
  | S fuel' =>
      if temp >? 0
      then encodeLength_loop fuel' (js_shr temp 8) (js_and temp 255 :: lengthBytes)
      else lengthBytes
  end.

Definition encodeLength (length : Z) : Buffer :=
  if length <? 128 then [byte_of length]
  else
    let lengthBytes := encodeLength_loop 5 length [] in
    [byte_of (js_or 128 (buffer_length lengthBytes))] ++ map byte_of lengthBytes.

(** *** createASN1Integer

    [value[0]] of an empty buffer is [undefined], and [undefined >= 0x80]
    is false. *)
Definition createASN1Integer (value : Buffer) : Buffer :=
  let needsPadding :=
    match value with
    | [] => false
    | first :: _ => first >=? 128
    end in
  let paddedValue := if needsPadding then [0] ++ value else value in
  [2] ++ encodeLength (buffer_length paddedValue) ++ paddedValue.

Definition rsaOID : Buffer :=
  [48; 13; 6; 9; 42; 134; 72; 134; 247; 13; 1; 1; 1; 5; 0].

(** *** createRSAPublicKeyDER *)
Definition createRSAPublicKeyDER (n e : Buffer) : Buffer :=
  let nInteger := createASN1Integer n in
  let eInteger := createASN1Integer e in
  let innerSequence :=
    [48] ++ encodeLength (buffer_length nInteger + buffer_length eInteger)
         ++ nInteger ++ eInteger in
  let bitString :=
    [3] ++ encodeLength (buffer_length innerSequence + 1) ++ [0] ++ innerSequence in
  let outerSequence :=
    [48] ++ encodeLength (buffer_length rsaOID + buffer_length bitString)
         ++ rsaOID ++ bitString in
  outerSequence.

(** *** Base64

    [buf.toString('base64')] and [Buffer.from(s, 'base64' | 'base64url')].
    Node decodes both alphabets with one table, skips characters outside
    them and stops at the first [=]. *)
Definition base64_alphabet : string :=
  "ABCDEFGHIJKLMNOPQRSTUVWXYZabcdefghijklmnopqrstuvwxyz0123456789+/".

Definition base64_char (sextet : Z) : ascii :=
  match String.get (Z.to_nat sextet) base64_alphabet with
  | Some c => c
  | None => "="%char
  end.

Fixpoint base64_encode (bytes : Buffer) : string :=
  match bytes with
  | [] => ""
  | [a] =>
      String (base64_char (a / 4))
        (String (base64_char ((a mod 4) * 16)) "==")
  | [a; b] =>
      String (base64_char (a / 4))
        (String (base64_char ((a mod 4) * 16 + b / 16))
           (String (base64_char ((b mod 16) * 4)) "="))
  | a :: b :: c :: rest =>
      String (base64_char (a / 4))
        (String (base64_char ((a mod 4) * 16 + b / 16))
           (String (base64_char ((b mod 16) * 4 + c / 64))
              (String (base64_char (c mod 64)) (base64_encode rest))))
  end.

Definition unbase64 (c : ascii) : option Z :=
  let n := Z.of_nat (nat_of_ascii c) in
  if (65 <=? n) && (n <=? 90) then Some (n - 65)
  else if (97 <=? n) && (n <=? 122) then Some (n - 97 + 26)
  else if (48 <=? n) && (n <=? 57) then Some (n - 48 + 52)
  else if (n =? 43) || (n =? 45) then Some 62
  else if (n =? 47) || (n =? 95) then Some 63
  else None.

(** The legal sextets of [s] up to the first [=]. *)
Fixpoint base64_sextets (s : string) : list Z :=
  match s with
  | EmptyString => []
  | String c rest =>
      if Ascii.eqb c "="%char then []
      else match unbase64 c with
           | Some v => v :: base64_sextets rest
           | None => base64_sextets rest
           end
  end.

Fixpoint base64_groups (sextets : list Z) : Buffer :=
  match sextets with
  | a :: b :: c :: d :: rest =>
      (a * 4 + b / 16) :: ((b mod 16) * 16 + c / 4) :: ((c mod 4) * 64 + d)
        :: base64_groups rest
  | [a; b; c] => [a * 4 + b / 16; (b mod 16) * 16 + c / 4]
  | [a; b] => [a * 4 + b / 16]
  | _ => []
  end.

Definition base64_decode (s : string) : Buffer := base64_groups (base64_sextets s).

(** *** PEM armour: [publicKeyBase64.match(/.{1,64}/g) || []] joined by
    newlines between the BEGIN and END lines. *)
Fixpoint chunks64 (fuel : nat) (s : string) : list string :=
  match fuel, s with
  | _, EmptyString => []
  | O, _ => []
  | S fuel', _ => string_take 64 s :: chunks64 fuel' (string_drop 64 s)
  end.

Definition newline : string := String "010"%char "".

Definition pem_of_der (publicKeyDer : Buffer) : string :=
  let publicKeyBase64 := base64_encode publicKeyDer in
  String.concat newline
    (["-----BEGIN PUBLIC KEY-----"]
       ++ chunks64 (String.length publicKeyBase64) publicKeyBase64
       ++ ["-----END PUBLIC KEY-----"]).

(** *** Key descriptors

    A field of a key descriptor as it arrives in the parsed document: a
    string; a value that is falsy and not a string (the field is missing,
    or it is [null], [false] or [0]), kept with the message of the
    [TypeError] that [Buffer.from(value, 'base64url')] raises for it; or
    any other value, which is truthy, kept with what [Buffer.from] makes
    of it: a [TypeError] for a number, for [true] and for a plain object,
    bytes for an array or an array-like object. *)
Inductive Field : Type :=
| Text (s : string)
| Falsy (message : string)
| NotText (converted : outcome Buffer).

(** The operand of [&&] counts as true. *)
Definition field_truthy (f : Field) : bool :=
  match f with
  | Text s => negb (String.eqb s "")
  | Falsy _ => false
  | NotText _ => true
  end.

(** [Buffer.from(value, 'base64url')] *)
Definition Buffer_from (f : Field) : outcome Buffer :=
  match f with
  | Text s => Returned (base64_decode s)
  | NotText converted => converted
  | Falsy message => Thrown message
  end.

(** An entry of the [keys] array that is not [null].  [jwk_kid] is its
    [kid] when that is a string and the empty string when it is missing or
    falsy; an entry that is a number, a boolean, a string or an array has
    no [kid].  The key map is declared [Map<string, string>]: a [kid] that
    is truthy and not a string is not covered. *)
Record Jwk : Type := mkJwk {
  jwk_kid : string;
  n_field : Field;
  e_field : Field
}.

(** A key descriptor whose three fields are strings, a missing field
    being the empty string, which is what the guard
    [keyData.kid && keyData.n && keyData.e] tests. *)
Record KeyData : Type := mkKeyData {
  kid : string;
  jwk_n : string;
  jwk_e : string
}.

Definition text_jwk (keyData : KeyData) : Jwk :=
  mkJwk (kid keyData) (Text (jwk_n keyData)) (Text (jwk_e keyData)).

Coercion text_jwk : KeyData >-> Jwk.

(** *** jwkToPem

    Neither [jwkToPem] nor the encoders below it contain a [throw]; the
    only operation in them that can raise is [Buffer.from], on a field
    that is not a string.  The caller runs [jwkToPem] under
    [try]/[catch]. *)
Definition KeyMaterialCodec (n e : Buffer) : outcome string :=
  Returned (pem_of_der (createRSAPublicKeyDER n e)).

Definition jwkToPem (jwk : Jwk) : outcome string :=
  match Buffer_from (n_field jwk) with
  | Thrown message => Thrown message
  | Returned n =>
      match Buffer_from (e_field jwk) with
      | Thrown message => Thrown message
      | Returned e => KeyMaterialCodec n e
      end
  end.

(** An entry of the [keys] array.  Reading [keyData.kid] of [null] raises
    a [TypeError], kept with its message. *)
Inductive KeyEntry : Type :=
| NullEntry (message : string)
| Entry (jwk : Jwk).

End AmpValidatorCodec.

(** ** JavaScript values that cross the code *)

Module JS.

(** Numbers printed by template literals and [JSON.stringify]. *)
Definition Z_to_string (z : Z) : string := NilEmpty.string_of_int (Z.to_int z).

Set Warnings "-register-all".

(** Parsed JSON.  An object lists its properties in enumeration order.
    [JNum z] is the double nearest to the integer [z]; numbers with a
    fraction part are not covered. *)
Inductive JValue : Type :=
| JNull
| JBool (b : bool)
| JNum (z : Z)
| JStr (s : string)
| JArr (items : list JValue)
| JObj (fields : list (string * JValue)).

Definition truthy (v : JValue) : bool :=
  match v with
  | JNull => false
  | JBool b => b
  | JNum z => negb (z =? 0)
  | JStr s => negb (String.eqb s "")
  | JArr _ | JObj _ => true
  end.

Definition typeof_object (v : JValue) : bool :=
  match v with
  | JNull | JArr _ | JObj _ => true
  | _ => false
  end.

(** [Object.keys(v).length]; the code reaches it only after [null] has
    been refused. *)
Definition keys_length (v : JValue) : Z :=
  match v with
  | JArr items => Z.of_nat (List.length items)
  | JObj fields => Z.of_nat (List.length fields)
  | JStr s => Z.of_nat (String.length s)
  | _ => 0
  end.

Definition dquote : string := String "034"%char "".
Definition backslash : string := String "092"%char "".

Definition hex_digit (d : Z) : ascii :=
  match String.get (Z.to_nat d) "0123456789abcdef" with
  | Some c => c
  | None => "0"%char
  end.

(** QuoteJSONString on one code unit. *)
Definition escape_char (c : ascii) : string :=
  let n := Z.of_nat (nat_of_ascii c) in
  if n =? 34 then backslash +++ dquote
  else if n =? 92 then backslash +++ backslash
  else if n =? 8 then backslash +++ "b"
  else if n =? 12 then backslash +++ "f"
  else if n =? 10 then backslash +++ "n"
  else if n =? 13 then backslash +++ "r"
  else if n =? 9 then backslash +++ "t"
  else if n <? 32
       then backslash +++ "u00" +++ String (hex_digit (n / 16)) (String (hex_digit (n mod 16)) "")
  else String c "".

Fixpoint escape_string (s : string) : string :=
  match s with
  | EmptyString => ""
  | String c rest => escape_char c +++ escape_string rest
  end.

Definition quote (s : string) : string := dquote +++ escape_string s +++ dquote.

(** *** Numbers as text

    [nearest_double x] is the binary64 value of an integer [x >= 0]:
    [x] rounded to 53 significant bits, ties to even; from
    [2^1024 - 2^970] on it is [Infinity], written [None]. *)
Definition round_53 (x : Z) : Z :=
  let bits := Z.log2 x + 1 in
  if bits <=? 53 then x
  else
    let shift := bits - 53 in
    let q := Z.shiftr x shift in
    let r := x - Z.shiftl q shift in
    let half := Z.shiftl 1 (shift - 1) in
    let q := if (r >? half) || ((r =? half) && Z.odd q) then q + 1 else q in
    Z.shiftl q shift.

Definition nearest_double (x : Z) : option Z :=
  if 2 ^ 1024 - 2 ^ 970 <=? x then None else Some (round_53 x).

Definition digit_count (x : Z) : Z := Z.of_nat (String.length (Z_to_string x)).

(** Number::toString picks the fewest digits [s] with [s * 10^p] rounding
    to the double [x]; among several the closest to [x], and of two
    equally close the even one. *)
Fixpoint shortest_digits (fuel : nat) (k : Z) (x : Z) : Z * Z :=
  match fuel with
  | O => (x, 0)
  | S fuel' =>
      let p := digit_count x - k in
      if p <=? 0 then (x, 0)
      else
        let unit := 10 ^ p in
        let lo := x / unit in
        let hi := lo + 1 in
        let reads_as_x c :=
          match nearest_double c with Some d => d =? x | None => false end in
        let ok_lo := reads_as_x (lo * unit) in
        let ok_hi := reads_as_x (hi * unit) in
        if ok_lo && ok_hi
        then
          let d_lo := x - lo * unit in
          let d_hi := hi * unit - x in
          if d_lo <? d_hi then (lo, p)
          else if d_hi <? d_lo then (hi, p)
          else if Z.even lo then (lo, p) else (hi, p)
        else if ok_lo then (lo, p)
        else if ok_hi then (hi, p)
        else shortest_digits fuel' (k + 1) x
  end.

(** Trailing zeros of the digits go to the exponent. *)
Fixpoint strip_zeros (fuel : nat) (s p : Z) : Z * Z :=
  match fuel with
  | O => (s, p)
  | S fuel' =>
      if (s mod 10 =? 0) && negb (s =? 0) then strip_zeros fuel' (s / 10) (p + 1)
      else (s, p)
  end.

Fixpoint zeros (n : nat) : string :=
  match n with
  | O => ""
  | S n' => String "0"%char (zeros n')
  end.

(** [String(x)] for a double with an integer value: plain digits up to
    21 of them, the exponent form beyond. *)
Definition Number_toString (z : Z) : string :=
  if z =? 0 then "0"
  else
    let sign := if z <? 0 then "-" else "" in
    match nearest_double (Z.abs z) with
    | None => sign +++ "Infinity"
    | Some x =>
        let '(s, p) := shortest_digits 17 1 x in
        let '(s, p) := strip_zeros 400 s p in
        let digits := Z_to_string s in
        let n := Z.of_nat (String.length digits) + p in
        if n <=? 21 then sign +++ digits +++ zeros (Z.to_nat p)
        else
          let mantissa :=
            match digits with
            | String first EmptyString => digits
            | String first rest => String first ("." +++ rest)
            | EmptyString => digits
            end in
          sign +++ mantissa +++ "e+" +++ Z_to_string (n - 1)
    end.

(** [JSON.stringify] of a number: [null] for an infinity. *)
Definition JSON_number (z : Z) : string :=
  match nearest_double (Z.abs z) with
  | None => "null"
  | Some _ => Number_toString z
  end.

(** [JSON.stringify(v)] with no indentation. *)
Fixpoint JSON_stringify (v : JValue) : string :=
  match v with
  | JNull => "null"
  | JBool true => "true"
  | JBool false => "false"
  | JNum z => JSON_number z
  | JStr s => quote s
  | JArr items => "[" +++ String.concat "," (map JSON_stringify items) +++ "]"
  | JObj fields =>
      "{" +++ String.concat ","
                (map (fun kv => quote (fst kv) +++ ":" +++ JSON_stringify (snd kv)) fields)
          +++ "}"
  end.

(** [String(value)] raises a [TypeError].  An object is converted by its
    [toString]; a parsed object that has a property of that name has a
    value there that cannot be called, [valueOf] gives back the object,
    and the conversion fails.  An array is converted by joining the
    conversions of its elements, [null] giving the empty text. *)
Fixpoint String_raises (v : JValue) : bool :=
  match v with
  | JObj fields => existsb (fun kv => String.eqb (fst kv) "toString") fields
  | JArr items => existsb String_raises items
  | _ => false
  end.

(** [Object.values(v)] for an object or an array. *)
Definition values_of (v : JValue) : list JValue :=
  match v with
  | JObj fields => map snd fields
  | JArr items => items
  | _ => []
  end.

(** *** parseInt

    [parseInt(s)] with no radix: leading white space is skipped, one sign
    is read, a [0x]/[0X] prefix selects base 16, and the longest run of
    digits is the value; no digit at all gives [NaN].

    The value is kept exact.  JS rounds it above [2^53]; with a clock in
    milliseconds below [2^53] that changes the digits printed in a message
    and none of the comparisons made by the code, since a difference within
    the window forces every operand below [2^53].  The digits of a
    difference are stated only where every operand is below [2^52]. *)
Inductive Number : Type :=
| NaN
| Num (z : Z).

Definition is_whitespace (c : ascii) : bool :=
  let n := nat_of_ascii c in
  (Nat.eqb n 9 || Nat.eqb n 10 || Nat.eqb n 11 || Nat.eqb n 12 || Nat.eqb n 13
   || Nat.eqb n 32 || Nat.eqb n 160)%bool.

Fixpoint skip_whitespace (s : string) : string :=
  match s with
  | String c rest => if is_whitespace c then skip_whitespace rest else s
  | EmptyString => s
  end.

Definition digit_value (c : ascii) : option Z :=
  let n := Z.of_nat (nat_of_ascii c) in
  if (48 <=? n) && (n <=? 57) then Some (n - 48)
  else if (97 <=? n) && (n <=? 122) then Some (n - 97 + 10)
  else if (65 <=? n) && (n <=? 90) then Some (n - 65 + 10)
  else None.

(** The value of the longest prefix of digits below [radix], with the
    number of digits read. *)
Fixpoint parse_digits (radix : Z) (s : string) (acc : Z) (count : nat) : Z * nat :=
  match s with
  | String c rest =>
      match digit_value c with
      | Some d => if d <? radix then parse_digits radix rest (acc * radix + d) (S count)
                  else (acc, count)
      | None => (acc, count)
      end
  | EmptyString => (acc, count)
  end.

Definition parseInt (input : string) : Number :=
  let s := skip_whitespace input in
  let '(sign, s) :=
    match s with
    | String "-"%char rest => (-1, rest)
    | String "+"%char rest => (1, rest)
    | _ => (1, s)
    end in
  let '(radix, s) :=
    match s with
    | String "0"%char (String "x"%char rest) => (16, rest)
    | String "0"%char (String "X"%char rest) => (16, rest)
    | _ => (10, s)
    end in
  match parse_digits radix s 0 O with
  | (_, O) => NaN
  | (value, _) => Num (sign * value)
  end.

(** Arithmetic and comparison with [NaN]: every comparison with [NaN] is
    false. *)
Definition num_mul (a : Number) (k : Z) : Number :=
  match a with NaN => NaN | Num z => Num (z * k) end.

Definition num_abs_diff (x : Z) (a : Number) : Number :=
  match a with NaN => NaN | Num z => Num (Z.abs (x - z)) end.

Definition num_gt (a : Number) (k : Z) : bool :=
  match a with NaN => false | Num z => z >? k end.

Definition num_to_string (a : Number) : string :=
  match a with NaN => "NaN" | Num z => Z_to_string z end.

End JS.

(** ** AmpValidator: key cache and signature validation *)

Module AmpValidator.

Import AmpValidatorCodec JS.

(** What the validator does to the outside: lines handed to the logger and
    calls of the RSA primitive.  [Verify keyId publicKey message signature]
    is one [verifier.update(message); verifier.verify(publicKey, signature)]. *)
Inductive Event : Type :=
| Log (level : Level) (message : string)
| Verify (keyId publicKey message : string) (signature : Buffer).

(** The answer of the key endpoint, as far as [ensurePublicKeys] tells
    answers apart: [fetch] rejects; the status is not 2xx; reading the body
    as JSON raises; the document has no [keys] array; the document has a
    [keys] array, whose entries are [null] or anything else. *)
Inductive FetchReply : Type :=
| NetworkError (message : string)
| HttpNotOk (status : Z) (statusText : string)
| JsonReject (message : string)
| BadShape
| KeysDoc (keys : list KeyEntry).

(** The oracles: [clock k] is the value of the [k]-th [Date.now()],
    [endpoint k] the reply to the [k]-th outbound fetch, [rsa_verify] the
    result of RSA-SHA256 verification of the UTF-8 bytes of a message. *)
Record World : Type := mkWorld {
  clock : nat -> Z;
  endpoint : nat -> FetchReply;
  rsa_verify : string -> string -> Buffer -> outcome bool
}.

(** The fields of the singleton validator, the number of clock reads and
    of outbound fetches so far, and the events so far (newest first). *)
Record Sys : Type := mkSys {
  publicKeys : list (string * string);
  lastKeyFetch : Z;
  clockReads : nat;
  fetchCount : nat;
  events : list Event
}.

Definition KEY_CACHE_TTL : Z := 24 * 60 * 60 * 1000.

Definition emit (ev : Event) (st : Sys) : Sys :=
  mkSys (publicKeys st) (lastKeyFetch st) (clockReads st) (fetchCount st) (ev :: events st).

Definition Date_now (w : World) (st : Sys) : Z * Sys :=
  (clock w (clockReads st),
   mkSys (publicKeys st) (lastKeyFetch st) (S (clockReads st)) (fetchCount st) (events st)).

Definition fetch (w : World) (st : Sys) : FetchReply * Sys :=
  (endpoint w (fetchCount st),
   mkSys (publicKeys st) (lastKeyFetch st) (clockReads st) (S (fetchCount st)) (events st)).

Definition set_keys (keys : list (string * string)) (st : Sys) : Sys :=
  mkSys keys (lastKeyFetch st) (clockReads st) (fetchCount st) (events st).

Definition set_lastKeyFetch (t : Z) (st : Sys) : Sys :=
  mkSys (publicKeys st) t (clockReads st) (fetchCount st) (events st).

(** [Map.prototype.set]: an existing key keeps its place. *)
Fixpoint map_set {V : Type} (k : string) (v : V) (m : list (string * V)) : list (string * V) :=
  match m with
  | [] => [(k, v)]
  | (k', v') :: rest =>
      if String.eqb k' k then (k, v) :: rest else (k', v') :: map_set k v rest
  end.

(** [Map.prototype.get] *)
Fixpoint map_get {V : Type} (k : string) (m : list (string * V)) : option V :=
  match m with
  | [] => None
  | (k', v) :: rest => if String.eqb k' k then Some v else map_get k rest
  end.

Definition map_size {V : Type} (m : list (string * V)) : Z := Z.of_nat (List.length m).

(** The result record [AmpSignatureValidation]. *)
Record AmpSignatureValidation : Type := mkValidation {
  isValid : bool;
  publicKey : option string;
  error : option string
}.

Definition rejected (message : string) : AmpSignatureValidation :=
  mkValidation false None (Some message).

(** [error?.message || 'Unknown error'] *)
Definition message_or_unknown (message : string) : string :=
  if String.eqb message "" then "Unknown error" else message.

(** *** ensurePublicKeys

    The function is split at its first [await]: [ensure_begin] runs up to
    and including the call of [fetch], [ensure_finish] runs from the arrival
    of the reply to the end. *)
Inductive EnsureStep : Type :=
| KeysFresh
| Fetching (now : Z) (reply : FetchReply).

Definition ensure_begin (w : World) (st : Sys) : EnsureStep * Sys :=
  let '(now, st) := Date_now w st in
  if (map_size (publicKeys st) >? 0) && (now - lastKeyFetch st <? KEY_CACHE_TTL)
  then (KeysFresh, st)
  else
    let st := emit (Log LInfo "Fetching AMP public keys from Google") st in
    let '(reply, st) := fetch w st in
    (Fetching now reply, st).

(** The body of the loop over [keysData.keys] for an entry that is not
    [null]: the guard [keyData.kid && keyData.n && keyData.e], then
    [jwkToPem] under [try]/[catch]. *)
Definition add_key (keyData : Jwk) (st : Sys) : Sys :=
  if negb (String.eqb (jwk_kid keyData) "")
     && field_truthy (n_field keyData)
     && field_truthy (e_field keyData)
  then
    match jwkToPem keyData with
    | Returned publicKey =>
        emit (Log LDebug "Added public key")
          (set_keys (map_set (jwk_kid keyData) publicKey (publicKeys st)) st)
    | Thrown _ => emit (Log LWarn "Failed to process public key") st
    end
  else st.

(** The loop over [keysData.keys].  The guard is evaluated outside the
    inner [try]: on a [null] entry it raises and the loop is left with the
    keys added so far. *)
Fixpoint add_keys (keys : list KeyEntry) (st : Sys) : outcome unit * Sys :=
  match keys with
  | [] => (Returned tt, st)
  | NullEntry message :: _ => (Thrown message, st)
  | Entry keyData :: rest => add_keys rest (add_key keyData st)
  end.

(** The [catch] block of [ensurePublicKeys]. *)
Definition ensure_catch (message : string) (st : Sys) : outcome unit * Sys :=
  let st := emit (Log LError "Failed to fetch AMP public keys") st in
  if map_size (publicKeys st) =? 0
  then (Thrown ("Cannot validate AMP signatures: " +++ message), st)
  else (Returned tt, emit (Log LWarn "Using cached public keys due to fetch failure") st).

Definition ensure_finish (now : Z) (reply : FetchReply) (st : Sys) : outcome unit * Sys :=
  match reply with
  | NetworkError message => ensure_catch message st
  | HttpNotOk status statusText =>
      ensure_catch ("Failed to fetch public keys: " +++ Z_to_string status +++ " " +++ statusText) st
  | JsonReject message => ensure_catch message st
  | BadShape => ensure_catch "Invalid public keys response format" st
  | KeysDoc keys =>
      let st := set_keys [] st in
      match add_keys keys st with
      | (Returned _, st) =>
          let st := set_lastKeyFetch now st in
          (Returned tt,
           emit (Log LInfo ("Loaded " +++ Z_to_string (map_size (publicKeys st))
                            +++ " AMP public keys")) st)
      | (Thrown message, st) => ensure_catch message st
      end
  end.

Definition ensurePublicKeys (w : World) (st : Sys) : outcome unit * Sys :=
  match ensure_begin w st with
  | (KeysFresh, st) => (Returned tt, st)
  | (Fetching now reply, st) => ensure_finish now reply st
  end.

(** *** validateSignature *)

Definition maxTimeDiff : Z := 5 * 60 * 1000.

Definition format_error : AmpSignatureValidation :=
  rejected "Invalid signature format. Expected rsa-sha256= prefix".

Definition timestamp_error (timeDiff : Number) : AmpSignatureValidation :=
  rejected ("Timestamp too old. Difference: " +++ num_to_string timeDiff
            +++ "ms, Max allowed: " +++ Z_to_string maxTimeDiff +++ "ms").

Definition verification_failed : AmpSignatureValidation :=
  rejected "Signature verification failed with all available public keys".

Definition validation_error (message : string) : AmpSignatureValidation :=
  rejected ("Validation error: " +++ message_or_unknown message).

(** [!signature || !signature.startsWith('rsa-sha256=')]; an absent header
    is [None]. *)
Definition bad_signature_format (signature : option string) : bool :=
  match signature with
  | None => true
  | Some s => String.eqb s "" || negb (String.prefix "rsa-sha256=" s)
  end.

(** The loop over [this.publicKeys]. *)
Fixpoint verify_loop (w : World) (message : string) (signatureBuffer : Buffer)
    (keys : list (string * string)) (st : Sys) : AmpSignatureValidation * Sys :=
  match keys with
  | [] => (verification_failed, st)
  | (keyId, key) :: rest =>
      let st := emit (Verify keyId key message signatureBuffer) st in
      match rsa_verify w key message signatureBuffer with
      | Returned true =>
          (mkValidation true (Some keyId) None,
           emit (Log LInfo "AMP signature validated successfully") st)
      | Returned false => verify_loop w message signatureBuffer rest st
      | Thrown _ =>
          verify_loop w message signatureBuffer rest
            (emit (Log LWarn "Failed to verify with key") st)
      end
  end.

(** From the return of [ensurePublicKeys] to the end. *)
Definition verify_phase (w : World) (body timestamp : string) (signatureBuffer : Buffer)
    (st : Sys) : AmpSignatureValidation * Sys :=
  let message := timestamp +++ body in
  verify_loop w message signatureBuffer (publicKeys st) st.

(** The outer [catch] of [validateSignature]. *)
Definition validate_catch (message : string) (st : Sys) : AmpSignatureValidation * Sys :=
  (validation_error message, emit (Log LError "AMP signature validation error") st).

(** Where a call stands after its synchronous prefix. *)
Inductive Pending : Type :=
| Finished (result : AmpSignatureValidation)
| AwaitFetch (signatureBuffer : Buffer) (now : Z) (reply : FetchReply)
| AwaitKeys (signatureBuffer : Buffer).

(** From entry to the first [await]. *)
Definition validate_begin (w : World) (signature : option string) (timestamp : string)
    (st : Sys) : Pending * Sys :=
  if bad_signature_format signature then (Finished format_error, st)
  else
    let signatureData :=
      match signature with Some s => string_drop 11 s | None => "" end in
    let signatureBuffer := base64_decode signatureData in
    let timestampMs := num_mul (parseInt timestamp) 1000 in
    let '(now, st) := Date_now w st in
    let timeDiff := num_abs_diff now timestampMs in
    if num_gt timeDiff maxTimeDiff then (Finished (timestamp_error timeDiff), st)
    else
      match ensure_begin w st with
      | (KeysFresh, st) => (AwaitKeys signatureBuffer, st)
      | (Fetching now' reply, st) => (AwaitFetch signatureBuffer now' reply, st)
      end.

(** One resumption of a suspended call.  Between [await fetch(...)] and
    [await response.json()] the call touches nothing that is shared, so the
    two are one resumption. *)
Definition validate_resume (w : World) (body timestamp : string) (p : Pending) (st : Sys)
    : Pending * Sys :=
  match p with
  | Finished r => (Finished r, st)
  | AwaitFetch signatureBuffer now reply =>
      match ensure_finish now reply st with
      | (Returned _, st) => (AwaitKeys signatureBuffer, st)
      | (Thrown message, st) =>
          let '(r, st) := validate_catch message st in (Finished r, st)
      end
  | AwaitKeys signatureBuffer =>
      let '(r, st) := verify_phase w body timestamp signatureBuffer st in (Finished r, st)
  end.

(** From the first [await] to the end, with nothing interleaved. *)
Definition validate_complete (w : World) (body timestamp : string) (p : Pending) (st : Sys)
    : AmpSignatureValidation * Sys :=
  match p with
  | Finished r => (r, st)
  | AwaitFetch signatureBuffer now reply =>
      match ensure_finish now reply st with
      | (Returned _, st) => verify_phase w body timestamp signatureBuffer st
      | (Thrown message, st) => validate_catch message st
      end
  | AwaitKeys signatureBuffer => verify_phase w body timestamp signatureBuffer st
  end.

(** A call that runs to completion with nothing interleaved. *)
Definition validateSignature (w : World) (body : string) (signature : option string)
    (timestamp : string) (st : Sys) : AmpSignatureValidation * Sys :=
  let '(p, st) := validate_begin w signature timestamp st in
  validate_complete w body timestamp p st.

(** What follows the freshness check: the keys are ensured, then the
    signature is tried against each of them. *)
Definition key_lookup_and_verification (w : World) (body timestamp : string)
    (signatureBuffer : Buffer) (st : Sys) : AmpSignatureValidation * Sys :=
  match ensurePublicKeys w st with
  | (Returned _, st) => verify_phase w body timestamp signatureBuffer st
  | (Thrown message, st) => validate_catch message st
  end.

(** *** Calls in flight

    Node runs one handler at a time and switches between calls only at an
    [await].  A schedule names, step by step, the call that runs next. *)
Record Call : Type := mkCall {
  call_body : string;
  call_signature : option string;
  call_timestamp : string
}.

Inductive TaskState : Type :=
| NotStarted
| Started (p : Pending).

Definition Task : Type := (Call * TaskState)%type.

Definition step_task (w : World) (t : Task) (st : Sys) : Task * Sys :=
  let '(c, ts) := t in
  match ts with
  | NotStarted =>
      let '(p, st) := validate_begin w (call_signature c) (call_timestamp c) st in
      ((c, Started p), st)
  | Started p =>
      let '(p, st) := validate_resume w (call_body c) (call_timestamp c) p st in
      ((c, Started p), st)
  end.

Fixpoint step_nth (w : World) (i : nat) (tasks : list Task) (st : Sys) : list Task * Sys :=
  match tasks, i with
  | [], _ => ([], st)
  | t :: rest, O => let '(t, st) := step_task w t st in (t :: rest, st)
  | t :: rest, S i' => let '(rest, st) := step_nth w i' rest st in (t :: rest, st)
  end.

Fixpoint run (w : World) (schedule : list nat) (tasks : list Task) (st : Sys)
    : list Task * Sys :=
  match schedule with
  | [] => (tasks, st)
  | i :: schedule' =>
      let '(tasks, st) := step_nth w i tasks st in run w schedule' tasks st
  end.

(** Every call of a batch runs its synchronous prefix before any reply is
    handled. *)
Fixpoint launch (w : World) (calls : list Call) (st : Sys) : list Task * Sys :=
  match calls with
  | [] => ([], st)
  | c :: rest =>
      let '(t, st) := step_task w (c, NotStarted) st in
      let '(ts, st) := launch w rest st in
      (t :: ts, st)
  end.

End AmpValidator.

(** ** The express middleware validateAmpSignature *)

Module Middleware.

Import AmpValidatorCodec JS AmpValidator.

(** [config.amp.validateSignatures] and [NODE_ENV === 'development']. *)
Record Config : Type := mkConfig {
  validateSignatures : bool;
  development : bool
}.

(** An inbound request: the two AMP headers, the body bytes as they came
    over the wire, and [req.body] as left by the body parsers mounted in
    app.ts ([express.json], then [express.urlencoded]; the [express.raw]
    mounted after them finds the body already read), with [JNull] for a
    body that is absent. *)
Record Request : Type := mkRequest {
  amp_signature : option string;
  amp_timestamp : option string;
  transmitted : string;
  req_body : JValue
}.

Inductive Reply : Type :=
| Next (isValidSignature : bool)
| Status (code : Z) (errorText : string) (details : option string).

Definition header_missing (h : option string) : bool :=
  match h with
  | None => true
  | Some s => String.eqb s ""
  end.

(** [req.body ? JSON.stringify(req.body) : ''] *)
Definition rawBody (req : Request) : string :=
  if truthy (req_body req) then JSON_stringify (req_body req) else "".

(** [validateSignature] catches whatever is raised inside it, so the
    [catch] of the middleware is not entered and is left out. *)
Definition validateAmpSignature (cfg : Config) (w : World) (req : Request) (st : Sys)
    : Reply * Sys :=
  let '(startTime, st) := Date_now w st in
  if negb (validateSignatures cfg)
  then (Next true, emit (Log LDebug "AMP signature validation disabled") st)
  else
    let ampSignature := amp_signature req in
    let ampTimestamp := amp_timestamp req in
    if header_missing ampSignature || header_missing ampTimestamp
    then
      let st := emit (Log LWarn "Missing AMP headers") st in
      if development cfg then (Next true, st)
      else (Status 400 "Missing required AMP headers (amp-signature, amp-timestamp)" None, st)
    else
      let timestamp := match ampTimestamp with Some t => t | None => "" end in
      let '(validationResult, st) :=
        validateSignature w (rawBody req) ampSignature timestamp st in
      let '(endTime, st) := Date_now w st in
      let st := emit (Log LInfo "AMP signature validation") st in
      if negb (isValid validationResult)
      then (Status 401 "Invalid AMP signature" (error validationResult),
            emit (Log LWarn "AMP signature validation failed") st)
      else (Next (isValid validationResult),
            emit (Log LInfo "AMP signature validated successfully") st).

(** The messages handed to the RSA primitive, oldest first. *)
Definition verified_messages (st : Sys) : list string :=
  rev (flat_map (fun ev => match ev with
                           | Verify _ _ message _ => [message]
                           | Log _ _ => []
                           end) (events st)).

End Middleware.

(** ** WebhookService: the bounded table of submissions *)

Module WebhookService.

Import JS.

(** The part of [SubmissionMetadata] that [processSubmission] reads; the
    remaining optional fields are copied along unread. *)
Record SubmissionMetadata : Type := mkMetadata {
  formStructure_formId : string;
  senderEmail : option string;
  userAgent : option string;
  ipAddress : option string
}.

(** [timestamp] is the [Date] in milliseconds since the epoch. *)
Record AmpFormSubmission : Type := mkSubmission {
  id : string;
  formId : string;
  formData : JValue;
  metadata : SubmissionMetadata;
  timestamp : Z;
  isAmpValidated : option bool;
  isTracked : bool
}.

Record SubmissionRequest : Type := mkSubmissionRequest {
  request_formData : JValue;
  request_metadata : SubmissionMetadata;
  request_isAmpValidated : option bool
}.

(** The [Map] of submissions in insertion order and the lines that the
    methods modelled here have logged so far (newest first). *)
Record Service : Type := mkService {
  submissions : list (string * AmpFormSubmission);
  logged : list (Level * string)
}.

Definition maxSubmissions : Z := 10000.

Definition log (level : Level) (message : string) (svc : Service) : Service :=
  mkService (submissions svc) ((level, message) :: logged svc).

Abbreviation entry := (string * AmpFormSubmission)%type.

Definition entry_time (e : entry) : Z := timestamp (snd e).

(** *** The [Map] operations *)

Fixpoint store_set (k : string) (v : AmpFormSubmission) (m : list entry) : list entry :=
  match m with
  | [] => [(k, v)]
  | (k', v') :: rest =>
      if String.eqb k' k then (k, v) :: rest else (k', v') :: store_set k v rest
  end.

Definition store_delete (k : string) (m : list entry) : list entry :=
  filter (fun e => negb (String.eqb (fst e) k)) m.

Fixpoint store_get (k : string) (m : list entry) : option AmpFormSubmission :=
  match m with
  | [] => None
  | (k', v) :: rest => if String.eqb k' k then Some v else store_get k rest
  end.

Definition store_size (m : list entry) : Z := Z.of_nat (List.length m).

(** *** The dangerous-content patterns of validateFormData *)

Definition lower (c : ascii) : ascii :=
  let n := nat_of_ascii c in
  if (Nat.leb 65 n && Nat.leb n 90)%bool then ascii_of_nat (n + 32) else c.

Fixpoint prefix_ci (p s : string) : bool :=
  match p, s with
  | EmptyString, _ => true
  | String a p', String b s' => Ascii.eqb (lower a) (lower b) && prefix_ci p' s'
  | String _ _, EmptyString => false
  end.

(** Some suffix of [s] satisfies [P]: the regular expression may match at
    any position. *)
Fixpoint at_some_position (P : string -> bool) (s : string) : bool :=
  P s || match s with
         | String _ rest => at_some_position P rest
         | EmptyString => false
         end.

Definition is_line_terminator (c : ascii) : bool :=
  let n := nat_of_ascii c in (Nat.eqb n 10 || Nat.eqb n 13)%bool.

Definition is_word_char (c : ascii) : bool :=
  let n := nat_of_ascii c in
  ((Nat.leb 48 n && Nat.leb n 57) || (Nat.leb 65 n && Nat.leb n 90)
   || (Nat.leb 97 n && Nat.leb n 122) || Nat.eqb n 95)%bool.

(** [[^>]*>]: the rest after the next [>], if there is one. *)
Fixpoint after_next_gt (s : string) : option string :=
  match s with
  | EmptyString => None
  | String c rest => if Ascii.eqb c ">"%char then Some rest else after_next_gt rest
  end.

(** [.*?<\/script>]: the closing tag occurs before any line terminator. *)
Fixpoint closing_script_on_line (s : string) : bool :=
  prefix_ci "</script>" s
  || match s with
     | String c rest => negb (is_line_terminator c) && closing_script_on_line rest
     | EmptyString => false
     end.

(** [/<script[^>]*>.*?<\/script>/gi] *)
Definition script_tag_here (s : string) : bool :=
  prefix_ci "<script" s
  && match after_next_gt (string_drop 7 s) with
     | Some rest => closing_script_on_line rest
     | None => false
     end.

Fixpoint skip_spaces_then_eq (s : string) : bool :=
  match s with
  | String c rest =>
      if Ascii.eqb c "="%char then true
      else if is_whitespace c then skip_spaces_then_eq rest
      else false
  | EmptyString => false
  end.

Fixpoint word_run_then_eq (s : string) : bool :=
  match s with
  | String c rest =>
      if is_word_char c then word_run_then_eq rest else skip_spaces_then_eq s
  | EmptyString => false
  end.

(** [/on\w+\s*=/gi] *)
Definition event_handler_here (s : string) : bool :=
  prefix_ci "on" s
  && match string_drop 2 s with
     | String c rest => is_word_char c && word_run_then_eq rest
     | EmptyString => false
     end.

Definition dangerousPatterns : list (string -> bool) :=
  [ at_some_position script_tag_here;
    at_some_position (prefix_ci "javascript:");
    at_some_position event_handler_here ].

Definition dangerous (dataString : string) : bool :=
  existsb (fun pattern => pattern dataString) dangerousPatterns.

(** *** validateFormData *)
Definition validateFormData (formData : JValue) (svc : Service) : outcome unit * Service :=
  if negb (truthy formData) || negb (typeof_object formData)
  then (Thrown "Form data must be an object", svc)
  else if keys_length formData =? 0
  then (Thrown "Form data cannot be empty", svc)
  else
    let dataString := JSON_stringify formData in
    if Z.of_nat (String.length dataString) >? 100000
    then (Thrown "Form data too large", svc)
    else if dangerous dataString
         then (Returned tt, log LWarn "Potentially malicious content detected in form data" svc)
         else (Returned tt, svc).

(** *** cleanupOldSubmissions *)

(** [Math.floor(n * 0.1)] in binary64.  The literal [0.1] is the double
    [3602879701896397 / 2^55]; the exact product is rounded to 53
    significant bits, ties to even, and then floored. *)
Definition tenth_numerator : Z := 3602879701896397.

Definition round_to_53_bits (x : Z) : Z :=
  let bits := Z.log2 x + 1 in
  if bits <=? 53 then x
  else
    let shift := bits - 53 in
    let q := Z.shiftr x shift in
    let r := x - Z.shiftl q shift in
    let half := Z.shiftl 1 (shift - 1) in
    let q := if (r >? half) || ((r =? half) && Z.odd q) then q + 1 else q in
    Z.shiftl q shift.

Definition floor_tenth (n : Z) : Z :=
  if n <=? 0 then 0 else Z.shiftr (round_to_53_bits (n * tenth_numerator)) 55.

(** [Array.prototype.sort] with the comparator [a.timestamp - b.timestamp]
    is stable: entries with equal timestamps keep their order. *)
Fixpoint insert_by_time (e : entry) (sorted : list entry) : list entry :=
  match sorted with
  | [] => [e]
  | x :: rest =>
      if entry_time e <=? entry_time x then e :: x :: rest
      else x :: insert_by_time e rest
  end.

Definition sort_by_time (entries : list entry) : list entry :=
  fold_right insert_by_time [] entries.

Definition delete_all (victims : list entry) (m : list entry) : list entry :=
  fold_left (fun m e => store_delete (fst e) m) victims m.

Definition cleanupOldSubmissions (svc : Service) : Service :=
  let entries := submissions svc in
  let sorted := sort_by_time entries in
  let toRemove := floor_tenth (store_size entries) in
  let kept := delete_all (firstn (Z.to_nat toRemove) sorted) (submissions svc) in
  log LInfo ("Cleaned up " +++ Z_to_string toRemove +++ " old submissions")
    (mkService kept (logged svc)).

(** *** processSubmission *)

(** [this.submissions.set(id, submission)], then the clean-up when the
    size has passed the limit. *)
Definition store_submission (submission : AmpFormSubmission) (svc : Service) : Service :=
  let svc := mkService (store_set (id submission) submission (submissions svc)) (logged svc) in
  if store_size (submissions svc) >? maxSubmissions
  then cleanupOldSubmissions svc
  else svc.

(** [processFormContent]: every field value is converted with
    [String(value)] inside a [try]; when a conversion raises, the error is
    logged and nothing is thrown; otherwise the derived insights are
    logged. *)
Definition processFormContent (submission : AmpFormSubmission) (svc : Service) : Service :=
  if existsb String_raises (values_of (formData submission))
  then log LError "Error processing form content:" svc
  else log LInfo "Form content analyzed" svc.

(** [newId] is the string drawn by [generateSubmissionId] and [now] the
    value of [new Date()].  The write to the data file ([saveSubmissions])
    is started and not awaited; it changes nothing in the table, and the
    lines it logs are not part of [logged]. *)
Definition processSubmission (newId : string) (now : Z) (request : SubmissionRequest)
    (svc : Service) : outcome AmpFormSubmission * Service :=
  match validateFormData (request_formData request) svc with
  | (Thrown message, svc) =>
      (Thrown ("Submission processing failed: " +++ message),
       log LError "Failed to process submission:" svc)
  | (Returned _, svc) =>
      let submission :=
        mkSubmission newId (formStructure_formId (request_metadata request))
          (request_formData request) (request_metadata request) now
          (request_isAmpValidated request) true in
      let svc := store_submission submission svc in
      let svc := log LInfo "Submission processed successfully" svc in
      let svc := processFormContent submission svc in
      (Returned submission, svc)
  end.

End WebhookService.

(** ** Reading a DER length back

    The definite-length octets as a DER reader takes them: every element
    is an octet; one octet below 128 in the short form; otherwise
    [0x80 + k] followed by [k] octets, most significant first, where the
    first of them is not zero and the value is 128 or more, so that no
    shorter form exists. *)

Module DERReader.

Definition be_value (bytes : list Z) : Z :=
  fold_left (fun acc b => acc * 256 + b) bytes 0.

Definition is_octet (b : Z) : bool := (0 <=? b) && (b <? 256).

Definition der_length_decode (octets : list Z) : option Z :=
  match octets with
  | [] => None
  | first :: rest =>
      if negb (forallb is_octet octets) then None
      else if first <? 128
      then match rest with [] => Some first | _ => None end
      else if (first - 128 =? Z.of_nat (List.length rest)) && (0 <? Z.of_nat (List.length rest))
              && (0 <? hd 0 rest) && (128 <=? be_value rest)
           then Some (be_value rest)
           else None
  end.

End DERReader.

(** ** Concrete worlds, states and requests used below *)

Module Examples.

Import AmpValidatorCodec JS AmpValidator Middleware.

Definition noon : Z := 1700000000000.

Definition a_key : KeyData := mkKeyData "k1" "gAE" "AQAB".

Definition a_pem : string :=
  pem_of_der (createRSAPublicKeyDER (base64_decode "gAE") (base64_decode "AQAB")).

(** The endpoint serves one key and the RSA primitive accepts. *)
Definition accepting_world : World :=
  mkWorld (fun _ => noon) (fun _ => KeysDoc [Entry a_key]) (fun _ _ _ => Returned true).

(** The endpoint serves one key and the RSA primitive refuses. *)
Definition refusing_world : World :=
  mkWorld (fun _ => noon) (fun _ => KeysDoc [Entry a_key]) (fun _ _ _ => Returned false).

(** The endpoint answers 200 with a document whose [keys] array is empty. *)
Definition empty_document_world : World :=
  mkWorld (fun _ => noon) (fun _ => KeysDoc []) (fun _ _ _ => Returned true).

(** The endpoint cannot be reached. *)
Definition unreachable_world : World :=
  mkWorld (fun _ => noon) (fun _ => NetworkError "connect ECONNREFUSED")
    (fun _ _ _ => Returned true).

(** No key was ever loaded. *)
Definition no_keys : Sys := mkSys [] 0 O O [].

(** One key, loaded just now. *)
Definition cached : Sys := mkSys [("k1", a_pem)] noon O O [].

(** One key, loaded a day ago: the TTL has run out. *)
Definition expired : Sys := mkSys [("k1", a_pem)] (noon - KEY_CACHE_TTL) O O [].

Definition a_call : Call := mkCall "{}" (Some "rsa-sha256=AAAA") "1700000000".

Definition production : Config := mkConfig true false.

(** A JSON body sent with a space after the colon, and the object that
    [express.json] makes of it. *)
Definition spaced_body : string := "{" +++ dquote +++ "a" +++ dquote +++ ": 1}".

Definition spaced_request : Request :=
  mkRequest (Some "rsa-sha256=AAAA") (Some "1700000000") spaced_body (JObj [("a", JNum 1)]).

End Examples.

(** *** A store at capacity *)

Module StoreExamples.

Import JS WebhookService.

Definition decimal (n : nat) : string := NilEmpty.string_of_uint (Nat.to_uint n).

Definition nth_id (i : nat) : string := "sub_" +++ decimal i.

Definition some_metadata : SubmissionMetadata := mkMetadata "contact" None None None.

(** The [i]-th held submission, received [i] milliseconds after [base]. *)
Definition nth_entry (base : Z) (i : nat) : entry :=
  (nth_id i,
   mkSubmission (nth_id i) "contact" (JObj [("name", JStr "x")]) some_metadata
     (base + Z.of_nat i) None true).

(** 10000 submissions with the ids [sub_0] to [sub_9999]. *)
Definition full_store (base : Z) : list entry :=
  map (nth_entry base) (seq 0 (Z.to_nat 10000)).

Definition full_service (base : Z) : Service := mkService (full_store base) [].

Definition new_id : string := nth_id (Z.to_nat 10000).

Definition a_request : SubmissionRequest :=
  mkSubmissionRequest (JObj [("name", JStr "Ada")]) some_metadata (Some true).

Definition lt_sign : string := String "060"%char "".

Definition script_text : string :=
  lt_sign +++ "script>alert(1)" +++ lt_sign +++ "/script>".

Definition dangerous_request : SubmissionRequest :=
  mkSubmissionRequest (JObj [("comment", JStr script_text)]) some_metadata (Some true).

Definition empty_request : SubmissionRequest :=
  mkSubmissionRequest (JObj []) some_metadata (Some true).

Fixpoint padding (n : nat) : string :=
  match n with
  | O => ""
  | S n' => String "x"%char (padding n')
  end.

(** One field of 100000 characters: 100011 characters once serialised. *)
Definition large_request : SubmissionRequest :=
  mkSubmissionRequest (JObj [("blob", JStr (padding (Z.to_nat 100000)))]) some_metadata
    (Some true).

(** A field whose value is an object with a property [toString]. *)
Definition odd_request : SubmissionRequest :=
  mkSubmissionRequest (JObj [("a", JObj [("toString", JNum 1)])]) some_metadata (Some true).

Definition empty_service : Service := mkService [] [].

End StoreExamples.

(** ** Vocabulary of the statements *)

Module Vocabulary.

Import AmpValidatorCodec JS AmpValidator WebhookService.

(** The cache is stale at whatever moment the clock is read. *)
Definition stale_at_every_reading (w : World) (st : Sys) : Prop :=
  forall k, (map_size (publicKeys st) >? 0) && (clock w k - lastKeyFetch st <? KEY_CACHE_TTL) = false.

(** A call with a well-formed signature header and a timestamp within the
    window at whatever moment the clock is read. *)
Definition passes_the_checks (w : World) (c : Call) : Prop :=
  bad_signature_format (call_signature c) = false
  /\ forall k, num_gt (num_abs_diff (clock w k) (num_mul (parseInt (call_timestamp c)) 1000))
                 maxTimeDiff = false.

Definition awaits_fetch (t : Task) : Prop :=
  exists signatureBuffer now reply, snd t = Started (AwaitFetch signatureBuffer now reply).

(** [k] is the key of one of [victims]. *)
Definition key_in (k : string) (victims : list entry) : bool :=
  existsb (String.eqb k) (map fst victims).

Definition no_later (a b : entry) : Prop := entry_time a <= entry_time b.

(** The [k] oldest entries: the first [k] in ascending order of timestamp,
    entries with equal timestamps in insertion order. *)
Definition oldest (k : nat) (entries : list entry) : list entry :=
  firstn k (sort_by_time entries).

(** How many of the entries are no younger than [now]. *)
Definition count_no_later (now : Z) (entries : list entry) : Z :=
  Z.of_nat (List.length (filter (fun e => entry_time e <=? now) entries)).

(** The record that [processSubmission] builds for a request. *)
Definition submission_of (newId : string) (now : Z) (request : SubmissionRequest)
    : AmpFormSubmission :=
  mkSubmission newId (formStructure_formId (request_metadata request))
    (request_formData request) (request_metadata request) now
    (request_isAmpValidated request) true.

End Vocabulary.

(** ** Proof steps used throughout *)

(** Settle a JS [>] whose truth follows from linear arithmetic. *)
Ltac gtb_true := symmetry; apply Z.gtb_lt; try lia.
Ltac gtb_false := symmetry; rewrite Z.gtb_ltb; apply Z.ltb_ge; try lia.

(** Split on every condition of the goal. *)
Ltac split_conditions :=
  repeat match goal with |- context [if ?b then _ else _] => destruct b end.

(** ** Reading a key back

    A reader of DER: tag, definite length in its shortest form, content,
    every element an octet.  An INTEGER has at least one content octet
    and no superfluous leading octet, and is a number in two's
    complement.  [read_spki] takes a SubjectPublicKeyInfo for RSA apart
    and returns the modulus and the exponent. *)

Module DERParse.

Import DERReader.

Definition read_length (octets : list Z) : option (Z * list Z) :=
  match octets with
  | [] => None
  | first :: rest =>
      if negb (is_octet first) || (first =? 255) then None
      else if first <? 128 then Some (first, rest)
      else
        let k := Z.to_nat (first - 128) in
        let digits := firstn k rest in
        if (0 <? first - 128) && Nat.leb k (List.length rest)
           && forallb is_octet digits && (0 <? hd 0 digits) && (128 <=? be_value digits)
        then Some (be_value digits, skipn k rest)
        else None
  end.

Definition read_tlv (octets : list Z) : option (Z * list Z * list Z) :=
  match octets with
  | [] => None
  | tag :: after =>
      if negb (is_octet tag) then None
      else
        match read_length after with
        | None => None
        | Some (len, rest) =>
            let content := firstn (Z.to_nat len) rest in
            if (0 <=? len) && (len <=? Z.of_nat (List.length rest))
               && forallb is_octet content
            then Some (tag, content, skipn (Z.to_nat len) rest)
            else None
        end
  end.

Definition expect_tlv (tag : Z) (octets : list Z) : option (list Z * list Z) :=
  match read_tlv octets with
  | Some (t, content, rest) => if t =? tag then Some (content, rest) else None
  | None => None
  end.

(** The content octets of an INTEGER: not empty, and the first nine bits
    neither all zero nor all one. *)
Definition well_formed_integer (content : list Z) : bool :=
  match content with
  | [] => false
  | [_] => true
  | first :: second :: _ =>
      negb ((first =? 0) && (second <? 128))
      && negb ((first =? 255) && (128 <=? second))
  end.

(** The number that the content octets stand for, in two's complement. *)
Definition integer_value (content : list Z) : Z :=
  if 128 <=? hd 0 content
  then be_value content - 256 ^ Z.of_nat (List.length content)
  else be_value content.

Definition read_integer (octets : list Z) : option (Z * list Z) :=
  match expect_tlv 2 octets with
  | Some (content, rest) =>
      if well_formed_integer content then Some (integer_value content, rest) else None
  | None => None
  end.

(** SEQUENCE { INTEGER, INTEGER } with nothing after the second. *)
Definition read_two_integers (octets : list Z) : option (Z * Z) :=
  match read_integer octets with
  | Some (n, afterN) =>
      match read_integer afterN with
      | Some (e, []) => Some (n, e)
      | _ => None
      end
  | None => None
  end.

(** OBJECT IDENTIFIER 1.2.840.113549.1.1.1 (rsaEncryption), then NULL. *)
Definition rsaEncryption_algorithm : list Z :=
  [6; 9; 42; 134; 72; 134; 247; 13; 1; 1; 1; 5; 0].

Definition read_spki (der : list Z) : option (Z * Z) :=
  match expect_tlv 48 der with
  | Some (body, []) =>
      match expect_tlv 48 body with
      | Some (algorithm, afterAlgorithm) =>
          if list_eq_dec Z.eq_dec algorithm rsaEncryption_algorithm
          then
            match expect_tlv 3 afterAlgorithm with
            | Some (0 :: inner, []) =>
                match expect_tlv 48 inner with
                | Some (integers, []) => read_two_integers integers
                | _ => None
                end
            | _ => None
            end
          else None
      | None => None
      end
  | _ => None
  end.

(** The content of the INTEGER that [createASN1Integer] writes for the
    unsigned bytes [v]. *)
Definition integer_content (v : list Z) : list Z :=
  match v with
  | first :: _ => if first >=? 128 then 0 :: v else v
  | [] => v
  end.

(** Unsigned bytes that are not empty and carry no superfluous leading
    zero byte. *)
Definition minimal_unsigned (v : list Z) : bool :=
  match v with
  | [] => false
  | [_] => true
  | first :: second :: _ => negb ((first =? 0) && (second <? 128))
  end.

End DERParse.

(** ** Reading the PEM armour

    The lines of a text, the lines between the BEGIN and END lines, and
    the key they carry.  The payload is decoded with the decoder the
    program uses for [Buffer.from(s, 'base64')]. *)

Module PEMParse.

Import AmpValidatorCodec DERParse.

Fixpoint split_lines (s : string) : list string :=
  match s with
  | EmptyString => [""]
  | String c rest =>
      if Ascii.eqb c "010"%char then "" :: split_lines rest
      else match split_lines rest with
           | line :: lines => String c line :: lines
           | [] => [String c ""]
           end
  end.

Definition pem_lines (pem : string) : option (list string) :=
  match split_lines pem with
  | first :: rest =>
      if String.eqb first "-----BEGIN PUBLIC KEY-----"
      then match rev rest with
           | last :: middle =>
               if String.eqb last "-----END PUBLIC KEY-----"
               then Some (rev middle) else None
           | [] => None
           end
      else None
  | [] => None
  end.

Definition read_pem (pem : string) : option Buffer :=
  match pem_lines pem with
  | Some body => Some (base64_decode (String.concat "" body))
  | None => None
  end.

Definition read_public_key (pem : string) : option (Z * Z) :=
  match read_pem pem with
  | Some der => read_spki der
  | None => None
  end.

(** A line holds no line feed. *)
Fixpoint no_newline (s : string) : bool :=
  match s with
  | EmptyString => true
  | String c rest => negb (Ascii.eqb c "010"%char) && no_newline rest
  end.

(** The character written for the sextet [n] is read back as [n] and is
    neither [=] nor a line feed. *)
Definition sextet_ok (n : nat) : bool :=
  match unbase64 (base64_char (Z.of_nat n)) with
  | Some v => (v =? Z.of_nat n) && negb (Ascii.eqb (base64_char (Z.of_nat n)) "="%char)
              && negb (Ascii.eqb (base64_char (Z.of_nat n)) "010"%char)
  | None => false
  end.

End PEMParse.

(** ** The public operations on the key cache *)

Module KeyCache.

Import AmpValidatorCodec JS AmpValidator.

(** [getPublicKeysCount] *)
Definition getPublicKeysCount (st : Sys) : Z := map_size (publicKeys st).

(** [refreshPublicKeys]: [this.lastKeyFetch = 0], then [ensurePublicKeys]. *)
Definition refreshPublicKeys (w : World) (st : Sys) : outcome unit * Sys :=
  ensurePublicKeys w (set_lastKeyFetch 0 st).

(** What the loop body stores for an entry: the key id and the PEM text
    when the guard [keyData.kid && keyData.n && keyData.e] holds and
    [jwkToPem] returns, nothing otherwise. *)
Definition stored_key (keyData : Jwk) : option (string * string) :=
  if negb (String.eqb (jwk_kid keyData) "")
     && field_truthy (n_field keyData)
     && field_truthy (e_field keyData)
  then match jwkToPem keyData with
       | Returned publicKey => Some (jwk_kid keyData, publicKey)
       | Thrown _ => None
       end
  else None.

(** The entries of a [keys] array up to its first [null], and the message
    of the [TypeError] that the [null] raises. *)
Fixpoint entries_read (keys : list KeyEntry) : list Jwk :=
  match keys with
  | Entry keyData :: rest => keyData :: entries_read rest
  | _ => []
  end.

Fixpoint first_null (keys : list KeyEntry) : option string :=
  match keys with
  | [] => None
  | NullEntry message :: _ => Some message
  | Entry _ :: rest => first_null rest
  end.

(** The PEM text that the last entry storing a key under [k] stores. *)
Definition last_stored (k : string) (entries : list Jwk) : option string :=
  match find (fun keyData =>
                match stored_key keyData with
                | Some (k', _) => String.eqb k' k
                | None => false
                end) (rev entries) with
  | Some keyData => option_map snd (stored_key keyData)
  | None => None
  end.

(** A reply on which [ensurePublicKeys] reaches its [catch] block before
    it has touched the key map. *)
Definition fetch_failed (reply : FetchReply) : bool :=
  match reply with
  | KeysDoc _ => false
  | _ => true
  end.

(** The key ids handed to the RSA primitive, oldest call first. *)
Definition verify_key_ids (evs : list Event) : list string :=
  rev (flat_map (fun ev => match ev with
                           | Verify keyId _ _ _ => [keyId]
                           | Log _ _ => []
                           end) evs).

End KeyCache.

(** *** Further examples *)

Module MoreExamples.

Import AmpValidatorCodec JS AmpValidator.

(** The RSA primitive raises on the key text [bad] and accepts every
    other key. *)
Definition picky_world : World :=
  mkWorld (fun _ => Examples.noon) (fun _ => BadShape)
    (fun key _ _ => if String.eqb key "bad" then Thrown "unsupported" else Returned true).

Definition three_keys : list (string * string) :=
  [("k0", "bad"); ("k1", "good"); ("k2", "fine")].

(** The message of the [TypeError] raised by reading [kid] of [null], a
    [keys] array whose second entry is [null], and one that holds [null]
    only. *)
Definition null_message : string := "Cannot read properties of null (reading 'kid')".

Definition keys_with_null : list KeyEntry :=
  [Entry Examples.a_key; NullEntry null_message].

Definition only_null : list KeyEntry := [NullEntry null_message].

(** The endpoint serves the array that holds [null] only. *)
Definition null_world : World :=
  mkWorld (fun _ => Examples.noon) (fun _ => KeysDoc only_null)
    (fun _ _ _ => Returned true).

End MoreExamples.

(** ** Array operations shared by the stores *)

Module JSArray.

Import JS.

(** [Array.prototype.slice(start, end)] for integer arguments: a negative
    index counts from the end, an index beyond the length is the length,
    and an end before the start gives the empty array. *)
Definition slice_index (len i : Z) : Z :=
  if i <? 0 then Z.max (len + i) 0 else Z.min i len.

Definition slice {A : Type} (start finish : Z) (l : list A) : list A :=
  let len := Z.of_nat (List.length l) in
  let k := slice_index len start in
  let final := slice_index len finish in
  firstn (Z.to_nat (Z.max (final - k) 0)) (skipn (Z.to_nat k) l).

(** [String.prototype.includes] *)
Fixpoint includes (s needle : string) : bool :=
  String.prefix needle s
  || match s with
     | String _ rest => includes rest needle
     | EmptyString => false
     end.

(** [date >= other] and [date <= other] for a valid [Date] against a
    [Date] that may be invalid: the operands are compared as numbers, and
    a comparison with [NaN] is false. *)
Definition date_ge (t : Z) (other : Number) : bool :=
  match other with NaN => false | Num o => o <=? t end.

Definition date_le (t : Z) (other : Number) : bool :=
  match other with NaN => false | Num o => t <=? o end.

(** [Array.prototype.sort] with the comparator
    [(a, b) => b.timestamp.getTime() - a.timestamp.getTime()]: newest
    first, elements with equal timestamps in their former order. *)
Section NewestFirst.

Context {A : Type} (time : A -> Z).

Fixpoint insert_newest (x : A) (sorted : list A) : list A :=
  match sorted with
  | [] => [x]
  | y :: rest =>
      if time y <=? time x then x :: y :: rest
      else y :: insert_newest x rest
  end.

Definition sort_newest_first (l : list A) : list A :=
  fold_right insert_newest [] l.

End NewestFirst.

End JSArray.

(** ** WebhookService: reading the table *)

Module WebhookQueries.

Import JS JSArray WebhookService.

Record SubmissionFilters : Type := mkFilters {
  page : Z;
  limit : Z;
  filter_senderEmail : option string;
  startDate : option Number;
  endDate : option Number;
  ampValidated : option bool
}.

Record SubmissionResult : Type := mkResult {
  result_submissions : list AmpFormSubmission;
  total : Z
}.

(** [getSubmission]: [this.submissions.get(id) || null] *)
Definition getSubmission (k : string) (svc : Service) : option AmpFormSubmission :=
  store_get k (submissions svc).

Section Queries.

(** [String.prototype.toLowerCase] *)
Variable toLowerCase : string -> string.

(** [s.metadata.senderEmail?.toLowerCase().includes(needle.toLowerCase())] *)
Definition email_matches (needle : string) (s : AmpFormSubmission) : bool :=
  match senderEmail (metadata s) with
  | Some address => includes (toLowerCase address) (toLowerCase needle)
  | None => false
  end.

(** [s.isAmpValidated === wanted] *)
Definition validated_is (wanted : bool) (s : AmpFormSubmission) : bool :=
  match isAmpValidated s with
  | Some b => Bool.eqb b wanted
  | None => false
  end.

(** The four optional filters, applied one after the other. *)
Definition apply_filters (filters : SubmissionFilters) (l : list AmpFormSubmission)
    : list AmpFormSubmission :=
  let l :=
    match filter_senderEmail filters with
    | Some needle =>
        if String.eqb needle "" then l else filter (email_matches needle) l
    | None => l
    end in
  let l :=
    match startDate filters with
    | Some d => filter (fun s => date_ge (timestamp s) d) l
    | None => l
    end in
  let l :=
    match endDate filters with
    | Some d => filter (fun s => date_le (timestamp s) d) l
    | None => l
    end in
  match ampValidated filters with
  | Some wanted => filter (validated_is wanted) l
  | None => l
  end.

Definition getSubmissions (filters : SubmissionFilters) (svc : Service) : SubmissionResult :=
  let submissions := map snd (submissions svc) in
  let submissions := apply_filters filters submissions in
  let submissions := sort_newest_first timestamp submissions in
  let total := Z.of_nat (List.length submissions) in
  let startIndex := (page filters - 1) * limit filters in
  let endIndex := startIndex + limit filters in
  mkResult (slice startIndex endIndex submissions) total.

(** What [exportSubmissions] writes to the export file as
    [totalSubmissions] and [submissions], for filters that leave [page] and
    [limit] to their defaults. *)
Definition exportSubmissions_selection (f : SubmissionFilters) (svc : Service)
    : SubmissionResult :=
  getSubmissions
    (mkFilters 1 10000 (filter_senderEmail f) (startDate f) (endDate f) (ampValidated f))
    svc.

(** A submission passes every filter that is set. *)
Definition passes (filters : SubmissionFilters) (s : AmpFormSubmission) : bool :=
  match filter_senderEmail filters with
  | Some needle => String.eqb needle "" || email_matches needle s
  | None => true
  end
  && match startDate filters with
     | Some d => date_ge (timestamp s) d
     | None => true
     end
  && match endDate filters with
     | Some d => date_le (timestamp s) d
     | None => true
     end
  && match ampValidated filters with
     | Some wanted => validated_is wanted s
     | None => true
     end.

(** The submissions that pass the filters, in the order of the table, and
    newest first. *)
Definition matching (f : SubmissionFilters) (svc : Service) : list AmpFormSubmission :=
  filter (passes f) (map snd (submissions svc)).

Definition newest_first (f : SubmissionFilters) (svc : Service) : list AmpFormSubmission :=
  sort_newest_first timestamp (matching f svc).

End Queries.

Definition newer_or_equal (a b : AmpFormSubmission) : Prop := timestamp b <= timestamp a.

(** The pages [first], [first + 1], ... of a result, [count] of them. *)
Definition pages (toLowerCase : string -> string) (f : SubmissionFilters) (svc : Service)
    (first : Z) (count : nat) : list (list AmpFormSubmission) :=
  map (fun i =>
         result_submissions
           (getSubmissions toLowerCase
              (mkFilters (first + Z.of_nat i) (limit f) (filter_senderEmail f) (startDate f)
                 (endDate f) (ampValidated f)) svc))
      (seq 0 count).

End WebhookQueries.

Module QueryExamples.

Import JS WebhookService WebhookQueries.

Definition no_filters (page limit : Z) : SubmissionFilters :=
  mkFilters page limit None None None None.

(** Three submissions received at 30, 10 and 20 ms. *)
Definition submission_at (name : string) (time : Z) : AmpFormSubmission :=
  mkSubmission name "contact" (JObj [("name", JStr "x")]) StoreExamples.some_metadata
    time None true.

Definition three_submissions : Service :=
  mkService [("a", submission_at "a" 30); ("b", submission_at "b" 10);
             ("c", submission_at "c" 20)] [].

Definition as_is (s : string) : string := s.

End QueryExamples.

(** ** One submission after the other *)

Module SubmissionStream.

Import JS WebhookService.

(** An arriving request with the id drawn for it and the value of
    [new Date()] at its arrival. *)
Record Arrival : Type := mkArrival {
  arrival_id : string;
  arrival_time : Z;
  arrival_request : SubmissionRequest
}.

(** [processSubmission] for each arrival in turn; a call that throws
    leaves the table to the next one. *)
Definition process_all (arrivals : list Arrival) (svc : Service) : Service :=
  fold_left
    (fun svc a => snd (processSubmission (arrival_id a) (arrival_time a) (arrival_request a) svc))
    arrivals svc.

(** Ids are distinct, the limit is respected, and every submission is
    filed under its own id. *)
Definition well_kept (svc : Service) : Prop :=
  NoDup (map fst (submissions svc))
  /\ store_size (submissions svc) <= maxSubmissions
  /\ forall k v, In (k, v) (submissions svc) -> id v = k.

End SubmissionStream.

(** ** DatabaseService, with the storage type [memory] of the shipped
    configuration

    With [config.database.type === 'memory'] nothing is read from or
    written to a file, and every stored timestamp is the [Date] that
    [saveSubmission] made. *)

Module DatabaseService.

Import JS JSArray WebhookService.

(** [this.submissions], an array. *)
Abbreviation Database := (list AmpFormSubmission).

Definition with_id_and_time (newId : string) (now : Z) (s : AmpFormSubmission)
    : AmpFormSubmission :=
  mkSubmission newId (formId s) (formData s) (metadata s) now (isAmpValidated s)
    (isTracked s).

(** [saveSubmission]: the id and the timestamp are written into the
    submission, which is pushed; the log line that follows evaluates
    [Object.keys(submission.formData)], which raises a [TypeError] for
    [null], and the [catch] block rethrows it. *)
Definition saveSubmission (newId : string) (now : Z) (submission : AmpFormSubmission)
    (db : Database) : outcome string * Database :=
  let submission := with_id_and_time newId now submission in
  let db := db ++ [submission] in
  match formData submission with
  | JNull => (Thrown "Cannot convert undefined or null to object", db)
  | _ => (Returned newId, db)
  end.

Record Options : Type := mkOptions {
  opt_limit : option Number;
  opt_offset : option Number;
  opt_formId : option string;
  opt_startDate : option Number;
  opt_endDate : option Number
}.

(** [value || fallback] for an optional integer: [undefined], [NaN] and
    [0] give the fallback. *)
Definition or_default (value : option Number) (fallback : Z) : Z :=
  match value with
  | Some (Num z) => if z =? 0 then fallback else z
  | Some NaN | None => fallback
  end.

Definition select (options : Options) (db : Database) : list AmpFormSubmission :=
  let filtered := db in
  let filtered :=
    match opt_formId options with
    | Some wanted =>
        if String.eqb wanted "" then filtered
        else filter (fun s => String.eqb (formStructure_formId (metadata s)) wanted) filtered
    | None => filtered
    end in
  let filtered :=
    match opt_startDate options with
    | Some d => filter (fun s => date_ge (timestamp s) d) filtered
    | None => filtered
    end in
  let filtered :=
    match opt_endDate options with
    | Some d => filter (fun s => date_le (timestamp s) d) filtered
    | None => filtered
    end in
  sort_newest_first timestamp filtered.

Definition getSubmissions (options : Options) (db : Database) : list AmpFormSubmission :=
  let filtered := select options db in
  let offset := or_default (opt_offset options) 0 in
  let limit := or_default (opt_limit options) 100 in
  slice offset (offset + limit) filtered.

(** [{...options, limit: 10000}] for options without an offset. *)
Definition exportSubmissions (wanted : option string) (startDate endDate : option Number)
    (db : Database) : list AmpFormSubmission :=
  getSubmissions (mkOptions (Some (Num 10000)) None wanted startDate endDate) db.

(** [this.submissions.find(s => s.id === id) || null] *)
Definition getSubmissionById (k : string) (db : Database) : option AmpFormSubmission :=
  find (fun s => String.eqb (id s) k) db.

(** [cleanupOldSubmissions(daysOld)].  [days_before now d] is the time
    value of the date [d] days before [now] on the local calendar, as
    [setDate(getDate() - d)] computes it ([NaN] when the date falls
    outside the range of [Date]); [setDate(NaN)] makes the date invalid.
    The result is the number of submissions deleted. *)
Definition cutoffDate (days_before : Z -> Z -> Number) (now : Z) (daysOld : Number)
    : Number :=
  match daysOld with
  | NaN => NaN
  | Num d => days_before now d
  end.

Definition cleanupOldSubmissions (days_before : Z -> Z -> Number) (now : Z) (daysOld : Number)
    (db : Database) : Z * Database :=
  let cutoff := cutoffDate days_before now daysOld in
  let initialCount := Z.of_nat (List.length db) in
  let db := filter (fun s => date_ge (timestamp s) cutoff) db in
  let deletedCount := initialCount - Z.of_nat (List.length db) in
  (deletedCount, db).

(** The route [POST /api/cleanup]: [const { daysOld = 30 } = req.body],
    then [cleanupOldSubmissions(parseInt(daysOld))].  [None] is a body
    without the field, [Some text] the field as the text that [parseInt]
    reads. *)
Definition cleanup_route (days_before : Z -> Z -> Number) (now : Z) (daysOld : option string)
    (db : Database) : Z * Database :=
  let text := match daysOld with Some t => t | None => "30" end in
  cleanupOldSubmissions days_before now (parseInt text) db.

(** [[...new Set(values)]]: the first occurrence of each value, in order. *)
Fixpoint distinct (seen values : list string) : list string :=
  match values with
  | [] => []
  | v :: rest =>
      if existsb (String.eqb v) seen then distinct seen rest
      else v :: distinct (v :: seen) rest
  end.

Record AdminStats : Type := mkAdminStats {
  totalSubmissions : Z;
  todaySubmissions : Z;
  weekSubmissions : Z;
  monthSubmissions : Z;
  formTypes : list (string * Z);
  recentSubmissions : list AmpFormSubmission
}.

Definition count_since (t : Z) (db : Database) : Z :=
  Z.of_nat (List.length (filter (fun s => t <=? timestamp s) db)).

Definition count_form (wanted : string) (db : Database) : Z :=
  Z.of_nat (List.length
              (filter (fun s => String.eqb (formStructure_formId (metadata s)) wanted) db)).

(** [getAdminStats].  [today] and [thisMonth] are the time values of the
    local midnight of today and of the first of the month.
    [this.submissions.sort(...)] sorts the stored array itself. *)
Definition getAdminStats (today thisMonth : Z) (db : Database) : AdminStats * Database :=
  let thisWeek := today - 7 * 24 * 60 * 60 * 1000 in
  let formIds := distinct [] (map (fun s => formStructure_formId (metadata s)) db) in
  let formTypeStats := map (fun wanted => (wanted, count_form wanted db)) formIds in
  let sorted := sort_newest_first timestamp db in
  (mkAdminStats (Z.of_nat (List.length db)) (count_since today db) (count_since thisWeek db)
     (count_since thisMonth db) formTypeStats (slice 0 10 sorted),
   sorted).

(** The sum of the counts of a distribution. *)
Definition sum_counts (distribution : list (string * Z)) : Z :=
  fold_right (fun entry acc => snd entry + acc) 0 distribution.

Definition form_of (s : AmpFormSubmission) : string := formStructure_formId (metadata s).

End DatabaseService.

Module DatabaseExamples.

Import JS WebhookService DatabaseService.

Definition a_day : Z := 24 * 60 * 60 * 1000.

(** A calendar without clock changes. *)
Definition plain_days (now d : Z) : Number := Num (now - d * a_day).

Definition two_stored : Database :=
  [QueryExamples.submission_at "old" 1000; QueryExamples.submission_at "new" (100 * a_day)].

End DatabaseExamples.

(** ** The CSV export of the admin routes

    [convertToCSV] from the point where every cell value has been turned
    into the text [str = String(value || '')]: a row is the list of these
    texts, the header is the list of column names. *)

Module AdminCsv.

Definition comma : ascii := ","%char.
Definition quote_mark : ascii := "034"%char.
Definition line_feed : ascii := "010"%char.

(** [str.includes(c)] for a one-character text. *)
Fixpoint has_char (c : ascii) (s : string) : bool :=
  match s with
  | EmptyString => false
  | String x rest => Ascii.eqb x c || has_char c rest
  end.

(** [str.replace] of every quotation mark by two of them. *)
Fixpoint double_quotes (s : string) : string :=
  match s with
  | EmptyString => EmptyString
  | String x rest =>
      if Ascii.eqb x quote_mark
      then String quote_mark (String quote_mark (double_quotes rest))
      else String x (double_quotes rest)
  end.

(** The body of [row.map(value => ...)] after [str] has been computed. *)
Definition escape_value (str : string) : string :=
  if has_char comma str || has_char quote_mark str || has_char line_feed str
  then String quote_mark (double_quotes str +++ String quote_mark EmptyString)
  else str.

(** [row.map(...).join(',')] *)
Definition csv_row (row : list string) : string :=
  String.concat (String comma EmptyString) (map escape_value row).

(** [[headers.join(','), ...rows].join('\n')] *)
Definition csv_text (headers : list string) (rows : list (list string)) : string :=
  String.concat (String line_feed EmptyString)
    (String.concat (String comma EmptyString) headers :: map csv_row rows).

(** [convertToCSV] for an array that is not empty; for the empty array
    the text is [No submissions found]. *)
Definition convertToCSV (headers : list string) (rows : list (list string)) : string :=
  match rows with
  | [] => "No submissions found"
  | _ => csv_text headers rows
  end.

(** *** A reader of comma-separated values

    Records end at a line feed, cells at a comma; a cell that opens with
    a quotation mark runs to the closing one, with a doubled quotation
    mark standing for one. *)
Inductive Mode : Type := CellStart | Plain | Quoted | AfterQuote.

Definition add_char (c : ascii) (records : list (list string)) : list (list string) :=
  match records with
  | (cell :: cells) :: rest => (String c cell :: cells) :: rest
  | [] :: rest => [String c EmptyString] :: rest
  | [] => [[String c EmptyString]]
  end.

Definition new_cell (records : list (list string)) : list (list string) :=
  match records with
  | cells :: rest => (EmptyString :: cells) :: rest
  | [] => [[EmptyString]]
  end.

Definition new_record (records : list (list string)) : list (list string) :=
  [EmptyString] :: records.

Fixpoint read (mode : Mode) (s : string) : list (list string) :=
  match s with
  | EmptyString => [[EmptyString]]
  | String c rest =>
      match mode with
      | Quoted =>
          if Ascii.eqb c quote_mark then read AfterQuote rest
          else add_char c (read Quoted rest)
      | AfterQuote =>
          if Ascii.eqb c quote_mark then add_char c (read Quoted rest)
          else if Ascii.eqb c comma then new_cell (read CellStart rest)
          else if Ascii.eqb c line_feed then new_record (read CellStart rest)
          else add_char c (read Plain rest)
      | CellStart =>
          if Ascii.eqb c quote_mark then read Quoted rest
          else if Ascii.eqb c comma then new_cell (read CellStart rest)
          else if Ascii.eqb c line_feed then new_record (read CellStart rest)
          else add_char c (read Plain rest)
      | Plain =>
          if Ascii.eqb c comma then new_cell (read CellStart rest)
          else if Ascii.eqb c line_feed then new_record (read CellStart rest)
          else add_char c (read Plain rest)
      end
  end.

Definition read_csv (text : string) : list (list string) := read CellStart text.

(** A text without comma, quotation mark and line feed. *)
Definition plain_text (s : string) : bool :=
  negb (has_char comma s || has_char quote_mark s || has_char line_feed s).

(** The text ends here or goes on with a comma or a line feed. *)
Definition at_boundary (s : string) : bool :=
  match s with
  | EmptyString => true
  | String c _ => Ascii.eqb c comma || Ascii.eqb c line_feed
  end.

(** The characters of [str] put in front of the cell being read. *)
Fixpoint prepend (str : string) (records : list (list string)) : list (list string) :=
  match str with
  | EmptyString => records
  | String c rest => add_char c (prepend rest records)
  end.

(** What follows a record: nothing, or a line feed and further records. *)
Definition record_end (tail : string) : bool :=
  match tail with
  | EmptyString => true
  | String c _ => Ascii.eqb c line_feed
  end.

Definition further_records (tail : string) : list (list string) :=
  match tail with
  | EmptyString => []
  | String _ more => read CellStart more
  end.

End AdminCsv.

(** * Properties *)

(** ** The key codec *)

Module CodecFacts.

Import AmpValidatorCodec DERReader.

Lemma to_int32_small (x : Z) : - 2 ^ 31 <= x < 2 ^ 31 -> to_int32 x = x.
Proof.
  intros H. unfold to_int32. rewrite Z.mod_small; lia.
Qed.

Lemma js_shr_8 (t : Z) : 0 <= t < 2 ^ 31 -> js_shr t 8 = t / 256.
Proof.
  intros H. unfold js_shr. rewrite to_int32_small by lia.
  now rewrite Z.shiftr_div_pow2 by lia.
Qed.

Lemma js_and_255 (t : Z) : 0 <= t < 2 ^ 31 -> js_and t 255 = t mod 256.
Proof.
  intros H. unfold js_and. rewrite (to_int32_small t) by lia.
  change (to_int32 255) with (Z.ones 8).
  now rewrite Z.land_ones by lia.
Qed.

Lemma loop_step (fuel : nat) (t : Z) (acc : list Z) :
  0 < t < 2 ^ 31 ->
  encodeLength_loop (S fuel) t acc = encodeLength_loop fuel (t / 256) (t mod 256 :: acc).
Proof.
  intros H. cbn [encodeLength_loop].
  replace (t >? 0) with true by gtb_true.
  now rewrite js_shr_8, js_and_255 by lia.
Qed.

Lemma loop_stop (fuel : nat) (t : Z) (acc : list Z) :
  t <= 0 -> encodeLength_loop fuel t acc = acc.
Proof.
  intros H. destruct fuel; cbn [encodeLength_loop]; [reflexivity|].
  now replace (t >? 0) with false by gtb_false.
Qed.

(** The loop has left by the fifth test, whatever it was started on. *)
Lemma encodeLength_loop_fuel (extra : nat) (temp : Z) (acc : list Z) :
  encodeLength_loop (5 + extra) temp acc = encodeLength_loop 5 temp acc.
Proof.
  assert (R : forall x, - 2 ^ 31 <= to_int32 x < 2 ^ 31).
  { intros x. unfold to_int32.
    pose proof (Z.mod_pos_bound (x + 2 ^ 31) (2 ^ 32) ltac:(lia)). lia. }
  assert (S1 : forall x, js_shr x 8 < 2 ^ 23).
  { intros x. unfold js_shr. rewrite Z.shiftr_div_pow2 by lia.
    specialize (R x). apply Z.div_lt_upper_bound; lia. }
  assert (S2 : forall k x, 0 < x < 2 ^ (k + 8) -> 0 <= k -> k + 8 <= 31 ->
                           0 <= js_shr x 8 < 2 ^ k).
  { intros k x Hx Hk Hk'.
    assert (2 ^ (k + 8) <= 2 ^ 31) by (apply Z.pow_le_mono_r; lia).
    rewrite js_shr_8 by lia. rewrite Z.pow_add_r in Hx by lia.
    split; [apply Z.div_pos; lia | apply Z.div_lt_upper_bound; lia]. }
  change (5 + extra)%nat with (S (S (S (S (S extra))))).
  cbn [encodeLength_loop].
  destruct (temp >? 0) eqn:E0; [|reflexivity].
  pose proof (S1 temp) as B1.
  destruct (js_shr temp 8 >? 0) eqn:E1; [|reflexivity].
  apply Z.gtb_lt in E1.
  pose proof (S2 15 (js_shr temp 8) ltac:(change (15 + 8) with 23; lia) ltac:(lia) ltac:(lia)) as B2.
  destruct (js_shr (js_shr temp 8) 8 >? 0) eqn:E2; [|reflexivity].
  apply Z.gtb_lt in E2.
  pose proof (S2 7 (js_shr (js_shr temp 8) 8) ltac:(change (7 + 8) with 15; lia) ltac:(lia) ltac:(lia)) as B3.
  destruct (js_shr (js_shr (js_shr temp 8) 8) 8 >? 0) eqn:E3; [|reflexivity].
  apply Z.gtb_lt in E3.
  assert (B4 : js_shr (js_shr (js_shr (js_shr temp 8) 8) 8) 8 = 0).
  { rewrite (js_shr_8 (js_shr (js_shr (js_shr temp 8) 8) 8)) by lia.
    apply Z.div_small. change (2 ^ 7) with 128 in B3. lia. }
  rewrite B4. reflexivity.
Qed.

(** The octets written for each range of lengths. *)
Lemma encodeLength_cases (len : Z) :
  0 <= len < 2 ^ 31 ->
  encodeLength len =
    if len <? 128 then [len]
    else if len <? 256 then [129; len]
    else if len <? 65536 then [130; len / 256; len mod 256]
    else if len <? 16777216 then [131; len / 65536; len / 256 mod 256; len mod 256]
    else [132; len / 16777216; len / 65536 mod 256; len / 256 mod 256; len mod 256].
Proof.
  intros H. unfold encodeLength.
  destruct (len <? 128) eqn:E; [apply Z.ltb_lt in E; unfold byte_of; rewrite Z.mod_small; [reflexivity|lia]|].
  apply Z.ltb_ge in E.
  assert (D1 : 0 <= len / 256 < 2 ^ 23)
    by (split; [apply Z.div_pos; lia | apply Z.div_lt_upper_bound; lia]).
  assert (M : forall x, byte_of (x mod 256) = x mod 256)
    by (intros x; unfold byte_of; apply Z.mod_mod; lia).
  rewrite loop_step by lia.
  destruct (len <? 256) eqn:E1.
  { apply Z.ltb_lt in E1. rewrite loop_stop by (rewrite Z.div_small; lia).
    cbn. rewrite M. rewrite (Z.mod_small len) by lia. reflexivity. }
  apply Z.ltb_ge in E1.
  assert (0 < len / 256) by (apply Z.div_str_pos; lia).
  rewrite loop_step by lia.
  rewrite Z.div_div by lia. change (256 * 256) with 65536.
  destruct (len <? 65536) eqn:E2.
  { apply Z.ltb_lt in E2. rewrite loop_stop by (rewrite Z.div_small; lia).
    cbn. rewrite !M. rewrite (Z.mod_small (len / 256)); [reflexivity|].
    split; [lia | apply Z.div_lt_upper_bound; lia]. }
  apply Z.ltb_ge in E2.
  assert (0 < len / 65536 < 2 ^ 15)
    by (split; [apply Z.div_str_pos; lia | apply Z.div_lt_upper_bound; lia]).
  rewrite loop_step by lia.
  rewrite Z.div_div by lia. change (65536 * 256) with 16777216.
  destruct (len <? 16777216) eqn:E3.
  { apply Z.ltb_lt in E3. rewrite loop_stop by (rewrite Z.div_small; lia).
    cbn. rewrite !M. rewrite (Z.mod_small (len / 65536)); [reflexivity|].
    split; [lia | apply Z.div_lt_upper_bound; lia]. }
  apply Z.ltb_ge in E3.
  assert (0 < len / 16777216 < 128)
    by (split; [apply Z.div_str_pos; lia | apply Z.div_lt_upper_bound; lia]).
  rewrite loop_step by lia.
  rewrite Z.div_div by lia. change (16777216 * 256) with 4294967296.
  rewrite loop_stop by (rewrite Z.div_small; lia).
  cbn. rewrite !M. rewrite (Z.mod_small (len / 16777216)) by lia. reflexivity.
Qed.

Lemma is_octet_spec (b : Z) : is_octet b = true <-> is_byte b.
Proof.
  unfold is_octet, is_byte. rewrite andb_true_iff, Z.leb_le, Z.ltb_lt. tauto.
Qed.

(** The long form as the reader takes it. *)
Lemma der_long_form (digits : list Z) :
  0 < Z.of_nat (List.length digits) < 127 ->
  forallb is_octet digits = true ->
  0 < hd 0 digits ->
  128 <= be_value digits ->
  der_length_decode ((128 + Z.of_nat (List.length digits)) :: digits)
  = Some (be_value digits).
Proof.
  intros K F H V. unfold der_length_decode. cbn [forallb].
  replace (is_octet (128 + Z.of_nat (List.length digits))) with true
    by (symmetry; apply is_octet_spec; unfold is_byte; lia).
  rewrite F. cbn [andb negb].
  replace (128 + Z.of_nat (List.length digits) <? 128) with false
    by (symmetry; apply Z.ltb_ge; lia).
  replace (128 + Z.of_nat (List.length digits) - 128 =? Z.of_nat (List.length digits))
    with true by (symmetry; apply Z.eqb_eq; lia).
  replace (0 <? Z.of_nat (List.length digits)) with true by (symmetry; apply Z.ltb_lt; lia).
  replace (0 <? hd 0 digits) with true by (symmetry; apply Z.ltb_lt; lia).
  replace (128 <=? be_value digits) with true by (symmetry; apply Z.leb_le; lia).
  reflexivity.
Qed.

Ltac octet := apply is_octet_spec; unfold is_byte; Z.div_mod_to_equations; lia.
Ltac octets :=
  cbn [forallb]; repeat (apply andb_true_intro; split; [octet|]); reflexivity.

(** A DER reader recovers the length from the octets of [encodeLength]. *)
Lemma encodeLength_decodes (len : Z) :
  0 <= len < 2 ^ 31 -> der_length_decode (encodeLength len) = Some len.
Proof.
  intros H. rewrite encodeLength_cases by assumption.
  destruct (len <? 128) eqn:E.
  { unfold der_length_decode. cbn [forallb].
    replace (is_octet len) with true
      by (symmetry; apply is_octet_spec; apply Z.ltb_lt in E; unfold is_byte; lia).
    cbn [andb negb]. now rewrite E. }
  apply Z.ltb_ge in E.
  destruct (len <? 256) eqn:E1;
    [apply Z.ltb_lt in E1
    |apply Z.ltb_ge in E1; destruct (len <? 65536) eqn:E2;
     [apply Z.ltb_lt in E2
     |apply Z.ltb_ge in E2; destruct (len <? 16777216) eqn:E3;
      [apply Z.ltb_lt in E3 | apply Z.ltb_ge in E3]]].
  - change 129 with (128 + Z.of_nat (List.length [len])).
    rewrite der_long_form; cbn [List.length hd be_value fold_left];
      [f_equal; lia | lia | octets | lia | lia].
  - change 130 with (128 + Z.of_nat (List.length [len / 256; len mod 256])).
    rewrite der_long_form; cbn [List.length hd be_value fold_left];
      [f_equal | lia | octets | | ]; Z.div_mod_to_equations; lia.
  - change 131
      with (128 + Z.of_nat (List.length [len / 65536; len / 256 mod 256; len mod 256])).
    rewrite der_long_form; cbn [List.length hd be_value fold_left];
      [f_equal | lia | octets | | ]; Z.div_mod_to_equations; lia.
  - change 132
      with (128 + Z.of_nat (List.length
              [len / 16777216; len / 65536 mod 256; len / 256 mod 256; len mod 256])).
    rewrite der_long_form; cbn [List.length hd be_value fold_left];
      [f_equal | lia | octets | | ]; Z.div_mod_to_equations; lia.
Qed.

Lemma high_bit_iff (b : Z) : is_byte b -> Z.testbit b 7 = (b >=? 128).
Proof.
  intros [H0 H1].
  destruct (b >=? 128) eqn:E.
  - apply Z.geb_le in E. apply Z.testbit_true; [lia|].
    change (2 ^ 7) with 128.
    assert (b / 128 = 1); [|now replace (b / 128) with 1].
    symmetry. apply (Z.div_unique b 128 1 (b - 128)); lia.
  - assert (b < 128) by (rewrite Z.geb_leb in E; apply Z.leb_gt in E; lia).
    apply Z.testbit_false; [lia|].
    change (2 ^ 7) with 128. now rewrite Z.div_small by lia.
Qed.

Lemma byte_of_is_byte (x : Z) : is_byte (byte_of x).
Proof. unfold is_byte, byte_of. apply Z.mod_pos_bound. lia. Qed.

Lemma map_byte_of_bytes (l : list Z) : Forall is_byte (map byte_of l).
Proof. induction l; constructor; [apply byte_of_is_byte | assumption]. Qed.

(** Whatever the length, [encodeLength] writes octets. *)
Lemma encodeLength_bytes (len : Z) : Forall is_byte (encodeLength len).
Proof.
  unfold encodeLength. destruct (len <? 128).
  - constructor; [apply byte_of_is_byte | constructor].
  - constructor; [apply byte_of_is_byte | apply map_byte_of_bytes].
Qed.

(** C2.  For a non-empty byte string [first :: rest], the INTEGER written
    by [createASN1Integer] is the tag 0x02, the octets of [encodeLength]
    for the length of the padded value, and then the value with exactly one
    zero byte in front when [first] is 0x80 or greater, that is, when its
    high bit is set, and the value itself otherwise.  Below [2^31] bytes
    the length octets are those of DER, spelled out here: the length
    itself below 128, otherwise [0x80 + k] and the [k] octets of the
    length, most significant first and without a leading zero; each is an
    octet, and a DER reader that refuses non-octets and longer forms
    decodes them back to the length of the padded value. *)
Theorem createASN1Integer_encoding (first : Z) (rest : Buffer) :
  is_byte first ->
  let value := first :: rest in
  let padded := if first >=? 128 then 0 :: value else value in
  let L := buffer_length padded in
  let lengthOctets :=
    if L <? 128 then [L]
    else if L <? 256 then [129; L]
    else if L <? 65536 then [130; L / 256; L mod 256]
    else if L <? 16777216 then [131; L / 65536; L / 256 mod 256; L mod 256]
    else [132; L / 16777216; L / 65536 mod 256; L / 256 mod 256; L mod 256] in
  createASN1Integer value = [2] ++ encodeLength L ++ padded
  /\ (Z.testbit first 7 = true -> padded = 0 :: first :: rest)
  /\ (Z.testbit first 7 = false -> padded = first :: rest)
  /\ (L < 2 ^ 31 ->
      createASN1Integer value = [2] ++ lengthOctets ++ padded
      /\ Forall is_byte lengthOctets
      /\ der_length_decode lengthOctets = Some L
      /\ (Forall is_byte rest -> Forall is_byte (createASN1Integer value))).
Proof.
  intros Hb value padded L lengthOctets.
  assert (C : createASN1Integer value = [2] ++ encodeLength L ++ padded).
  { subst L padded value. unfold createASN1Integer. destruct (first >=? 128); reflexivity. }
  split; [exact C|]. split; [|split].
  - intros T. subst padded. rewrite (high_bit_iff _ Hb) in T. now rewrite T.
  - intros T. subst padded. rewrite (high_bit_iff _ Hb) in T. now rewrite T.
  - intros B.
    assert (R : 0 <= L < 2 ^ 31) by (subst L; unfold buffer_length in *; lia).
    assert (E : encodeLength L = lengthOctets) by (now apply encodeLength_cases).
    rewrite <- E. split; [exact C|]. split; [apply encodeLength_bytes|].
    split; [now apply encodeLength_decodes|].
    intros F. rewrite C. constructor; [unfold is_byte; lia|].
    apply Forall_app. split; [apply encodeLength_bytes|].
    subst padded value. destruct (first >=? 128).
    + constructor; [unfold is_byte; lia|]. now constructor.
    + now constructor.
Qed.

(** A modulus that starts with 0x80 and one that starts with 0x7f. *)
Lemma createASN1Integer_encoding_witness :
  is_byte 128
  /\ createASN1Integer [128; 1] = [2; 3; 0; 128; 1]
  /\ createASN1Integer [127; 1] = [2; 2; 127; 1].
Proof.
  split; [unfold is_byte; lia|]. split.
  - destruct (createASN1Integer_encoding 128 [1]) as [H _].
    + unfold is_byte; lia.
    + exact H.
  - destruct (createASN1Integer_encoding 127 [1]) as [H _].
    + unfold is_byte; lia.
    + exact H.
Defined.

End CodecFacts.

(** ** The validator *)

Module ValidatorFacts.

Import AmpValidatorCodec JS AmpValidator Vocabulary.

Lemma bad_signature_format_spec (signature : option string) :
  bad_signature_format signature = true <->
  (signature = None \/ exists s, signature = Some s /\ String.prefix "rsa-sha256=" s = false).
Proof.
  destruct signature as [s|]; cbn.
  - split.
    + intros H. right. exists s. split; [reflexivity|].
      destruct s; [reflexivity|]. cbn [String.eqb orb] in H.
      now apply negb_true_iff in H.
    + intros [H|[s' [E P]]]; [discriminate|]. injection E as <-.
      rewrite P. apply orb_true_r.
  - split; [now left | reflexivity].
Qed.

Lemma well_formed_signature (s : string) :
  String.prefix "rsa-sha256=" s = true -> bad_signature_format (Some s) = false.
Proof.
  intros P. cbn. rewrite P. destruct s; [discriminate P | reflexivity].
Qed.

(** C7.  A signature header that is absent, or that does not start with
    [rsa-sha256=], is answered with the format error, and the state of the
    system is the one before the call: the clock was not read, no fetch
    was issued, the key map was neither refreshed nor walked, and the RSA
    primitive was not called. *)
Theorem format_error_before_any_key_work
    (w : World) (body timestamp : string) (signature : option string) (st : Sys) :
  (signature = None \/ exists s, signature = Some s /\ String.prefix "rsa-sha256=" s = false) ->
  validateSignature w body signature timestamp st = (format_error, st)
  /\ validate_begin w signature timestamp st = (Finished format_error, st).
Proof.
  intros H. apply bad_signature_format_spec in H.
  unfold validateSignature, validate_begin. rewrite H. split; reflexivity.
Qed.

Lemma validateSignature_unfold (w : World) (body timestamp s : string) (st : Sys) :
  String.prefix "rsa-sha256=" s = true ->
  validateSignature w body (Some s) timestamp st =
    let now := clock w (clockReads st) in
    let st1 := snd (Date_now w st) in
    let timeDiff := num_abs_diff now (num_mul (parseInt timestamp) 1000) in
    if num_gt timeDiff maxTimeDiff then (timestamp_error timeDiff, st1)
    else key_lookup_and_verification w body timestamp (base64_decode (string_drop 11 s)) st1.
Proof.
  intros P. unfold validateSignature, validate_begin.
  rewrite (well_formed_signature s P). cbn [Date_now snd].
  destruct (num_gt _ maxTimeDiff); [reflexivity|].
  unfold key_lookup_and_verification, ensurePublicKeys.
  destruct (ensure_begin w _) as [[|now reply] st2]; cbn [validate_complete]; [reflexivity|].
  destruct (ensure_finish now reply st2) as [[u|m] st3]; reflexivity.
Qed.

(** C6.  With a well-formed signature header, a timestamp that parses to
    the number [v] of seconds and is more than five minutes away from the
    clock is answered with the timestamp error.  Nothing but the clock was
    touched: the RSA primitive and the key cache play no part, so the
    answer is the same whether or not the signature would verify.  The
    message is the text of the timestamp error around some text for the
    difference; that text holds the digits of the exact difference when
    the clock and the timestamp in milliseconds are below [2^52], where
    the arithmetic of the code is exact. *)
Theorem stale_timestamp_rejected
    (w : World) (body timestamp s : string) (v : Z) (st : Sys) :
  String.prefix "rsa-sha256=" s = true ->
  parseInt timestamp = Num v ->
  Z.abs (clock w (clockReads st) - v * 1000) > 5 * 60 * 1000 ->
  (exists difference : string,
     validateSignature w body (Some s) timestamp st =
       (rejected ("Timestamp too old. Difference: " +++ difference
                  +++ "ms, Max allowed: 300000ms"),
        mkSys (publicKeys st) (lastKeyFetch st) (S (clockReads st)) (fetchCount st)
          (events st)))
  /\ (0 <= clock w (clockReads st) < 2 ^ 52 -> Z.abs (v * 1000) < 2 ^ 52 ->
      fst (validateSignature w body (Some s) timestamp st)
      = rejected ("Timestamp too old. Difference: "
                  +++ Z_to_string (Z.abs (clock w (clockReads st) - v * 1000))
                  +++ "ms, Max allowed: 300000ms")).
Proof.
  intros P V D. rewrite validateSignature_unfold by assumption.
  rewrite V. cbn [num_mul num_abs_diff num_gt Date_now snd].
  replace (_ >? maxTimeDiff) with true
    by (symmetry; apply Z.gtb_lt; unfold maxTimeDiff; lia).
  split; [eexists; reflexivity|]. intros _ _. reflexivity.
Qed.

Lemma verify_loop_result (w : World) (message : string) (sb : Buffer)
    (keys : list (string * string)) (st : Sys) :
  fst (verify_loop w message sb keys st) = verification_failed
  \/ exists keyId, fst (verify_loop w message sb keys st) = mkValidation true (Some keyId) None.
Proof.
  revert st. induction keys as [|[keyId key] rest IH]; intros st; cbn [verify_loop].
  - now left.
  - destruct (rsa_verify w key message sb) as [[|]|m].
    + right. now exists keyId.
    + apply IH.
    + apply IH.
Qed.

Lemma key_lookup_and_verification_result (w : World) (body timestamp : string)
    (sb : Buffer) (st : Sys) :
  let r := fst (key_lookup_and_verification w body timestamp sb st) in
  r = verification_failed
  \/ (exists keyId, r = mkValidation true (Some keyId) None)
  \/ (exists message, r = validation_error message).
Proof.
  unfold key_lookup_and_verification.
  destruct (ensurePublicKeys w st) as [[u|m] st1].
  - unfold verify_phase.
    destruct (verify_loop_result w (timestamp +++ body) sb (publicKeys st1) st1) as [H|H];
      [left | right; left]; exact H.
  - right; right. now exists m.
Qed.

(** C9.  With a well-formed signature header, a timestamp for which
    [parseInt] gives [NaN] passes the freshness check: after the clock
    read, the call goes on to the key lookup and the signature check, its
    answer is theirs, and it is never the timestamp error. *)
Theorem nan_timestamp_passes_freshness
    (w : World) (body timestamp s : string) (st : Sys) :
  String.prefix "rsa-sha256=" s = true ->
  parseInt timestamp = NaN ->
  validateSignature w body (Some s) timestamp st =
    key_lookup_and_verification w body timestamp (base64_decode (string_drop 11 s))
      (snd (Date_now w st))
  /\ forall timeDiff,
       fst (validateSignature w body (Some s) timestamp st) <> timestamp_error timeDiff.
Proof.
  intros P V. rewrite validateSignature_unfold by assumption.
  rewrite V. cbn [num_mul num_abs_diff num_gt]. split; [reflexivity|]. intros d.
  cbv zeta.
  destruct (key_lookup_and_verification_result w body timestamp
              (base64_decode (string_drop 11 s)) (snd (Date_now w st))) as [H|[[k H]|[m H]]];
    cbv zeta in H; rewrite H; unfold timestamp_error, verification_failed, validation_error,
      rejected; cbn; discriminate.
Qed.

(** An unparseable timestamp with a verifying signature is accepted. *)
Lemma nan_timestamp_passes_freshness_witness :
  String.prefix "rsa-sha256=" "rsa-sha256=AAAA" = true
  /\ parseInt "soon" = NaN
  /\ fst (validateSignature Examples.accepting_world "{}" (Some "rsa-sha256=AAAA") "soon"
            Examples.cached) = mkValidation true (Some "k1") None.
Proof.
  split; [reflexivity|]. split; [reflexivity|].
  destruct (nan_timestamp_passes_freshness Examples.accepting_world "{}" "soon"
              "rsa-sha256=AAAA" Examples.cached) as [E _].
  - reflexivity.
  - reflexivity.
  - rewrite E. vm_compute. reflexivity.
Defined.

Lemma format_error_before_any_key_work_witness :
  (@None string = None \/ exists s, @None string = Some s /\ String.prefix "rsa-sha256=" s = false)
  /\ validateSignature Examples.accepting_world "{}" None "1700000000" Examples.no_keys
     = (format_error, Examples.no_keys)
  /\ validateSignature Examples.accepting_world "{}" (Some "sha1=AAAA") "1700000000"
       Examples.no_keys
     = (format_error, Examples.no_keys).
Proof.
  split; [now left|]. split.
  - apply (format_error_before_any_key_work Examples.accepting_world "{}" "1700000000" None
             Examples.no_keys). now left.
  - apply (format_error_before_any_key_work Examples.accepting_world "{}" "1700000000"
             (Some "sha1=AAAA") Examples.no_keys).
    right. exists "sha1=AAAA". split; reflexivity.
Defined.

(** Six minutes late, with a key in the cache that would accept. *)
Lemma stale_timestamp_rejected_witness :
  String.prefix "rsa-sha256=" "rsa-sha256=AAAA" = true
  /\ parseInt "1699999640" = Num 1699999640
  /\ fst (validateSignature Examples.accepting_world "{}" (Some "rsa-sha256=AAAA")
            "1699999640" Examples.cached)
     = rejected "Timestamp too old. Difference: 360000ms, Max allowed: 300000ms"
  /\ fst (validateSignature Examples.accepting_world "{}" (Some "rsa-sha256=AAAA")
            "1700000000" Examples.cached)
     = mkValidation true (Some "k1") None.
Proof.
  split; [reflexivity|]. split; [reflexivity|]. split.
  - destruct (stale_timestamp_rejected Examples.accepting_world "{}" "1699999640"
                "rsa-sha256=AAAA" 1699999640 Examples.cached) as [_ D].
    + reflexivity.
    + reflexivity.
    + vm_compute. reflexivity.
    + rewrite D; [reflexivity | vm_compute; split; [discriminate | reflexivity]
                 | vm_compute; reflexivity].
  - vm_compute. reflexivity.
Defined.

(** *** The codec inside a key refresh *)

Lemma map_get_set {V : Type} (k : string) (v : V) (m : list (string * V)) :
  map_get k (map_set k v m) = Some v.
Proof.
  induction m as [|[k' v'] rest IH]; cbn [map_set map_get].
  - now rewrite String.eqb_refl.
  - destruct (String.eqb_spec k' k) as [E|E]; cbn [map_get].
    + now rewrite String.eqb_refl.
    + apply String.eqb_neq in E. now rewrite E.
Qed.

(** A descriptor with an empty [kid], [n] or [e] text is skipped before
    the codec is reached. *)
Lemma add_key_skips_empty_text (keyData : KeyData) (st : Sys) :
  kid keyData = "" \/ jwk_n keyData = "" \/ jwk_e keyData = "" ->
  add_key keyData st = st.
Proof.
  intros H. unfold add_key. cbn [text_jwk jwk_kid n_field e_field field_truthy].
  replace (_ && _ && _) with false; [reflexivity|].
  symmetry. destruct H as [H|[H|H]]; rewrite H; cbn.
  - reflexivity.
  - now rewrite andb_false_r.
  - apply andb_false_r.
Qed.

(** The codec called on an empty modulus returns a key. *)
Lemma codec_accepts_empty_modulus :
  createASN1Integer [] = [2; 0]
  /\ createRSAPublicKeyDER [] [1; 0; 1]
     = [48; 27; 48; 13; 6; 9; 42; 134; 72; 134; 247; 13; 1; 1; 1; 5; 0;
        3; 10; 0; 48; 7; 2; 0; 2; 3; 1; 0; 1]
  /\ KeyMaterialCodec [] [1; 0; 1]
     = Returned (pem_of_der (createRSAPublicKeyDER [] [1; 0; 1]))
  /\ ~ (forall n e, n = [] \/ e = [] -> exists message, KeyMaterialCodec n e = Thrown message).
Proof.
  split; [reflexivity|]. split; [vm_compute; reflexivity|]. split; [reflexivity|].
  intros H. destruct (H [] [1; 0; 1]) as [message E]; [now left|]. discriminate E.
Qed.

(** C5.  The codec has no rejecting path.  A descriptor whose [kid], [n]
    and [e] texts are not empty is encoded whatever bytes its texts decode
    to, the empty byte string included, and the key is stored under its
    [kid]; an empty byte string is written as the INTEGER [02 00]. *)
Theorem codec_never_rejects (keyData : KeyData) (st : Sys) :
  kid keyData <> "" -> jwk_n keyData <> "" -> jwk_e keyData <> "" ->
  let n := base64_decode (jwk_n keyData) in
  let e := base64_decode (jwk_e keyData) in
  KeyMaterialCodec n e = Returned (pem_of_der (createRSAPublicKeyDER n e))
  /\ jwkToPem keyData = Returned (pem_of_der (createRSAPublicKeyDER n e))
  /\ map_get (kid keyData) (publicKeys (add_key keyData st))
     = Some (pem_of_der (createRSAPublicKeyDER n e))
  /\ (n = [] -> createASN1Integer n = [2; 0])
  /\ (e = [] -> createASN1Integer e = [2; 0]).
Proof.
  intros K N E n e.
  split; [reflexivity|]. split; [reflexivity|]. split.
  - unfold add_key. cbn [text_jwk jwk_kid n_field e_field field_truthy].
    apply String.eqb_neq in K, N, E. rewrite K, N, E. cbn [negb andb].
    unfold jwkToPem, KeyMaterialCodec.
    cbn [text_jwk n_field e_field Buffer_from emit set_keys publicKeys].
    apply map_get_set.
  - split; intros ->; reflexivity.
Qed.

(** The text [=] is not empty and decodes to the empty byte string. *)
Lemma codec_never_rejects_witness :
  base64_decode "=" = []
  /\ map_get "k1"
       (publicKeys (add_key (mkKeyData "k1" "=" "AQAB") Examples.no_keys))
     = Some (pem_of_der (createRSAPublicKeyDER [] [1; 0; 1])).
Proof.
  split; [reflexivity|].
  destruct (codec_never_rejects (mkKeyData "k1" "=" "AQAB") Examples.no_keys)
    as (_ & _ & G & _); [discriminate | discriminate | discriminate |].
  exact G.
Defined.

(** *** The empty key map *)

(** When the fetch fails and no key is held, the call ends in the outer
    [catch] with the message of [ensurePublicKeys]. *)
Lemma fetch_failure_without_keys (w : World) (body timestamp s : string) (v : Z)
    (st : Sys) (message : string) :
  String.prefix "rsa-sha256=" s = true ->
  parseInt timestamp = Num v ->
  Z.abs (clock w (clockReads st) - v * 1000) <= 5 * 60 * 1000 ->
  publicKeys st = [] ->
  endpoint w (fetchCount st) = NetworkError message ->
  fst (validateSignature w body (Some s) timestamp st)
    = validation_error ("Cannot validate AMP signatures: " +++ message).
Proof.
  intros P V D K F. rewrite validateSignature_unfold by assumption.
  rewrite V. cbn [num_mul num_abs_diff num_gt Date_now snd].
  replace (_ >? maxTimeDiff) with false
    by (unfold maxTimeDiff; gtb_false).
  unfold key_lookup_and_verification, ensurePublicKeys, ensure_begin.
  cbn [Date_now publicKeys lastKeyFetch]. rewrite K. cbn [map_size List.length Z.of_nat Z.gtb Z.compare andb].
  cbn [fetch emit publicKeys lastKeyFetch clockReads fetchCount events].
  rewrite F. cbn [ensure_finish]. unfold ensure_catch. cbn. reflexivity.
Qed.

(** C3.  The key map is empty, the signature header is well formed and the
    timestamp is fresh; the endpoint answers with a document that holds no
    key.  The call ends with the generic failure, the same answer as for a
    signature that no cached key accepts. *)
Theorem empty_key_document_generic_failure :
  publicKeys Examples.no_keys = []
  /\ fst (validateSignature Examples.empty_document_world "{}" (Some "rsa-sha256=AAAA")
            "1700000000" Examples.no_keys)
     = verification_failed
  /\ publicKeys (snd (validateSignature Examples.empty_document_world "{}"
                        (Some "rsa-sha256=AAAA") "1700000000" Examples.no_keys)) = []
  /\ fst (validateSignature Examples.refusing_world "{}" (Some "rsa-sha256=AAAA")
            "1700000000" Examples.cached)
     = verification_failed
  /\ fst (validateSignature Examples.unreachable_world "{}" (Some "rsa-sha256=AAAA")
            "1700000000" Examples.no_keys)
     = validation_error "Cannot validate AMP signatures: connect ECONNREFUSED".
Proof.
  repeat (split; [vm_compute; reflexivity|]). vm_compute. reflexivity.
Qed.

(** *** Calls in flight *)

(** The synchronous prefix of a call that passes the two checks on a stale
    cache issues one fetch and leaves the cache as it was. *)
Lemma start_on_stale_cache (w : World) (c : Call) (st : Sys) :
  stale_at_every_reading w st ->
  passes_the_checks w c ->
  let r := step_task w (c, NotStarted) st in
  fetchCount (snd r) = S (fetchCount st)
  /\ publicKeys (snd r) = publicKeys st
  /\ lastKeyFetch (snd r) = lastKeyFetch st
  /\ awaits_fetch (fst r).
Proof.
  intros Hs [Hf Ht]. cbv zeta. unfold step_task, validate_begin.
  rewrite Hf. cbn [Date_now]. rewrite Ht.
  unfold ensure_begin. cbn [Date_now publicKeys lastKeyFetch clockReads].
  rewrite (Hs (S (clockReads st))). cbn.
  repeat split. unfold awaits_fetch. cbn. eauto.
Qed.

(** C8.  When the cache is stale (it is empty or its TTL has run out),
    every call of a batch that reaches the key check before a reply has
    been handled issues a fetch of its own: [N] calls started together
    leave [N] fetches in flight, each call waiting for its own reply. *)
Theorem every_concurrent_call_fetches (w : World) (calls : list Call) (st : Sys) :
  stale_at_every_reading w st ->
  Forall (passes_the_checks w) calls ->
  fetchCount (snd (launch w calls st)) = (fetchCount st + List.length calls)%nat
  /\ Forall awaits_fetch (fst (launch w calls st)).
Proof.
  intros Hs Hc. revert st Hs.
  induction Hc as [|c rest Hc Hrest IH]; intros st Hs; cbn [launch].
  - cbn. split; [lia | constructor].
  - destruct (start_on_stale_cache w c st Hs Hc) as (F & K & L & A).
    destruct (step_task w (c, NotStarted) st) as [t st1]. cbn [fst snd] in *.
    assert (Hs1 : stale_at_every_reading w st1).
    { intros k. rewrite K, L. apply Hs. }
    specialize (IH st1 Hs1).
    destruct (launch w rest st1) as [ts st2]. cbn [fst snd] in *.
    destruct IH as [IH1 IH2]. split.
    + rewrite IH1, F. cbn [List.length]. lia.
    + now constructor.
Qed.

Lemma every_concurrent_call_fetches_witness :
  fetchCount (snd (launch Examples.accepting_world
                     [Examples.a_call; Examples.a_call; Examples.a_call] Examples.expired))
  = 3%nat.
Proof.
  destruct (every_concurrent_call_fetches Examples.accepting_world
              [Examples.a_call; Examples.a_call; Examples.a_call] Examples.expired) as [H _].
  - intros k. vm_compute. reflexivity.
  - repeat constructor; intros k; vm_compute; reflexivity.
  - exact H.
Defined.

Lemma step_nth_app (w : World) (done : list Task) (t : Task) (rest : list Task) (st : Sys) :
  step_nth w (List.length done) (done ++ t :: rest) st
  = (done ++ fst (step_task w t st) :: rest, snd (step_task w t st)).
Proof.
  induction done as [|d done IH]; cbn [List.length app step_nth].
  - now destruct (step_task w t st).
  - rewrite IH. reflexivity.
Qed.

(** [launch] is the schedule that starts the calls one after the other. *)
Lemma launch_is_a_schedule (w : World) (calls : list Call) (done : list Task) (st : Sys) :
  run w (seq (List.length done) (List.length calls))
    (done ++ map (fun c => (c, NotStarted)) calls) st
  = (done ++ fst (launch w calls st), snd (launch w calls st)).
Proof.
  revert done st. induction calls as [|c rest IH]; intros done st.
  - reflexivity.
  - cbn [List.length seq map run launch]. rewrite step_nth_app.
    destruct (step_task w (c, NotStarted) st) as [t st1]. cbn [fst snd].
    specialize (IH (done ++ [t]) st1).
    rewrite length_app, Nat.add_1_r, <- app_assoc in IH. cbn [app] in IH.
    rewrite IH. destruct (launch w rest st1) as [ts st2]. cbn [fst snd].
    now rewrite <- app_assoc.
Qed.

(** Two calls arrive after the TTL has run out and run to completion, the
    second starting while the first waits for its reply: both are accepted
    and two fetches went out. *)
Lemma two_concurrent_calls_two_fetches :
  let '(tasks, st) :=
    run Examples.accepting_world [0; 1; 0; 1; 0; 1]%nat
      [(Examples.a_call, NotStarted); (Examples.a_call, NotStarted)] Examples.expired in
  map snd tasks = [Started (Finished (mkValidation true (Some "k1") None));
                   Started (Finished (mkValidation true (Some "k1") None))]
  /\ fetchCount st = 2%nat
  /\ ~ (fetchCount st <= 1)%nat.
Proof.
  vm_compute. split; [reflexivity|]. split; [reflexivity|]. intros H.
  apply Nat.leb_le in H. discriminate H.
Qed.

(** A call that starts once a refresh has been installed, within the TTL,
    issues no fetch. *)
Lemma fresh_cache_no_fetch (w : World) (st : Sys) :
  (map_size (publicKeys st) >? 0)
    && (clock w (clockReads st) - lastKeyFetch st <? KEY_CACHE_TTL) = true ->
  fetchCount (snd (ensurePublicKeys w st)) = fetchCount st.
Proof.
  intros H. unfold ensurePublicKeys, ensure_begin. cbn [Date_now publicKeys lastKeyFetch].
  rewrite H. reflexivity.
Qed.

End ValidatorFacts.

(** ** The middleware *)

Module MiddlewareFacts.

Import AmpValidatorCodec JS AmpValidator Middleware.

Lemma messages_log (level : Level) (text : string) (st : Sys) :
  verified_messages (emit (Log level text) st) = verified_messages st.
Proof. reflexivity. Qed.

Lemma messages_verify (keyId key message : string) (sb : Buffer) (st : Sys) :
  verified_messages (emit (Verify keyId key message sb) st) = verified_messages st ++ [message].
Proof. reflexivity. Qed.

Lemma messages_add_key (keyData : Jwk) (st : Sys) :
  verified_messages (add_key keyData st) = verified_messages st.
Proof.
  unfold add_key. destruct (_ && _); [|reflexivity].
  destruct (jwkToPem keyData); reflexivity.
Qed.

Lemma messages_add_keys (keys : list KeyEntry) (st : Sys) :
  verified_messages (snd (add_keys keys st)) = verified_messages st.
Proof.
  revert st. induction keys as [|[message|keyData] rest IH]; intros st;
    cbn [add_keys snd]; [reflexivity | reflexivity |].
  now rewrite IH, messages_add_key.
Qed.

Lemma messages_ensure (w : World) (st : Sys) :
  verified_messages (snd (ensurePublicKeys w st)) = verified_messages st.
Proof.
  unfold ensurePublicKeys, ensure_begin. cbn [Date_now].
  destruct (_ && _); [reflexivity|]. cbn [fetch].
  assert (C : forall m st', verified_messages (snd (ensure_catch m st')) = verified_messages st').
  { intros m st'. unfold ensure_catch. destruct (_ =? 0); reflexivity. }
  destruct (endpoint w _) as [m|status text|m| |keys]; cbn [ensure_finish];
    try (now rewrite C).
  match goal with
  | |- context [add_keys keys ?s] =>
      pose proof (messages_add_keys keys s) as A; destruct (add_keys keys s) as [[u|m] st1]
  end; cbn [snd] in A |- *.
  - rewrite messages_log. unfold verified_messages, set_lastKeyFetch in *. cbn [events] in *.
    exact A.
  - rewrite C. exact A.
Qed.

Lemma messages_verify_loop (w : World) (message : string) (sb : Buffer)
    (keys : list (string * string)) (st : Sys) :
  exists n, verified_messages (snd (verify_loop w message sb keys st))
            = verified_messages st ++ repeat message n.
Proof.
  revert st. induction keys as [|[keyId key] rest IH]; intros st; cbn [verify_loop].
  - exists O. cbn. now rewrite app_nil_r.
  - destruct (rsa_verify w key message sb) as [[|]|m].
    + exists 1%nat. cbn [snd]. now rewrite messages_log, messages_verify.
    + destruct (IH (emit (Verify keyId key message sb) st)) as [n E].
      exists (S n). rewrite E, messages_verify, <- app_assoc. reflexivity.
    + destruct (IH (emit (Log LWarn "Failed to verify with key")
                      (emit (Verify keyId key message sb) st))) as [n E].
      exists (S n). rewrite E, messages_log, messages_verify, <- app_assoc. reflexivity.
Qed.

(** Whatever was sent, every message that [validateSignature] hands to the
    RSA primitive is the timestamp followed by the body string it was
    called with. *)
Lemma validateSignature_messages (w : World) (body timestamp : string)
    (signature : option string) (st : Sys) :
  exists n, verified_messages (snd (validateSignature w body signature timestamp st))
            = verified_messages st ++ repeat (timestamp +++ body) n.
Proof.
  assert (Z0 : forall st', verified_messages st' = verified_messages st ->
               exists n, verified_messages st' = verified_messages st ++ repeat (timestamp +++ body) n).
  { intros st' E. exists O. cbn. now rewrite app_nil_r. }
  destruct signature as [s|].
  - destruct (String.prefix "rsa-sha256=" s) eqn:P.
    + rewrite ValidatorFacts.validateSignature_unfold by assumption. cbv zeta.
      destruct (num_gt _ maxTimeDiff); [now apply Z0|].
      unfold key_lookup_and_verification.
      pose proof (messages_ensure w (snd (Date_now w st))) as E.
      destruct (ensurePublicKeys w (snd (Date_now w st))) as [[u|m] st1]; cbn [snd] in E.
      * unfold verify_phase.
        destruct (messages_verify_loop w (timestamp +++ body)
                    (base64_decode (string_drop 11 s)) (publicKeys st1) st1) as [n En].
        exists n. rewrite En, E. reflexivity.
      * apply Z0. unfold validate_catch. cbn [snd]. now rewrite messages_log.
    + destruct (ValidatorFacts.bad_signature_format_spec (Some s)) as [_ B].
      unfold validateSignature, validate_begin. rewrite B; [now apply Z0|].
      right. now exists s.
  - now apply Z0.
Qed.

(** The middleware never reads the bytes that were sent: the message it
    has verified is the timestamp followed by the re-serialisation
    [JSON.stringify(req.body)] of the parsed body. *)
Lemma middleware_verifies_reserialized_body (cfg : Config) (w : World) (req : Request)
    (timestamp : string) (st : Sys) :
  amp_timestamp req = Some timestamp ->
  exists n, verified_messages (snd (validateAmpSignature cfg w req st))
            = verified_messages st ++ repeat (timestamp +++ rawBody req) n.
Proof.
  intros T.
  assert (Z0 : forall st', verified_messages st' = verified_messages st ->
               exists n, verified_messages st' = verified_messages st ++ repeat (timestamp +++ rawBody req) n).
  { intros st' E. exists O. cbn. now rewrite app_nil_r. }
  unfold validateAmpSignature. cbn [Date_now].
  destruct (negb (validateSignatures cfg)); [now apply Z0|].
  destruct (header_missing (amp_signature req) || header_missing (amp_timestamp req)).
  { destruct (development cfg); now apply Z0. }
  rewrite T.
  match goal with
  | |- context [validateSignature w ?b ?s ?t ?st0] =>
      destruct (validateSignature_messages w b t s st0) as [n E];
      destruct (validateSignature w b s t st0) as [r st1]
  end.
  cbn [snd] in E. exists n.
  destruct (negb (isValid r)); cbn [snd]; rewrite messages_log, messages_log; exact E.
Qed.

(** C1.  A JSON body is sent with a space after the colon.  The message
    that the middleware has verified is the timestamp followed by the
    compact re-serialisation of the parsed body, which is not the timestamp
    followed by the bytes that were sent. *)
Theorem reserialized_body_is_verified :
  let st := snd (validateAmpSignature Examples.production Examples.accepting_world
                   Examples.spaced_request Examples.cached) in
  transmitted Examples.spaced_request = "{" +++ dquote +++ "a" +++ dquote +++ ": 1}"
  /\ verified_messages st = ["1700000000{" +++ dquote +++ "a" +++ dquote +++ ":1}"]
  /\ verified_messages st <> ["1700000000" +++ transmitted Examples.spaced_request].
Proof.
  vm_compute. split; [reflexivity|]. split; [reflexivity|]. discriminate.
Qed.

End MiddlewareFacts.

(** ** The submission store *)

Module StoreFacts.

Import JS WebhookService Vocabulary.

(** *** The [Map] operations *)

Lemma key_in_spec (k : string) (victims : list entry) :
  key_in k victims = true <-> In k (map fst victims).
Proof.
  unfold key_in. rewrite existsb_exists. split.
  - intros [x [I E]]. apply String.eqb_eq in E. now subst.
  - intros I. exists k. split; [assumption | apply String.eqb_refl].
Qed.

Lemma store_set_fresh (k : string) (v : AmpFormSubmission) (m : list entry) :
  ~ In k (map fst m) -> store_set k v m = m ++ [(k, v)].
Proof.
  induction m as [|[k' v'] rest IH]; intros N; cbn [store_set app]; [reflexivity|].
  cbn [map fst In] in N.
  destruct (String.eqb_spec k' k) as [E|E]; [exfalso; auto|].
  rewrite IH by tauto. reflexivity.
Qed.

Lemma filter_filter {A : Type} (f g : A -> bool) (l : list A) :
  filter f (filter g l) = filter (fun x => g x && f x) l.
Proof.
  induction l as [|x l IH]; cbn [filter]; [reflexivity|].
  destruct (g x); cbn [filter andb]; [destruct (f x)|]; now rewrite IH.
Qed.

Lemma delete_all_filter (victims m : list entry) :
  delete_all victims m = filter (fun e => negb (key_in (fst e) victims)) m.
Proof.
  revert m. induction victims as [|v rest IH]; intros m.
  - cbn. symmetry. apply filter_true.
  - change (delete_all (v :: rest) m) with (delete_all rest (store_delete (fst v) m)).
    rewrite IH. unfold store_delete. rewrite filter_filter.
    apply filter_ext. intros e. unfold key_in. cbn [map existsb].
    now rewrite negb_orb.
Qed.

Lemma store_get_absent (k : string) (m : list entry) :
  ~ In k (map fst m) -> store_get k m = None.
Proof.
  induction m as [|[k' v'] rest IH]; intros N; cbn [store_get]; [reflexivity|].
  cbn [map fst In] in N.
  destruct (String.eqb_spec k' k) as [E|E]; [exfalso; auto|]. apply IH. tauto.
Qed.

Lemma store_get_last (k : string) (v : AmpFormSubmission) (m : list entry) :
  ~ In k (map fst m) -> store_get k (m ++ [(k, v)]) = Some v.
Proof.
  induction m as [|[k' v'] rest IH]; intros N; cbn [store_get app].
  - now rewrite String.eqb_refl.
  - cbn [map fst In] in N.
    destruct (String.eqb_spec k' k) as [E|E]; [exfalso; auto|]. apply IH. tauto.
Qed.

Lemma keys_filter (f : entry -> bool) (m : list entry) (k : string) :
  In k (map fst (filter f m)) -> In k (map fst m).
Proof.
  rewrite !in_map_iff. intros [e [E I]]. apply filter_In in I. exists e. tauto.
Qed.

(** *** The sort *)

Lemma insert_perm (e : entry) (l : list entry) :
  Permutation (insert_by_time e l) (e :: l).
Proof.
  induction l as [|x l IH]; cbn [insert_by_time]; [reflexivity|].
  destruct (entry_time e <=? entry_time x); [reflexivity|].
  rewrite IH. apply perm_swap.
Qed.

Lemma sort_perm (l : list entry) : Permutation (sort_by_time l) l.
Proof.
  induction l as [|x l IH]; cbn [sort_by_time fold_right]; [reflexivity|].
  fold (sort_by_time l). rewrite insert_perm. now constructor.
Qed.

Lemma insert_sorted (e : entry) (l : list entry) :
  StronglySorted no_later l -> StronglySorted no_later (insert_by_time e l).
Proof.
  induction l as [|x l IH]; intros S; cbn [insert_by_time].
  - repeat constructor.
  - apply StronglySorted_inv in S. destruct S as [S F].
    destruct (Z.leb_spec (entry_time e) (entry_time x)) as [L|L].
    + constructor; [now constructor|]. constructor; [exact L|].
      eapply Forall_impl; [|exact F]. unfold no_later. intros y Y. lia.
    + constructor; [now apply IH|].
      eapply Permutation_Forall; [symmetry; apply insert_perm|].
      constructor; [unfold no_later; lia | exact F].
Qed.

Lemma sort_sorted (l : list entry) : StronglySorted no_later (sort_by_time l).
Proof.
  induction l as [|x l IH]; cbn [sort_by_time fold_right]; [constructor|].
  now apply insert_sorted.
Qed.

Lemma sorted_app (A B : list entry) :
  StronglySorted no_later (A ++ B) ->
  forall a b, In a A -> In b B -> no_later a b.
Proof.
  induction A as [|x A IH]; intros S a b Ia Ib; [destruct Ia|].
  cbn [app] in S. apply StronglySorted_inv in S. destruct S as [S F].
  destruct Ia as [<-|Ia].
  - rewrite Forall_forall in F. apply F. apply in_or_app. now right.
  - now apply IH.
Qed.

(** Stability: the entry appended last lands behind every entry that is
    no younger than it, and the others keep their order. *)
Lemma insert_split (a y : entry) (A B : list entry) :
  (forall b, In b B -> entry_time y < entry_time b) ->
  exists A' B',
    insert_by_time a (A ++ y :: B) = A' ++ y :: B'
    /\ insert_by_time a (A ++ B) = A' ++ B'
    /\ (forall b, In b B' -> entry_time y < entry_time b).
Proof.
  intros HB. induction A as [|x A IH]; cbn [app insert_by_time].
  - destruct (Z.leb_spec (entry_time a) (entry_time y)) as [L|L].
    + exists [a], B. split; [reflexivity|]. split; [|exact HB].
      destruct B as [|b B]; [reflexivity|]. cbn [insert_by_time app].
      specialize (HB b (or_introl eq_refl)).
      destruct (Z.leb_spec (entry_time a) (entry_time b)); [reflexivity | lia].
    + exists [], (insert_by_time a B). split; [reflexivity|]. split; [reflexivity|].
      intros b Ib. apply (Permutation_in _ (insert_perm a B)) in Ib.
      destruct Ib as [<-|Ib]; [lia | now apply HB].
  - destruct (Z.leb_spec (entry_time a) (entry_time x)) as [L|L].
    + exists (a :: x :: A), B. split; [reflexivity|]. split; [reflexivity | exact HB].
    + destruct IH as (A' & B' & E1 & E2 & H').
      exists (x :: A'), B'. cbn [app]. rewrite E1, E2. auto.
Qed.

Lemma sort_split (l : list entry) (y : entry) :
  exists A B,
    sort_by_time (l ++ [y]) = A ++ y :: B
    /\ sort_by_time l = A ++ B
    /\ (forall b, In b B -> entry_time y < entry_time b).
Proof.
  induction l as [|a l IH].
  - exists [], []. cbn. split; [reflexivity|]. split; [reflexivity|]. intros b [].
  - destruct IH as (A & B & E1 & E2 & HB).
    cbn [app sort_by_time fold_right]. fold (sort_by_time (l ++ [y])) (sort_by_time l).
    rewrite E1, E2. now apply insert_split.
Qed.

(** An entry older than all the others is sorted to the front. *)
Lemma sort_oldest_last (l : list entry) (y : entry) :
  (forall x, In x l -> entry_time y < entry_time x) ->
  sort_by_time (l ++ [y]) = y :: sort_by_time l.
Proof.
  induction l as [|a l IH]; intros H; [reflexivity|].
  cbn [app sort_by_time fold_right]. fold (sort_by_time (l ++ [y])) (sort_by_time l).
  rewrite IH by (intros x I; apply H; now right).
  cbn [insert_by_time]. specialize (H a (or_introl eq_refl)).
  destruct (Z.leb_spec (entry_time a) (entry_time y)); [lia | reflexivity].
Qed.

Lemma permutation_filter_length {A : Type} (f : A -> bool) (l l' : list A) :
  Permutation l l' -> List.length (filter f l) = List.length (filter f l').
Proof.
  induction 1 as [|x l l' P IH|x y l|l l' l'' P1 IH1 P2 IH2]; cbn [filter].
  - reflexivity.
  - destruct (f x); cbn [List.length]; now rewrite IH.
  - destruct (f x), (f y); reflexivity.
  - now rewrite IH1.
Qed.

Lemma NoDup_app_disjoint {A : Type} (l1 l2 : list A) (a : A) :
  NoDup (l1 ++ l2) -> In a l1 -> ~ In a l2.
Proof.
  induction l1 as [|x l1 IH]; intros N I1 I2; [destruct I1|].
  cbn [app] in N. apply NoDup_cons_iff in N. destruct N as [N1 N2].
  destruct I1 as [<-|I1].
  - apply N1. apply in_or_app. now right.
  - now apply IH.
Qed.

Lemma filter_none {A : Type} (f : A -> bool) (l : list A) :
  (forall x, In x l -> f x = false) -> filter f l = [].
Proof.
  induction l as [|x l IH]; intros H; cbn [filter]; [reflexivity|].
  rewrite (H x (or_introl eq_refl)). apply IH. intros y I. apply H. now right.
Qed.

Lemma filter_all {A : Type} (f : A -> bool) (l : list A) :
  (forall x, In x l -> f x = true) -> filter f l = l.
Proof.
  intros H. apply forallb_filter_id. apply forallb_forall. exact H.
Qed.

Lemma firstn_In {A : Type} (n : nat) (l : list A) (x : A) :
  In x (firstn n l) -> In x l.
Proof.
  intros I. rewrite <- (firstn_skipn n l). apply in_or_app. now left.
Qed.

(** If at least [k] held entries are no younger than [y], the [k] oldest
    of the entries with [y] appended are the [k] oldest held ones, and [y]
    is no older than any of them. *)
Lemma oldest_ignores_newcomer (k : nat) (l : list entry) (y : entry) :
  Z.of_nat k <= count_no_later (entry_time y) l ->
  oldest k (l ++ [y]) = oldest k l
  /\ forall r, In r (oldest k l) -> no_later r y.
Proof.
  intros C. unfold oldest.
  destruct (sort_split l y) as (A & B & E1 & E2 & HB).
  assert (LA : (k <= List.length A)%nat).
  { unfold count_no_later in C.
    rewrite (permutation_filter_length _ _ _ (Permutation_sym (sort_perm l))) in C.
    rewrite E2, filter_app, length_app in C.
    rewrite (filter_none _ B) in C
      by (intros b Ib; apply Z.leb_gt; now apply HB).
    pose proof (filter_length_le (fun e => entry_time e <=? entry_time y) A).
    cbn [List.length] in C. lia. }
  rewrite E1, E2, !firstn_app.
  replace (k - List.length A)%nat with O by lia. cbn [firstn]. split; [reflexivity|].
  intros r Ir. rewrite app_nil_r in Ir.
  pose proof (sort_sorted (l ++ [y])) as S. rewrite E1 in S.
  apply (sorted_app A (y :: B) S); [|now left].
  eapply firstn_In; eassumption.
Qed.

(** *** validateFormData and processSubmission *)

Lemma validateFormData_submissions (formData : JValue) (svc : Service) :
  submissions (snd (validateFormData formData svc)) = submissions svc.
Proof.
  unfold validateFormData.
  split_conditions; reflexivity.
Qed.

Lemma validateFormData_outcome (formData : JValue) (svc svc0 : Service) :
  fst (validateFormData formData svc) = fst (validateFormData formData svc0).
Proof.
  unfold validateFormData.
  split_conditions; reflexivity.
Qed.

(** The analysis of the form content only writes to the log. *)
Lemma processFormContent_submissions (sub : AmpFormSubmission) (svc : Service) :
  submissions (processFormContent sub svc) = submissions svc.
Proof. unfold processFormContent. destruct (existsb _ _); reflexivity. Qed.

Lemma processSubmission_accepted (newId : string) (now : Z) (request : SubmissionRequest)
    (svc : Service) :
  fst (validateFormData (request_formData request) svc) = Returned tt ->
  processSubmission newId now request svc =
    (Returned (submission_of newId now request),
     processFormContent (submission_of newId now request)
       (log LInfo "Submission processed successfully"
          (store_submission (submission_of newId now request)
             (snd (validateFormData (request_formData request) svc))))).
Proof.
  unfold processSubmission.
  destruct (validateFormData (request_formData request) svc) as [[u|m] svc1]; cbn [fst snd];
    intros H; [reflexivity | discriminate].
Qed.

Lemma oldest_keys (k : nat) (m : list entry) (key : string) :
  In key (map fst (oldest k m)) -> In key (map fst m).
Proof.
  rewrite !in_map_iff. intros [e [E I]]. exists e. split; [exact E|].
  apply (Permutation_in _ (sort_perm m)). eapply firstn_In. exact I.
Qed.

(** The table after the insert that takes it over the limit. *)
Lemma store_at_capacity (sub : AmpFormSubmission) (m : list entry) (lg : list (Level * string)) :
  store_size m = 10000 ->
  ~ In (id sub) (map fst m) ->
  1000 <= count_no_later (timestamp sub) m ->
  submissions (store_submission sub (mkService m lg))
  = filter (fun e => negb (key_in (fst e) (oldest 1000 m))) m ++ [(id sub, sub)].
Proof.
  intros S F C. unfold store_submission. cbn [submissions logged].
  rewrite store_set_fresh by assumption.
  assert (S1 : store_size (m ++ [(id sub, sub)]) = 10001).
  { unfold store_size in *. rewrite length_app. cbn [List.length]. lia. }
  rewrite S1. change (10001 >? maxSubmissions) with true. cbv iota.
  unfold cleanupOldSubmissions. cbn [submissions logged log]. rewrite S1.
  replace (floor_tenth 10001) with 1000 by (vm_compute; reflexivity).
  change (Z.to_nat 1000) with 1000%nat.
  destruct (oldest_ignores_newcomer 1000 m (id sub, sub)) as [E _]; [exact C|].
  match goal with
  | |- delete_all ?victims _ = _ =>
      replace victims with (oldest 1000 m) by (symmetry; exact E)
  end.
  rewrite delete_all_filter, filter_app. f_equal.
  cbn [filter fst].
  destruct (key_in (id sub) (oldest 1000 m)) eqn:K; [exfalso | reflexivity].
  apply key_in_spec, oldest_keys in K. contradiction.
Qed.

Lemma kept_length (k : nat) (m : list entry) :
  NoDup (map fst m) ->
  List.length (filter (fun e => negb (key_in (fst e) (oldest k m))) m)
  = (List.length m - k)%nat.
Proof.
  intros N. unfold oldest.
  pose (S := sort_by_time m).
  pose (P := fun e : entry => negb (key_in (fst e) (firstn k S))).
  change (List.length (filter P m) = (List.length m - k)%nat).
  rewrite (permutation_filter_length P m S (Permutation_sym (sort_perm m))).
  assert (NS : NoDup (map fst (firstn k S) ++ map fst (skipn k S))).
  { rewrite <- map_app, firstn_skipn.
    apply (Permutation_NoDup (Permutation_map fst (Permutation_sym (sort_perm m))) N). }
  assert (E : List.length (filter P (firstn k S ++ skipn k S))
              = List.length (skipn k S)).
  { rewrite filter_app, length_app.
    rewrite (filter_none P (firstn k S)).
    - rewrite (filter_all P (skipn k S)); [reflexivity|].
      intros e I. unfold P. apply negb_true_iff.
      destruct (key_in (fst e) (firstn k S)) eqn:K; [exfalso | reflexivity].
      apply key_in_spec in K.
      apply (NoDup_app_disjoint _ _ (fst e) NS K). now apply in_map.
    - intros e I. unfold P. apply negb_false_iff, key_in_spec. now apply in_map. }
  rewrite firstn_skipn in E. rewrite E, length_skipn. unfold S.
  now rewrite (Permutation_length (sort_perm m)).
Qed.

Lemma removed_are_oldest (k : nat) (m : list entry) (r e : entry) :
  In r (oldest k m) -> In e m -> key_in (fst e) (oldest k m) = false -> no_later r e.
Proof.
  unfold oldest. intros Ir Ie K.
  pose proof (sort_sorted m) as S.
  rewrite <- (firstn_skipn k (sort_by_time m)) in S.
  apply (sorted_app _ _ S r e Ir).
  apply (Permutation_in _ (Permutation_sym (sort_perm m))) in Ie.
  rewrite <- (firstn_skipn k (sort_by_time m)) in Ie.
  apply in_app_or in Ie. destruct Ie as [Ie|Ie]; [|exact Ie].
  exfalso. assert (T : key_in (fst e) (firstn k (sort_by_time m)) = true)
    by (apply key_in_spec; now apply in_map).
  congruence.
Qed.

(** C4.  The store holds exactly 10000 submissions under distinct ids.  A
    request that passes [validateFormData] is inserted under an id that is
    not yet a key, and at least 1000 of the held submissions are no younger
    than it.  Then the store ends with exactly 9001 entries, the new
    submission among them: what is removed is precisely the 1000 oldest of
    the held submissions (ascending timestamp, equal timestamps in
    insertion order), and each of them is no younger than anything that
    stays. *)
Theorem insert_at_capacity (newId : string) (now : Z) (request : SubmissionRequest)
    (svc : Service) :
  let held := submissions svc in
  NoDup (map fst held) ->
  store_size held = 10000 ->
  ~ In newId (map fst held) ->
  fst (validateFormData (request_formData request) svc) = Returned tt ->
  1000 <= count_no_later now held ->
  exists submission svc',
    processSubmission newId now request svc = (Returned submission, svc')
    /\ store_size (submissions svc') = 9001
    /\ store_get newId (submissions svc') = Some submission
    /\ let removed := oldest 1000 held in
       List.length removed = 1000%nat
       /\ incl removed held
       /\ submissions svc'
          = filter (fun e => negb (key_in (fst e) removed)) held ++ [(newId, submission)]
       /\ forall r k, In r removed -> In k (submissions svc') -> no_later r k.
Proof.
  intros held N S F V C. subst held.
  rewrite (processSubmission_accepted newId now request svc V).
  set (sub := submission_of newId now request).
  eexists sub, _. split; [reflexivity|].
  rewrite !processFormContent_submissions. cbn [submissions log].
  assert (R : submissions (store_submission sub
                 (snd (validateFormData (request_formData request) svc)))
              = filter (fun e => negb (key_in (fst e) (oldest 1000 (submissions svc)))) (submissions svc)
                  ++ [(newId, sub)]).
  { pose proof (validateFormData_submissions (request_formData request) svc) as VS.
    destruct (snd (validateFormData (request_formData request) svc)) as [m lg].
    cbn [submissions] in VS. subst m.
    apply (store_at_capacity sub (submissions svc) lg); assumption. }
  rewrite R.
  assert (L : List.length (submissions svc) = Z.to_nat 10000).
  { apply Nat2Z.inj. rewrite Z2Nat.id by lia. exact S. }
  split; [|split; [|split; [|split; [|split]]]].
  - unfold store_size. rewrite length_app, kept_length by assumption.
    cbn [List.length]. rewrite L. lia.
  - apply store_get_last. intros I. apply keys_filter in I. contradiction.
  - unfold oldest. rewrite length_firstn, (Permutation_length (sort_perm (submissions svc))), L. lia.
  - intros e I. apply (Permutation_in _ (sort_perm (submissions svc))). eapply firstn_In. exact I.
  - reflexivity.
  - intros r k Ir Ik. apply in_app_or in Ik. destruct Ik as [Ik|[<-|[]]].
    + apply filter_In in Ik. destruct Ik as [Ik K]. apply negb_true_iff in K.
      exact (removed_are_oldest 1000 (submissions svc) r k Ir Ik K).
    + destruct (oldest_ignores_newcomer 1000 (submissions svc) (newId, sub)) as [_ O]; [exact C|].
      now apply O.
Qed.

(** A submission older than everything held is removed by the very
    insert that stored it. *)
Lemma insert_older_than_all (sub : AmpFormSubmission) (m : list entry)
    (lg : list (Level * string)) :
  store_size m = 10000 ->
  ~ In (id sub) (map fst m) ->
  (forall e, In e m -> timestamp sub < entry_time e) ->
  store_get (id sub) (submissions (store_submission sub (mkService m lg))) = None.
Proof.
  intros S F T. unfold store_submission. cbn [submissions logged].
  rewrite store_set_fresh by assumption.
  assert (S1 : store_size (m ++ [(id sub, sub)]) = 10001).
  { unfold store_size in *. rewrite length_app. cbn [List.length]. lia. }
  rewrite S1. change (10001 >? maxSubmissions) with true. cbv iota.
  unfold cleanupOldSubmissions. cbn [submissions logged log]. rewrite S1.
  replace (floor_tenth 10001) with 1000 by (vm_compute; reflexivity).
  change (Z.to_nat 1000) with 1000%nat.
  rewrite (sort_oldest_last m (id sub, sub)) by exact T.
  rewrite delete_all_filter. apply store_get_absent.
  rewrite in_map_iff. intros [e [E I]]. apply filter_In in I. destruct I as [_ K].
  apply negb_true_iff in K. rewrite E in K.
  assert (K' : key_in (id sub) (firstn 1000 ((id sub, sub) :: sort_by_time m)) = true).
  { apply key_in_spec. cbn [firstn map fst]. now left. }
  congruence.
Qed.

(** *** The store of 10000 submissions used as an instance *)

Import StoreExamples.

Lemma nth_id_injective (i j : nat) : nth_id i = nth_id j -> i = j.
Proof.
  unfold nth_id, decimal. cbn [String.append]. intros H. injection H as H.
  apply (f_equal NilEmpty.uint_of_string) in H. rewrite !NilEmpty.usu in H.
  injection H as H. apply (f_equal Nat.of_uint) in H.
  now rewrite !DecimalNat.Unsigned.of_to in H.
Qed.

Lemma NoDup_map_injective {A B : Type} (f : A -> B) (l : list A) :
  (forall x y, f x = f y -> x = y) -> NoDup l -> NoDup (map f l).
Proof.
  intros Inj N. induction N as [|x l Nx N IH]; cbn [map]; constructor; [|exact IH].
  rewrite in_map_iff. intros [y [E I]]. apply Inj in E. now subst.
Qed.

Lemma full_store_keys (base : Z) :
  map fst (full_store base) = map nth_id (seq 0 (Z.to_nat 10000)).
Proof.
  unfold full_store. rewrite map_map. apply map_ext. intros i. reflexivity.
Qed.

Lemma full_store_size (base : Z) : store_size (full_store base) = 10000.
Proof.
  unfold store_size, full_store. rewrite length_map, length_seq. apply Z2Nat.id. lia.
Qed.

Lemma full_store_NoDup (base : Z) : NoDup (map fst (full_store base)).
Proof.
  rewrite full_store_keys. apply NoDup_map_injective; [exact nth_id_injective|].
  apply seq_NoDup.
Qed.

Lemma new_id_fresh (base : Z) : ~ In new_id (map fst (full_store base)).
Proof.
  rewrite full_store_keys, in_map_iff. intros [i [E I]].
  apply nth_id_injective in E. apply in_seq in I. lia.
Qed.

Lemma full_store_times (base : Z) (e : string * AmpFormSubmission) :
  In e (full_store base) -> base <= entry_time e < base + 10000.
Proof.
  unfold full_store. rewrite in_map_iff. intros [i [E I]]. subst e.
  apply in_seq in I. unfold nth_entry, entry_time. cbn [snd timestamp]. lia.
Qed.

Lemma a_request_passes (svc : Service) :
  validateFormData (request_formData a_request) svc = (Returned tt, svc).
Proof.
  unfold validateFormData.
  replace (negb (truthy (request_formData a_request))
           || negb (typeof_object (request_formData a_request))) with false by reflexivity.
  replace (keys_length (request_formData a_request) =? 0) with false by reflexivity.
  replace (Z.of_nat (String.length (JSON_stringify (request_formData a_request))) >? 100000)
    with false by (vm_compute; reflexivity).
  replace (dangerous (JSON_stringify (request_formData a_request))) with false
    by (vm_compute; reflexivity).
  reflexivity.
Qed.

Lemma full_service_size (base : Z) : store_size (submissions (full_service base)) = 10000.
Proof. exact (full_store_size base). Qed.

Lemma full_service_NoDup (base : Z) : NoDup (map fst (submissions (full_service base))).
Proof. exact (full_store_NoDup base). Qed.

Lemma full_service_fresh (base : Z) : ~ In new_id (map fst (submissions (full_service base))).
Proof. exact (new_id_fresh base). Qed.

Lemma full_service_times (base : Z) (e : string * AmpFormSubmission) :
  In e (submissions (full_service base)) -> base <= entry_time e < base + 10000.
Proof. exact (full_store_times base e). Qed.

(** An accepted submission that is older than everything held is gone
    when [processSubmission] returns it. *)
Lemma older_than_all_evicted (newId : string) (now : Z) (request : SubmissionRequest)
    (svc : Service) :
  store_size (submissions svc) = 10000 ->
  ~ In newId (map fst (submissions svc)) ->
  validateFormData (request_formData request) svc = (Returned tt, svc) ->
  (forall e, In e (submissions svc) -> now < entry_time e) ->
  fst (processSubmission newId now request svc) = Returned (submission_of newId now request)
  /\ store_get newId (submissions (snd (processSubmission newId now request svc))) = None.
Proof.
  intros S F V T.
  rewrite processSubmission_accepted by (now rewrite V).
  split; [reflexivity|].
  rewrite V. cbn [fst snd]. rewrite processFormContent_submissions.
  cbn [submissions log]. destruct svc as [m lg].
  exact (insert_older_than_all (submission_of newId now request) m lg S F T).
Qed.

(** The store holds 10000 submissions received from one second after the
    epoch on; the clock has stepped back and the next submission is stamped
    five milliseconds after the epoch.  It is accepted, and it is among the
    1000 entries that its own insert removes. *)
Lemma newest_submission_evicted :
  store_size (submissions (full_service 1000)) = 10000
  /\ NoDup (map fst (submissions (full_service 1000)))
  /\ ~ In new_id (map fst (submissions (full_service 1000)))
  /\ fst (processSubmission new_id 5 a_request (full_service 1000))
     = Returned (submission_of new_id 5 a_request)
  /\ store_get new_id
       (submissions (snd (processSubmission new_id 5 a_request (full_service 1000))))
     = None.
Proof.
  split; [exact (full_service_size 1000)|].
  split; [exact (full_service_NoDup 1000)|].
  split; [exact (full_service_fresh 1000)|].
  apply older_than_all_evicted.
  - exact (full_service_size 1000).
  - exact (full_service_fresh 1000).
  - exact (a_request_passes (full_service 1000)).
  - intros e I. apply full_service_times in I. lia.
Qed.

(** The same store stamped from the epoch on, and a submission stamped ten
    seconds after the epoch. *)
Lemma insert_at_capacity_witness :
  exists submission svc',
    processSubmission new_id 10000 a_request (full_service 0) = (Returned submission, svc')
    /\ store_size (submissions svc') = 9001
    /\ store_get new_id (submissions svc') = Some submission.
Proof.
  destruct (insert_at_capacity new_id 10000 a_request (full_service 0))
    as (submission & svc' & E & S & G & _).
  - exact (full_service_NoDup 0).
  - exact (full_service_size 0).
  - exact (full_service_fresh 0).
  - now rewrite a_request_passes.
  - unfold count_no_later.
    rewrite filter_all.
    + fold (store_size (submissions (full_service 0))). rewrite full_service_size. lia.
    + intros e I. apply full_service_times in I. apply Z.leb_le. lia.
  - exists submission, svc'. auto.
Defined.

(** *** Form data *)

Lemma store_get_set (k : string) (v : AmpFormSubmission) (m : list (string * AmpFormSubmission)) :
  store_get k (store_set k v m) = Some v.
Proof.
  induction m as [|[k' v'] rest IH]; cbn [store_set store_get].
  - now rewrite String.eqb_refl.
  - destruct (String.eqb_spec k' k) as [E|E]; cbn [store_get].
    + now rewrite String.eqb_refl.
    + apply String.eqb_neq in E. now rewrite E.
Qed.

Lemma store_set_size (k : string) (v : AmpFormSubmission) (m : list (string * AmpFormSubmission)) :
  store_size (store_set k v m) <= store_size m + 1.
Proof.
  unfold store_size.
  induction m as [|[k' v'] rest IH]; cbn [store_set List.length]; [lia|].
  destruct (String.eqb k' k); cbn [List.length]; lia.
Qed.

Lemma store_below_capacity (sub : AmpFormSubmission) (svc : Service) :
  store_size (submissions svc) < maxSubmissions ->
  store_submission sub svc
  = mkService (store_set (id sub) sub (submissions svc)) (logged svc).
Proof.
  intros B. unfold store_submission. cbn [submissions].
  pose proof (store_set_size (id sub) sub (submissions svc)).
  replace (_ >? maxSubmissions) with false; [reflexivity|].
  symmetry. rewrite Z.gtb_ltb. apply Z.ltb_ge. lia.
Qed.

(** C10.  Form data that is not an object, that has no key, or whose
    serialisation has more than 100000 characters makes
    [processSubmission] throw and leaves the store as it was.  Any other
    form data is accepted whether or not its serialisation matches one of
    the dangerous-content patterns.  A match adds one warning to the log
    and nothing else: the submission is set under its id with the form
    data of the request, and the table is then what this insert makes of
    it for any data, the clean-up included when the insert takes the
    table over the limit.  The log ends with the line of the content
    analysis, which is an error line when a field value cannot be
    converted to a string. *)
Theorem dangerous_content_only_logged (newId : string) (now : Z)
    (request : SubmissionRequest) (svc : Service) :
  let formData := request_formData request in
  let dataString := JSON_stringify formData in
  let is_object := truthy formData && typeof_object formData in
  (is_object = false ->
   processSubmission newId now request svc
   = (Thrown "Submission processing failed: Form data must be an object",
      log LError "Failed to process submission:" svc))
  /\ (is_object = true -> keys_length formData = 0 ->
      processSubmission newId now request svc
      = (Thrown "Submission processing failed: Form data cannot be empty",
         log LError "Failed to process submission:" svc))
  /\ (is_object = true -> keys_length formData <> 0 ->
      Z.of_nat (String.length dataString) > 100000 ->
      processSubmission newId now request svc
      = (Thrown "Submission processing failed: Form data too large",
         log LError "Failed to process submission:" svc))
  /\ (is_object = true -> keys_length formData <> 0 ->
      Z.of_nat (String.length dataString) <= 100000 ->
      let submission := submission_of newId now request in
      let warning :=
        if dangerous dataString
        then [(LWarn, "Potentially malicious content detected in form data")]
        else [] in
      let warned := mkService (submissions svc) (warning ++ logged svc) in
      let inserted := store_set newId submission (submissions svc) in
      let over := store_size inserted >? maxSubmissions in
      let toRemove := floor_tenth (store_size inserted) in
      let table :=
        if over
        then filter (fun e => negb (key_in (fst e) (oldest (Z.to_nat toRemove) inserted)))
               inserted
        else inserted in
      let cleaned :=
        if over
        then [(LInfo, "Cleaned up " +++ Z_to_string toRemove +++ " old submissions")]
        else [] in
      let analysed :=
        if existsb String_raises (values_of formData)
        then (LError, "Error processing form content:")
        else (LInfo, "Form content analyzed") in
      processSubmission newId now request svc
      = (Returned submission,
         mkService table
           (analysed :: (LInfo, "Submission processed successfully")
              :: cleaned ++ warning ++ logged svc))
      /\ WebhookService.formData submission = formData
      /\ store_get newId inserted = Some submission
      /\ submissions (store_submission submission warned)
         = submissions (store_submission submission svc)
      /\ submissions (store_submission submission svc) = table
      /\ (store_size (submissions svc) < maxSubmissions ->
          table = inserted
          /\ store_get newId (submissions (store_submission submission warned))
             = Some submission)).
Proof.
  intros formData dataString is_object.
  assert (G : negb (truthy formData) || negb (typeof_object formData) = negb is_object)
    by (subst is_object; now rewrite negb_andb).
  split; [|split; [|split]].
  - intros O. unfold processSubmission, validateFormData. fold formData.
    rewrite G, O. reflexivity.
  - intros O K. unfold processSubmission, validateFormData. fold formData.
    rewrite G, O, K. reflexivity.
  - intros O K L. unfold processSubmission, validateFormData. fold formData.
    rewrite G, O. apply Z.eqb_neq in K. rewrite K. fold dataString.
    replace (_ >? 100000) with true by gtb_true.
    reflexivity.
  - intros O K L submission warning warned inserted over toRemove table cleaned analysed.
    assert (V : validateFormData formData svc = (Returned tt, warned)).
    { unfold validateFormData. rewrite G, O. apply Z.eqb_neq in K. rewrite K.
      fold dataString.
      replace (_ >? 100000) with false
        by gtb_false.
      subst warned warning. destruct svc as [m lg].
      destruct (dangerous dataString); reflexivity. }
    assert (T : forall lg,
               store_submission submission (mkService (submissions svc) lg)
               = mkService table (cleaned ++ lg)).
    { intros lg. unfold store_submission. cbn [submissions logged].
      change (id submission) with newId. fold inserted. fold over.
      subst table cleaned. destruct over; [|reflexivity].
      unfold cleanupOldSubmissions. cbn [submissions logged log].
      fold toRemove. now rewrite delete_all_filter. }
    split; [|split; [|split; [|split; [|split]]]].
    + rewrite processSubmission_accepted by (fold formData; rewrite V; reflexivity).
      fold formData. rewrite V. cbn [snd]. f_equal.
      subst warned. rewrite T. unfold processFormContent.
      change (WebhookService.formData (submission_of newId now request)) with formData.
      subst analysed. destruct (existsb String_raises (values_of formData)); reflexivity.
    + reflexivity.
    + apply store_get_set.
    + subst warned. rewrite T. pose proof (T (logged svc)) as U.
      destruct svc as [m lg]. cbn [submissions logged] in U. now rewrite U.
    + pose proof (T (logged svc)) as U.
      destruct svc as [m lg]. cbn [submissions logged] in U. now rewrite U.
    + intros B. subst warned. rewrite T. cbn [submissions].
      assert (E : table = inserted).
      { subst table over.
        pose proof (store_set_size newId submission (submissions svc)) as Sz.
        fold inserted in Sz.
        replace (store_size inserted >? maxSubmissions) with false; [reflexivity|].
        symmetry. rewrite Z.gtb_ltb. apply Z.ltb_ge. lia. }
      split; [exact E|]. rewrite E. apply store_get_set.
Qed.

Lemma padding_length (n : nat) : String.length (padding n) = n.
Proof. induction n as [|n IH]; cbn [padding String.length]; [reflexivity | now rewrite IH]. Qed.

Lemma padding_escape (n : nat) : escape_string (padding n) = padding n.
Proof.
  induction n as [|n IH]; cbn [padding escape_string]; [reflexivity|].
  rewrite IH. reflexivity.
Qed.

Lemma append_length (a b : string) :
  String.length (a +++ b) = (String.length a + String.length b)%nat.
Proof. induction a as [|c a IH]; cbn [String.append String.length]; [reflexivity | now rewrite IH]. Qed.

Lemma one_field_length (p : string) :
  escape_string p = p ->
  String.length (JSON_stringify (JObj [("blob", JStr p)])) = (String.length p + 11)%nat.
Proof.
  intros E. cbn [JSON_stringify map String.concat fst snd].
  unfold quote. rewrite E.
  replace (escape_string "blob") with "blob" by (vm_compute; reflexivity).
  rewrite !append_length. cbn [String.length dquote]. lia.
Qed.

Lemma large_request_length :
  Z.of_nat (String.length (JSON_stringify (request_formData large_request))) = 100011.
Proof.
  unfold large_request. cbn [request_formData].
  rewrite one_field_length by apply padding_escape.
  rewrite padding_length, Nat2Z.inj_add, Z2Nat.id by lia. reflexivity.
Qed.

(** A script tag is stored with a warning; a value that cannot be
    converted to a string is stored with the error line of the content
    analysis; an empty object and a field of 100000 characters are
    refused. *)
Lemma dangerous_content_only_logged_witness :
  (dangerous (JSON_stringify (request_formData dangerous_request)) = true
   /\ processSubmission "sub_1" 7 dangerous_request empty_service
      = (Returned (submission_of "sub_1" 7 dangerous_request),
         mkService [("sub_1", submission_of "sub_1" 7 dangerous_request)]
           [(LInfo, "Form content analyzed");
            (LInfo, "Submission processed successfully");
            (LWarn, "Potentially malicious content detected in form data")]))
  /\ processSubmission "sub_1" 7 odd_request empty_service
     = (Returned (submission_of "sub_1" 7 odd_request),
        mkService [("sub_1", submission_of "sub_1" 7 odd_request)]
          [(LError, "Error processing form content:");
           (LInfo, "Submission processed successfully")])
  /\ processSubmission "sub_1" 7 empty_request empty_service
     = (Thrown "Submission processing failed: Form data cannot be empty",
        log LError "Failed to process submission:" empty_service)
  /\ processSubmission "sub_1" 7 large_request empty_service
     = (Thrown "Submission processing failed: Form data too large",
        log LError "Failed to process submission:" empty_service).
Proof.
  split; [split; [vm_compute; reflexivity|]|split; [|split]].
  - destruct (dangerous_content_only_logged "sub_1" 7 dangerous_request empty_service)
      as (_ & _ & _ & A).
    destruct A as (E & _); [reflexivity | discriminate | vm_compute; discriminate|].
    rewrite E. vm_compute. reflexivity.
  - destruct (dangerous_content_only_logged "sub_1" 7 odd_request empty_service)
      as (_ & _ & _ & A).
    destruct A as (E & _); [reflexivity | discriminate | vm_compute; discriminate|].
    rewrite E. vm_compute. reflexivity.
  - destruct (dangerous_content_only_logged "sub_1" 7 empty_request empty_service)
      as (_ & A & _).
    apply A; reflexivity.
  - destruct (dangerous_content_only_logged "sub_1" 7 large_request empty_service)
      as (_ & _ & A & _).
    apply A; [reflexivity | discriminate|]. rewrite large_request_length. lia.
Defined.

End StoreFacts.

(** ** The key codec, read back *)

Module CodecRoundTrip.

Import AmpValidatorCodec DERReader DERParse CodecFacts.

Lemma encodeLength_short (len : Z) :
  0 <= len < 2 ^ 31 -> buffer_length (encodeLength len) <= 5.
Proof.
  intros H. rewrite encodeLength_cases by assumption. unfold buffer_length.
  split_conditions; cbn; lia.
Qed.

Lemma firstn_app_exact {A : Type} (c rest : list A) :
  firstn (List.length c) (c ++ rest) = c.
Proof.
  rewrite firstn_app, Nat.sub_diag, firstn_all. cbn. apply app_nil_r.
Qed.

Lemma skipn_app_exact {A : Type} (c rest : list A) :
  skipn (List.length c) (c ++ rest) = rest.
Proof.
  rewrite skipn_app, Nat.sub_diag, skipn_all. reflexivity.
Qed.

Lemma forallb_octets (l : list Z) : Forall is_byte l -> forallb is_octet l = true.
Proof.
  intros F. apply forallb_forall. intros x I. apply is_octet_spec.
  revert x I. now apply Forall_forall.
Qed.

Lemma octets_forall (l : list Z) : forallb is_octet l = true -> Forall is_byte l.
Proof.
  intros F. apply Forall_forall. intros x I. apply is_octet_spec.
  revert x I. now apply forallb_forall.
Qed.

(** The long form as [read_length] takes it, whatever follows. *)
Lemma read_long_form (digits rest : list Z) :
  0 < Z.of_nat (List.length digits) < 127 ->
  forallb is_octet digits = true ->
  0 < hd 0 digits ->
  128 <= be_value digits ->
  read_length ((128 + Z.of_nat (List.length digits)) :: digits ++ rest)
  = Some (be_value digits, rest).
Proof.
  intros K F H V. unfold read_length.
  replace (is_octet (128 + Z.of_nat (List.length digits))) with true
    by (symmetry; apply is_octet_spec; unfold is_byte; lia).
  replace (128 + Z.of_nat (List.length digits) =? 255) with false
    by (symmetry; apply Z.eqb_neq; lia).
  cbn [negb orb].
  replace (128 + Z.of_nat (List.length digits) <? 128) with false
    by (symmetry; apply Z.ltb_ge; lia).
  replace (128 + Z.of_nat (List.length digits) - 128) with (Z.of_nat (List.length digits))
    by lia.
  rewrite Nat2Z.id, firstn_app_exact, skipn_app_exact, F.
  replace (0 <? Z.of_nat (List.length digits)) with true by (symmetry; apply Z.ltb_lt; lia).
  replace (Nat.leb (List.length digits) (List.length (digits ++ rest))) with true
    by (symmetry; apply Nat.leb_le; rewrite length_app; lia).
  replace (0 <? hd 0 digits) with true by (symmetry; apply Z.ltb_lt; lia).
  replace (128 <=? be_value digits) with true by (symmetry; apply Z.leb_le; lia).
  reflexivity.
Qed.

Lemma read_length_encodeLength (len : Z) (rest : list Z) :
  0 <= len < 2 ^ 31 -> read_length (encodeLength len ++ rest) = Some (len, rest).
Proof.
  intros H. rewrite encodeLength_cases by assumption.
  destruct (len <? 128) eqn:E.
  { unfold read_length. cbn [app].
    replace (is_octet len) with true
      by (symmetry; apply is_octet_spec; apply Z.ltb_lt in E; unfold is_byte; lia).
    replace (len =? 255) with false
      by (symmetry; apply Z.eqb_neq; apply Z.ltb_lt in E; lia).
    cbn [negb orb]. now rewrite E. }
  apply Z.ltb_ge in E.
  destruct (len <? 256) eqn:E1;
    [apply Z.ltb_lt in E1
    |apply Z.ltb_ge in E1; destruct (len <? 65536) eqn:E2;
     [apply Z.ltb_lt in E2
     |apply Z.ltb_ge in E2; destruct (len <? 16777216) eqn:E3;
      [apply Z.ltb_lt in E3 | apply Z.ltb_ge in E3]]].
  - change ([129; len] ++ rest)
      with ((128 + Z.of_nat (List.length [len])) :: [len] ++ rest).
    rewrite read_long_form; cbn [List.length hd be_value fold_left];
      [do 2 f_equal; lia | lia | octets | lia | lia].
  - change ([130; len / 256; len mod 256] ++ rest)
      with ((128 + Z.of_nat (List.length [len / 256; len mod 256]))
              :: [len / 256; len mod 256] ++ rest).
    rewrite read_long_form; cbn [List.length hd be_value fold_left];
      [do 2 f_equal | lia | octets | | ]; Z.div_mod_to_equations; lia.
  - change ([131; len / 65536; len / 256 mod 256; len mod 256] ++ rest)
      with ((128 + Z.of_nat (List.length [len / 65536; len / 256 mod 256; len mod 256]))
              :: [len / 65536; len / 256 mod 256; len mod 256] ++ rest).
    rewrite read_long_form; cbn [List.length hd be_value fold_left];
      [do 2 f_equal | lia | octets | | ]; Z.div_mod_to_equations; lia.
  - change ([132; len / 16777216; len / 65536 mod 256; len / 256 mod 256; len mod 256]
              ++ rest)
      with ((128 + Z.of_nat (List.length
               [len / 16777216; len / 65536 mod 256; len / 256 mod 256; len mod 256]))
              :: [len / 16777216; len / 65536 mod 256; len / 256 mod 256; len mod 256]
                   ++ rest).
    rewrite read_long_form; cbn [List.length hd be_value fold_left];
      [do 2 f_equal | lia | octets | | ]; Z.div_mod_to_equations; lia.
Qed.

(** Octets after an accumulator only add to its value. *)
Lemma fold_octets_lower (digits : list Z) (acc : Z) :
  0 <= acc -> Forall is_byte digits ->
  acc <= fold_left (fun a b => a * 256 + b) digits acc.
Proof.
  revert acc. induction digits as [|d ds IH]; intros acc A F; [cbn; lia|].
  inversion F as [|? ? Hd Hds]; subst. cbn [fold_left].
  unfold is_byte in Hd. specialize (IH (acc * 256 + d) ltac:(lia) Hds). lia.
Qed.

(** The octets that the strict reader takes for a length below [2^31] are
    those that [encodeLength] writes: no other octets stand for it. *)
Lemma der_length_unique (octets : list Z) (len : Z) :
  0 <= len < 2 ^ 31 ->
  der_length_decode octets = Some len -> octets = encodeLength len.
Proof.
  intros H D. rewrite encodeLength_cases by assumption.
  unfold der_length_decode in D. destruct octets as [|first rest]; [discriminate|].
  destruct (forallb is_octet (first :: rest)) eqn:F; [|discriminate].
  cbn [negb] in D. apply octets_forall in F.
  inversion F as [|? ? Hf Hr]; subst. unfold is_byte in Hf.
  destruct (first <? 128) eqn:E.
  { destruct rest; [|discriminate]. injection D as <-. now rewrite E. }
  apply Z.ltb_ge in E.
  destruct ((first - 128 =? Z.of_nat (List.length rest))
            && (0 <? Z.of_nat (List.length rest))
            && (0 <? hd 0 rest) && (128 <=? be_value rest)) eqn:C; [|discriminate].
  injection D as D.
  apply andb_true_iff in C as [C V]. apply andb_true_iff in C as [C P].
  apply andb_true_iff in C as [K _].
  apply Z.eqb_eq in K. apply Z.leb_le in V. apply Z.ltb_lt in P.
  replace (len <? 128) with false by (symmetry; apply Z.ltb_ge; lia).
  destruct rest as [|d [|a [|b [|c [|x tail]]]]]; cbn [List.length hd] in *;
    unfold be_value in *; cbn [fold_left] in *;
    repeat match goal with
           | G : Forall is_byte (_ :: _) |- _ =>
               let B := fresh "B" in
               apply Forall_cons_iff in G as [B G]; unfold is_byte in B
           end.
  - lia.
  - replace (len <? 256) with true by (symmetry; apply Z.ltb_lt; lia).
    repeat f_equal; lia.
  - replace (len <? 256) with false by (symmetry; apply Z.ltb_ge; lia).
    replace (len <? 65536) with true by (symmetry; apply Z.ltb_lt; lia).
    repeat f_equal; Z.div_mod_to_equations; lia.
  - replace (len <? 256) with false by (symmetry; apply Z.ltb_ge; lia).
    replace (len <? 65536) with false by (symmetry; apply Z.ltb_ge; lia).
    replace (len <? 16777216) with true by (symmetry; apply Z.ltb_lt; lia).
    repeat f_equal; Z.div_mod_to_equations; lia.
  - replace (len <? 256) with false by (symmetry; apply Z.ltb_ge; lia).
    replace (len <? 65536) with false by (symmetry; apply Z.ltb_ge; lia).
    replace (len <? 16777216) with false by (symmetry; apply Z.ltb_ge; lia).
    repeat f_equal; Z.div_mod_to_equations; lia.
  - exfalso.
    pose proof (fold_octets_lower tail
                  (((((0 * 256 + d) * 256 + a) * 256 + b) * 256 + c) * 256 + x)) as Low.
    assert (Low' := Low ltac:(lia) ltac:(assumption)). lia.
Qed.

(** X1.  The octets that [encodeLength] writes for a length below [2^31]
    are octets, and they are the length itself below 128 and otherwise
    [0x80 + k] and then the [k] octets of the length, most significant
    first and with no leading zero.  A reader that refuses non-octets and
    every longer form reads them back as that length, whatever follows
    them, and no other octets stand for that length. *)
Theorem encodeLength_round_trip (len : Z) (rest : list Z) :
  0 <= len < 2 ^ 31 ->
  read_length (encodeLength len ++ rest) = Some (len, rest)
  /\ der_length_decode (encodeLength len) = Some len
  /\ Forall is_byte (encodeLength len)
  /\ encodeLength len
     = (if len <? 128 then [len]
        else if len <? 256 then [129; len]
        else if len <? 65536 then [130; len / 256; len mod 256]
        else if len <? 16777216 then [131; len / 65536; len / 256 mod 256; len mod 256]
        else [132; len / 16777216; len / 65536 mod 256; len / 256 mod 256; len mod 256])
  /\ (forall octets, der_length_decode octets = Some len -> octets = encodeLength len).
Proof.
  intros H. split; [now apply read_length_encodeLength|].
  split; [now apply encodeLength_decodes|].
  split; [apply encodeLength_bytes|].
  split; [now apply encodeLength_cases|].
  intros octets. now apply der_length_unique.
Qed.

(** The length 300 takes two octets after [0x82]; the same length with a
    zero in front is refused, as is 127 in the long form. *)
Lemma encodeLength_round_trip_witness :
  0 <= 300 < 2 ^ 31
  /\ encodeLength 300 = [130; 1; 44]
  /\ read_length (encodeLength 300 ++ [7]) = Some (300, [7])
  /\ der_length_decode [131; 0; 1; 44] = None
  /\ der_length_decode [129; 127] = None.
Proof.
  split; [lia|]. split; [reflexivity|].
  destruct (encodeLength_round_trip 300 [7]) as [R _]; [lia|].
  split; [exact R|]. split; reflexivity.
Defined.

(** A tag, the octets of [encodeLength] for the content and the content
    are read back as one element. *)
Lemma expect_tlv_written (tag : Z) (c rest : list Z) :
  is_byte tag -> Forall is_byte c ->
  buffer_length c < 2 ^ 31 ->
  expect_tlv tag ([tag] ++ encodeLength (buffer_length c) ++ c ++ rest) = Some (c, rest).
Proof.
  intros T F H. unfold expect_tlv, read_tlv. cbn [app].
  replace (is_octet tag) with true by (symmetry; now apply is_octet_spec).
  cbn [negb].
  rewrite read_length_encodeLength by (unfold buffer_length in *; lia).
  unfold buffer_length. rewrite Nat2Z.id, length_app.
  replace ((0 <=? Z.of_nat (List.length c))
           && (Z.of_nat (List.length c) <=? Z.of_nat (List.length c + List.length rest)))
    with true by (symmetry; apply andb_true_iff; split; apply Z.leb_le; lia).
  rewrite firstn_app_exact, skipn_app_exact, forallb_octets by assumption.
  cbn [andb]. rewrite Z.eqb_refl. reflexivity.
Qed.

Lemma integer_written (v : list Z) :
  createASN1Integer v
  = [2] ++ encodeLength (buffer_length (integer_content v)) ++ integer_content v.
Proof.
  unfold createASN1Integer, integer_content. destruct v as [|first rest]; [reflexivity|].
  destruct (first >=? 128); reflexivity.
Qed.

Lemma integer_content_length (v : list Z) :
  buffer_length v <= buffer_length (integer_content v) <= buffer_length v + 1.
Proof.
  unfold integer_content, buffer_length. destruct v as [|first rest]; [cbn; lia|].
  destruct (first >=? 128); cbn [List.length]; lia.
Qed.

Lemma integer_length (v : list Z) :
  buffer_length v < 2 ^ 31 - 1 ->
  buffer_length (createASN1Integer v) <= buffer_length v + 7.
Proof.
  intros H. rewrite integer_written. pose proof (integer_content_length v) as C.
  pose proof (encodeLength_short (buffer_length (integer_content v))) as S.
  unfold buffer_length in *. rewrite !length_app. cbn [List.length].
  assert (0 <= Z.of_nat (List.length (integer_content v)) < 2 ^ 31) by lia.
  specialize (S ltac:(assumption)). lia.
Qed.

(** The unsigned value of the content is the unsigned value of the bytes,
    and the content of a non-empty byte string does not start with a set
    high bit. *)
Lemma integer_content_value (v : list Z) :
  be_value (integer_content v) = be_value v.
Proof.
  unfold integer_content. destruct v as [|first rest]; [reflexivity|].
  destruct (first >=? 128); reflexivity.
Qed.

Lemma integer_content_bytes (v : list Z) :
  Forall is_byte v -> Forall is_byte (integer_content v).
Proof.
  intros F. unfold integer_content. destruct v as [|first rest]; [assumption|].
  destruct (first >=? 128); [constructor; [unfold is_byte; lia | assumption] | assumption].
Qed.

Lemma createASN1Integer_bytes (v : Buffer) :
  Forall is_byte v -> Forall is_byte (createASN1Integer v).
Proof.
  intros F. rewrite integer_written.
  constructor; [unfold is_byte; lia|]. apply Forall_app. split; [apply encodeLength_bytes|].
  now apply integer_content_bytes.
Qed.

Lemma rsaOID_bytes : Forall is_byte rsaOID.
Proof. unfold rsaOID, is_byte. repeat constructor; lia. Qed.

Lemma createRSAPublicKeyDER_bytes (n e : Buffer) :
  Forall is_byte n -> Forall is_byte e -> Forall is_byte (createRSAPublicKeyDER n e).
Proof.
  intros Fn Fe. unfold createRSAPublicKeyDER.
  pose proof (createASN1Integer_bytes n Fn) as In.
  pose proof (createASN1Integer_bytes e Fe) as Ie.
  set (nInteger := createASN1Integer n) in *.
  set (eInteger := createASN1Integer e) in *. clearbody nInteger eInteger.
  repeat (apply Forall_app; split);
    try apply encodeLength_bytes; try apply rsaOID_bytes; try assumption;
    (constructor; [unfold is_byte; lia | constructor]).
Qed.

(** The INTEGER that [createASN1Integer] writes for unsigned bytes is read
    back as their value when the bytes are not empty and carry no
    superfluous leading zero, and is refused otherwise. *)
Lemma read_integer_written (v rest : list Z) :
  Forall is_byte v -> buffer_length v < 2 ^ 31 - 1 ->
  read_integer (createASN1Integer v ++ rest)
  = if minimal_unsigned v then Some (be_value v, rest) else None.
Proof.
  intros F H. pose proof (integer_content_length v) as C.
  unfold read_integer. rewrite integer_written, <- !app_assoc.
  rewrite expect_tlv_written
    by (try (unfold is_byte; lia); try (now apply integer_content_bytes); lia).
  unfold integer_content, well_formed_integer, minimal_unsigned, integer_value.
  destruct v as [|first [|second tail]]; [reflexivity| |].
  - destruct (first >=? 128) eqn:E.
    + cbn [hd]. replace (first <? 128) with false
        by (symmetry; apply Z.ltb_ge; apply Z.geb_le in E; lia).
      reflexivity.
    + cbn [hd]. replace (128 <=? first) with false
        by (symmetry; rewrite Z.geb_leb in E; exact E).
      reflexivity.
  - destruct (first >=? 128) eqn:E.
    + cbn [hd]. replace (first <? 128) with false
        by (symmetry; apply Z.ltb_ge; apply Z.geb_le in E; lia).
      replace (first =? 0) with false
        by (symmetry; apply Z.eqb_neq; apply Z.geb_le in E; lia).
      reflexivity.
    + cbn [hd]. rewrite Z.geb_leb in E. rewrite E.
      replace (first =? 255) with false
        by (symmetry; apply Z.eqb_neq; apply Z.leb_gt in E; lia).
      cbn [andb negb]. rewrite andb_true_r. reflexivity.
Qed.

(** The output of [createRSAPublicKeyDER] is read by [read_spki] down to
    the two INTEGERs, with nothing left over. *)
Lemma read_spki_written (n e : Buffer) :
  Forall is_byte n -> Forall is_byte e ->
  buffer_length n + buffer_length e < 2 ^ 30 ->
  read_spki (createRSAPublicKeyDER n e)
  = read_two_integers (createASN1Integer n ++ createASN1Integer e).
Proof.
  intros Fn Fe H.
  assert (Ln : 0 <= buffer_length n) by (unfold buffer_length; lia).
  assert (Le : 0 <= buffer_length e) by (unfold buffer_length; lia).
  pose proof (integer_length n ltac:(lia)) as In.
  pose proof (integer_length e ltac:(lia)) as Ie.
  pose proof (createASN1Integer_bytes n Fn) as Bn.
  pose proof (createASN1Integer_bytes e Fe) as Be.
  unfold createRSAPublicKeyDER, read_spki.
  set (nInteger := createASN1Integer n) in *.
  set (eInteger := createASN1Integer e) in *.
  set (ints := nInteger ++ eInteger).
  assert (Bints : Forall is_byte ints) by (apply Forall_app; now split).
  assert (Lints : buffer_length ints = buffer_length nInteger + buffer_length eInteger)
    by (unfold ints, buffer_length; rewrite length_app; lia).
  rewrite <- Lints.
  set (innerSequence := [48] ++ encodeLength (buffer_length ints) ++ ints).
  assert (Binner : Forall is_byte innerSequence).
  { unfold innerSequence. constructor; [unfold is_byte; lia|].
    apply Forall_app. split; [apply encodeLength_bytes | assumption]. }
  assert (Linner : buffer_length innerSequence <= buffer_length ints + 6).
  { pose proof (encodeLength_short (buffer_length ints)
                  ltac:(unfold buffer_length in *; lia)) as Sh.
    unfold innerSequence, buffer_length in *. rewrite !length_app. cbn [List.length]. lia. }
  set (bitContent := [0] ++ innerSequence).
  assert (Bbit : Forall is_byte bitContent)
    by (unfold bitContent; constructor; [unfold is_byte; lia | assumption]).
  assert (Lbit : buffer_length bitContent = buffer_length innerSequence + 1)
    by (unfold bitContent, buffer_length; rewrite length_app; cbn [List.length]; lia).
  rewrite <- Lbit.
  set (bitString := [3] ++ encodeLength (buffer_length bitContent) ++ bitContent).
  assert (Bbs : Forall is_byte bitString).
  { unfold bitString. constructor; [unfold is_byte; lia|].
    apply Forall_app. split; [apply encodeLength_bytes | assumption]. }
  assert (Lbs : buffer_length bitString <= buffer_length bitContent + 6).
  { pose proof (encodeLength_short (buffer_length bitContent)
                  ltac:(unfold buffer_length in *; lia)) as Sh.
    unfold bitString, buffer_length in *. rewrite !length_app. cbn [List.length]. lia. }
  set (body := rsaOID ++ bitString).
  assert (Bbody : Forall is_byte body)
    by (apply Forall_app; split; [apply rsaOID_bytes | assumption]).
  assert (Lbody : buffer_length body = buffer_length rsaOID + buffer_length bitString)
    by (unfold body, buffer_length; rewrite length_app; lia).
  rewrite <- Lbody.
  assert (LO : buffer_length rsaOID = 15) by reflexivity.
  assert (T48 : is_byte 48) by (unfold is_byte; lia).
  assert (T3 : is_byte 3) by (unfold is_byte; lia).
  (* the outer SEQUENCE *)
  replace ([48] ++ encodeLength (buffer_length body) ++ body)
    with ([48] ++ encodeLength (buffer_length body) ++ body ++ [])
    by (now rewrite app_nil_r).
  rewrite expect_tlv_written by (try assumption; unfold buffer_length in *; lia).
  (* the algorithm identifier *)
  unfold body.
  change (expect_tlv 48 (rsaOID ++ bitString))
    with (expect_tlv 48 ([48] ++ encodeLength (buffer_length rsaEncryption_algorithm)
                          ++ rsaEncryption_algorithm ++ bitString)).
  rewrite expect_tlv_written
    by (try assumption; try (vm_compute; reflexivity);
        unfold rsaEncryption_algorithm, is_byte; repeat constructor; lia).
  destruct (list_eq_dec Z.eq_dec rsaEncryption_algorithm rsaEncryption_algorithm)
    as [_|N]; [|contradiction].
  (* the BIT STRING *)
  unfold bitString.
  replace ([3] ++ encodeLength (buffer_length bitContent) ++ bitContent)
    with ([3] ++ encodeLength (buffer_length bitContent) ++ bitContent ++ [])
    by (now rewrite app_nil_r).
  rewrite expect_tlv_written by (try assumption; unfold buffer_length in *; lia).
  unfold bitContent. cbn [app].
  (* the SEQUENCE of the two INTEGERs *)
  unfold innerSequence.
  replace ([48] ++ encodeLength (buffer_length ints) ++ ints)
    with ([48] ++ encodeLength (buffer_length ints) ++ ints ++ [])
    by (now rewrite app_nil_r).
  rewrite expect_tlv_written by (try assumption; unfold buffer_length in *; lia).
  reflexivity.
Qed.

Lemma read_two_integers_written (n e : Buffer) :
  Forall is_byte n -> Forall is_byte e ->
  buffer_length n + buffer_length e < 2 ^ 30 ->
  read_two_integers (createASN1Integer n ++ createASN1Integer e)
  = if minimal_unsigned n && minimal_unsigned e
    then Some (be_value n, be_value e) else None.
Proof.
  intros Fn Fe H.
  assert (Ln : 0 <= buffer_length n) by (unfold buffer_length; lia).
  assert (Le : 0 <= buffer_length e) by (unfold buffer_length; lia).
  unfold read_two_integers. rewrite read_integer_written by (try assumption; lia).
  destruct (minimal_unsigned n); [|reflexivity].
  rewrite <- (app_nil_r (createASN1Integer e)).
  rewrite read_integer_written by (try assumption; lia).
  destruct (minimal_unsigned e); reflexivity.
Qed.

(** X2.  For a modulus and an exponent of octets, of less than [2^30]
    bytes together, the output of [createRSAPublicKeyDER] is a string of
    octets.  A reader of DER that refuses non-octets, lengths not in their
    shortest form, an INTEGER without content and an INTEGER with a
    superfluous leading octet reads it, with nothing left over, as
    SEQUENCE { SEQUENCE { rsaEncryption, NULL }, BIT STRING with no unused
    bit { SEQUENCE { INTEGER, INTEGER } } } and returns the values of the
    modulus and of the exponent, when neither is empty nor starts with a
    superfluous zero byte.  When one of them is empty or starts with such
    a byte, the bytes are written as they are and the reader refuses the
    output. *)
Theorem createRSAPublicKeyDER_round_trip (n e : Buffer) :
  Forall is_byte n -> Forall is_byte e ->
  buffer_length n + buffer_length e < 2 ^ 30 ->
  Forall is_byte (createRSAPublicKeyDER n e)
  /\ read_spki (createRSAPublicKeyDER n e)
     = (if minimal_unsigned n && minimal_unsigned e
        then Some (be_value n, be_value e) else None)
  /\ (0 <= be_value n /\ 0 <= be_value e).
Proof.
  intros Fn Fe H. split; [now apply createRSAPublicKeyDER_bytes|]. split.
  - rewrite read_spki_written by assumption. now apply read_two_integers_written.
  - unfold be_value. split; apply fold_octets_lower; (lia || assumption).
Qed.

(** The key [n = 0x8001], [e = 0x010001] is read back; with a zero byte in
    front of the exponent the output is refused. *)
Lemma createRSAPublicKeyDER_round_trip_witness :
  (Forall is_byte [128; 1] /\ Forall is_byte [1; 0; 1]
   /\ buffer_length [128; 1] + buffer_length [1; 0; 1] < 2 ^ 30)
  /\ read_spki (createRSAPublicKeyDER [128; 1] [1; 0; 1]) = Some (32769, 65537)
  /\ read_spki (createRSAPublicKeyDER [128; 1] [0; 1; 0; 1]) = None.
Proof.
  assert (B : forall l, forallb is_octet l = true -> Forall is_byte l)
    by exact octets_forall.
  split; [split; [now apply B | split; [now apply B | vm_compute; reflexivity]]|].
  split.
  - destruct (createRSAPublicKeyDER_round_trip [128; 1] [1; 0; 1]) as (_ & R & _);
      [now apply B | now apply B | vm_compute; reflexivity | exact R].
  - destruct (createRSAPublicKeyDER_round_trip [128; 1] [0; 1; 0; 1]) as (_ & R & _);
      [now apply B | now apply B | vm_compute; reflexivity | exact R].
Defined.

End CodecRoundTrip.

(** ** Base64 and the PEM armour *)

Module PemRoundTrip.

Import AmpValidatorCodec DERReader DERParse PEMParse CodecFacts CodecRoundTrip.

Lemma sextets_ok : forallb sextet_ok (seq 0 64) = true.
Proof. vm_compute. reflexivity. Qed.

Lemma base64_char_spec (s : Z) :
  0 <= s < 64 ->
  unbase64 (base64_char s) = Some s
  /\ Ascii.eqb (base64_char s) "="%char = false
  /\ Ascii.eqb (base64_char s) "010"%char = false.
Proof.
  intros H. pose proof sextets_ok as A. rewrite forallb_forall in A.
  specialize (A (Z.to_nat s)). rewrite in_seq in A. specialize (A ltac:(lia)).
  unfold sextet_ok in A. rewrite Z2Nat.id in A by lia.
  destruct (unbase64 (base64_char s)) as [v|]; [|discriminate].
  apply andb_true_iff in A as [A C]. apply andb_true_iff in A as [A B].
  apply Z.eqb_eq in A. apply negb_true_iff in B, C. subst v. auto.
Qed.

Lemma sextets_cons (s : Z) (rest : string) :
  0 <= s < 64 ->
  base64_sextets (String (base64_char s) rest) = s :: base64_sextets rest.
Proof.
  intros H. destruct (base64_char_spec s H) as (U & E & _).
  cbn [base64_sextets]. now rewrite E, U.
Qed.

Lemma list_ind3 {A : Type} (P : list A -> Prop) :
  P [] -> (forall a, P [a]) -> (forall a b, P [a; b]) ->
  (forall a b c rest, P rest -> P (a :: b :: c :: rest)) ->
  forall l, P l.
Proof.
  intros P0 P1 P2 P3.
  assert (G : forall l, P l /\ (forall a, P (a :: l)) /\ (forall a b, P (a :: b :: l))).
  { induction l as [|x l (I0 & I1 & I2)]; [now auto|].
    split; [apply I1|]. split; [intros a; apply I2|]. intros a b. now apply P3. }
  intros l. apply G.
Qed.

Ltac byte_bounds :=
  repeat match goal with
         | H : Forall is_byte (_ :: _) |- _ => inversion H; subst; clear H
         end;
  unfold is_byte in *.

Ltac in_range := Z.div_mod_to_equations; lia.

(** [Buffer.from(buf.toString('base64'), 'base64')] gives the bytes back. *)
Lemma base64_decode_encode (bytes : Buffer) :
  Forall is_byte bytes -> base64_decode (base64_encode bytes) = bytes.
Proof.
  unfold base64_decode. induction bytes as [|a|a b|a b c rest IH] using list_ind3; intros F.
  - reflexivity.
  - byte_bounds. cbn [base64_encode].
    rewrite !sextets_cons by in_range. cbn. f_equal. in_range.
  - byte_bounds. cbn [base64_encode].
    rewrite !sextets_cons by in_range. cbn. f_equal; [|f_equal]; in_range.
  - byte_bounds. cbn [base64_encode].
    rewrite !sextets_cons by in_range. cbn [base64_groups].
    rewrite IH by assumption. f_equal; [|f_equal; [|f_equal]]; in_range.
Qed.

(** *** Lines *)

Lemma base64_char_no_newline (s : Z) :
  0 <= s < 64 -> Ascii.eqb (base64_char s) "010"%char = false.
Proof. intros H. apply (base64_char_spec s H). Qed.

Lemma base64_encode_no_newline (bytes : Buffer) :
  Forall is_byte bytes -> no_newline (base64_encode bytes) = true.
Proof.
  induction bytes as [|a|a b|a b c rest IH] using list_ind3; intros F.
  - reflexivity.
  - byte_bounds. cbn [base64_encode no_newline].
    rewrite !base64_char_no_newline by in_range. reflexivity.
  - byte_bounds. cbn [base64_encode no_newline].
    rewrite !base64_char_no_newline by in_range. reflexivity.
  - byte_bounds. cbn [base64_encode no_newline].
    rewrite !base64_char_no_newline by in_range.
    rewrite IH by assumption. reflexivity.
Qed.

Lemma string_take_no_newline (n : nat) (s : string) :
  no_newline s = true -> no_newline (string_take n s) = true.
Proof.
  revert s. induction n as [|n IH]; intros [|c rest] H; try reflexivity.
  cbn in *. apply andb_true_iff in H as [C R]. now rewrite C, IH.
Qed.

Lemma string_drop_no_newline (n : nat) (s : string) :
  no_newline s = true -> no_newline (string_drop n s) = true.
Proof.
  revert s. induction n as [|n IH]; intros [|c rest] H; try assumption.
  cbn in *. apply andb_true_iff in H as [C R]. now apply IH.
Qed.

Lemma chunks64_no_newline (fuel : nat) (s : string) :
  no_newline s = true -> Forall (fun line => no_newline line = true) (chunks64 fuel s).
Proof.
  revert s. induction fuel as [|fuel IH]; intros s H.
  - destruct s; constructor.
  - destruct s as [|c rest]; [constructor|]. cbn [chunks64]. constructor.
    + now apply string_take_no_newline.
    + apply IH. now apply string_drop_no_newline.
Qed.

Lemma split_lines_one (line : string) :
  no_newline line = true -> split_lines line = [line].
Proof.
  induction line as [|c rest IH]; [reflexivity|]. cbn. intros H.
  apply andb_true_iff in H as [C R]. apply negb_true_iff in C.
  now rewrite C, IH.
Qed.

Lemma split_lines_cons (line rest : string) :
  no_newline line = true ->
  split_lines (line +++ newline +++ rest) = line :: split_lines rest.
Proof.
  induction line as [|c line IH]; [reflexivity|]. intros H.
  cbn [no_newline] in H. apply andb_true_iff in H as [C R]. apply negb_true_iff in C.
  cbn [String.append split_lines]. rewrite C. now rewrite IH.
Qed.

Lemma split_lines_concat (line : string) (lines : list string) :
  Forall (fun l => no_newline l = true) (line :: lines) ->
  split_lines (String.concat newline (line :: lines)) = line :: lines.
Proof.
  revert line. induction lines as [|next lines IH]; intros line F.
  - apply split_lines_one. now inversion F.
  - inversion F; subst.
    change (String.concat newline (line :: next :: lines))
      with (line +++ newline +++ String.concat newline (next :: lines)).
    rewrite split_lines_cons by assumption. now rewrite IH.
Qed.

(** *** Chunks *)

Lemma string_take_drop (n : nat) (s : string) :
  string_take n s +++ string_drop n s = s.
Proof.
  revert s. induction n as [|n IH]; intros [|c rest]; try reflexivity.
  cbn. now rewrite IH.
Qed.

Lemma string_drop_length (n : nat) (s : string) :
  String.length (string_drop n s) = (String.length s - n)%nat.
Proof.
  revert s. induction n as [|n IH]; intros [|c rest];
    cbn [string_drop String.length]; try lia.
  rewrite IH. lia.
Qed.

Lemma string_take_length (n : nat) (s : string) :
  String.length (string_take n s) = Nat.min n (String.length s).
Proof.
  revert s. induction n as [|n IH]; intros [|c rest]; cbn; try reflexivity.
  now rewrite IH.
Qed.

Lemma append_empty_r (s : string) : s +++ "" = s.
Proof. induction s as [|c s IH]; [reflexivity|]. cbn. now rewrite IH. Qed.

Lemma concat_empty_cons (x : string) (xs : list string) :
  String.concat "" (x :: xs) = x +++ String.concat "" xs.
Proof.
  destruct xs as [|y ys]; [cbn; now rewrite append_empty_r | reflexivity].
Qed.

Lemma chunks64_concat (fuel : nat) (s : string) :
  (String.length s <= fuel)%nat -> String.concat "" (chunks64 fuel s) = s.
Proof.
  revert s. induction fuel as [|fuel IH]; intros s L.
  - destruct s; [reflexivity | cbn in L; lia].
  - destruct s as [|c rest]; [reflexivity|].
    cbn [chunks64]. rewrite concat_empty_cons, IH; [apply string_take_drop|].
    rewrite string_drop_length. cbn [String.length] in *. lia.
Qed.

Lemma chunks64_sizes (fuel : nat) (s : string) :
  Forall (fun line => (1 <= String.length line <= 64)%nat) (chunks64 fuel s).
Proof.
  revert s. induction fuel as [|fuel IH]; intros s.
  - destruct s; constructor.
  - destruct s as [|c rest]; [constructor|]. cbn [chunks64]. constructor; [|apply IH].
    rewrite string_take_length. cbn [String.length]. lia.
Qed.

Lemma pem_lines_written (body : list string) :
  Forall (fun l => no_newline l = true) body ->
  pem_lines (String.concat newline
               (["-----BEGIN PUBLIC KEY-----"] ++ body ++ ["-----END PUBLIC KEY-----"]))
  = Some body.
Proof.
  intros F. unfold pem_lines. cbn [app].
  rewrite split_lines_concat.
  - rewrite String.eqb_refl, rev_app_distr. cbn [rev app].
    rewrite String.eqb_refl, rev_involutive. reflexivity.
  - constructor; [reflexivity|]. apply Forall_app. split; [assumption|].
    constructor; [reflexivity | constructor].
Qed.

Lemma read_pem_written (der : Buffer) :
  Forall is_byte der -> read_pem (pem_of_der der) = Some der.
Proof.
  intros F. unfold read_pem, pem_of_der.
  rewrite pem_lines_written
    by (apply chunks64_no_newline; now apply base64_encode_no_newline).
  rewrite chunks64_concat by lia. now rewrite base64_decode_encode.
Qed.

(** *** Bytes in, bytes out *)

Lemma unbase64_range (c : ascii) (v : Z) : unbase64 c = Some v -> 0 <= v < 64.
Proof.
  unfold unbase64. intros H.
  repeat match type of H with
         | (if ?b then _ else _) = _ => destruct b eqn:?
         end;
    try discriminate; injection H as <-;
    repeat match goal with
           | E : (_ && _) = true |- _ => apply andb_true_iff in E as [? ?]
           | E : (_ <=? _) = true |- _ => apply Z.leb_le in E
           end; lia.
Qed.

Lemma base64_sextets_range (s : string) :
  Forall (fun v => 0 <= v < 64) (base64_sextets s).
Proof.
  induction s as [|c rest IH]; [constructor|]. cbn [base64_sextets].
  destruct (Ascii.eqb c "="%char); [constructor|].
  destruct (unbase64 c) as [v|] eqn:U; [|assumption].
  constructor; [now apply (unbase64_range c) | assumption].
Qed.

Lemma base64_groups_bytes (sextets : list Z) :
  Forall (fun v => 0 <= v < 64) sextets -> Forall is_byte (base64_groups sextets).
Proof.
  assert (G : forall k l, (List.length l <= k)%nat ->
              Forall (fun v => 0 <= v < 64) l -> Forall is_byte (base64_groups l)).
  { induction k as [|k IH]; intros l L F.
    - destruct l; [constructor | cbn in L; lia].
    - destruct l as [|a [|b [|c [|d rest]]]]; cbn [base64_groups]; try constructor;
        repeat match goal with
               | H : Forall _ (_ :: _) |- _ => inversion H; subst; clear H
               end; unfold is_byte.
      all: try in_range.
      all: repeat (constructor; [in_range|]); try constructor.
      apply IH; [cbn [List.length] in L; lia | assumption]. }
  intros F. now apply (G (List.length sextets)).
Qed.

(** [Buffer.from(s, 'base64url')] holds bytes, whatever the text. *)
Lemma base64_decode_bytes (s : string) : Forall is_byte (base64_decode s).
Proof. apply base64_groups_bytes, base64_sextets_range. Qed.

(** X3.  The PEM text written for a DER byte string has the BEGIN line,
    then the base64 text of the bytes cut into lines of 1 to 64
    characters, then the END line; joining the middle lines gives the
    base64 text, and decoding it with the program's base64 decoder gives
    the bytes back. *)
Theorem pem_of_der_round_trip (der : Buffer) :
  Forall is_byte der ->
  exists body,
    split_lines (pem_of_der der)
    = ["-----BEGIN PUBLIC KEY-----"] ++ body ++ ["-----END PUBLIC KEY-----"]
    /\ Forall (fun line => (1 <= String.length line <= 64)%nat
                          /\ no_newline line = true) body
    /\ String.concat "" body = base64_encode der
    /\ base64_decode (String.concat "" body) = der
    /\ read_pem (pem_of_der der) = Some der.
Proof.
  intros F. exists (chunks64 (String.length (base64_encode der)) (base64_encode der)).
  pose proof (chunks64_no_newline (String.length (base64_encode der)) (base64_encode der)
                (base64_encode_no_newline der F)) as N.
  split.
  { unfold pem_of_der. cbn [app]. apply split_lines_concat.
    constructor; [reflexivity|]. apply Forall_app. split; [assumption|].
    constructor; [reflexivity | constructor]. }
  split.
  { apply Forall_forall. intros line I. split.
    - pose proof (chunks64_sizes (String.length (base64_encode der)) (base64_encode der)) as S.
      rewrite Forall_forall in S. now apply S.
    - rewrite Forall_forall in N. now apply N. }
  rewrite chunks64_concat by lia.
  split; [reflexivity|]. split; [now apply base64_decode_encode|].
  now apply read_pem_written.
Qed.

Lemma pem_of_der_round_trip_witness :
  Forall is_byte [48; 0]
  /\ read_pem (pem_of_der [48; 0]) = Some [48; 0].
Proof.
  assert (F : Forall is_byte [48; 0]) by (repeat constructor; unfold is_byte; lia).
  split; [exact F|].
  destruct (pem_of_der_round_trip [48; 0] F) as (body & _ & _ & _ & _ & R). exact R.
Defined.

(** X4.  When the [n] and [e] fields of a key descriptor convert to
    bytes, [jwkToPem] returns a PEM text that carries the key: read back
    (armour, base64, SubjectPublicKeyInfo in DER), it gives the values of
    the two byte strings as the modulus and the exponent, when neither is
    empty nor starts with a superfluous zero byte, and is refused by the
    reader of DER otherwise.  When a field does not convert, [jwkToPem]
    throws what the conversion throws, the [n] field first.  A field that
    is a text always converts, to the bytes of its base64url reading. *)
Theorem jwkToPem_key_read_back (jwk : Jwk) :
  (forall n e,
     Buffer_from (n_field jwk) = Returned n ->
     Buffer_from (e_field jwk) = Returned e ->
     Forall is_byte n -> Forall is_byte e ->
     buffer_length n + buffer_length e < 2 ^ 30 ->
     exists pem,
       jwkToPem jwk = Returned pem
       /\ read_public_key pem
          = (if minimal_unsigned n && minimal_unsigned e
             then Some (be_value n, be_value e) else None))
  /\ (forall message,
        Buffer_from (n_field jwk) = Thrown message -> jwkToPem jwk = Thrown message)
  /\ (forall n message,
        Buffer_from (n_field jwk) = Returned n ->
        Buffer_from (e_field jwk) = Thrown message -> jwkToPem jwk = Thrown message)
  /\ (forall s,
        Buffer_from (Text s) = Returned (base64_decode s)
        /\ Forall is_byte (base64_decode s)).
Proof.
  split; [|split; [|split]].
  - intros n e Hn He Fn Fe H.
    exists (pem_of_der (createRSAPublicKeyDER n e)).
    split; [unfold jwkToPem; now rewrite Hn, He|].
    unfold read_public_key.
    rewrite read_pem_written by (now apply createRSAPublicKeyDER_bytes).
    rewrite read_spki_written by assumption. now apply read_two_integers_written.
  - intros message Hn. unfold jwkToPem. now rewrite Hn.
  - intros n message Hn He. unfold jwkToPem. now rewrite Hn, He.
  - intros s. split; [reflexivity | apply base64_decode_bytes].
Qed.

(** The descriptor with [n = "gAE"] (bytes 80 01) and [e = "AQAB"]
    (bytes 01 00 01), and one whose [e] is a number. *)
Lemma jwkToPem_key_read_back_witness :
  (exists pem,
     jwkToPem (mkKeyData "k1" "gAE" "AQAB") = Returned pem
     /\ read_public_key pem = Some (32769, 65537))
  /\ jwkToPem (mkJwk "k1" (Text "gAE") (NotText (Thrown "not a buffer")))
     = Thrown "not a buffer".
Proof.
  split.
  - destruct (jwkToPem_key_read_back (mkKeyData "k1" "gAE" "AQAB")) as (A & _).
    destruct (A (base64_decode "gAE") (base64_decode "AQAB")) as (pem & J & R);
      [reflexivity | reflexivity | apply base64_decode_bytes | apply base64_decode_bytes
      | vm_compute; reflexivity |].
    exists pem. split; [exact J|]. rewrite R. vm_compute. reflexivity.
  - destruct (jwkToPem_key_read_back
                (mkJwk "k1" (Text "gAE") (NotText (Thrown "not a buffer"))))
      as (_ & _ & A & _).
    now apply (A (base64_decode "gAE")).
Defined.

End PemRoundTrip.

(** ** The verification loop and the key cache *)

Module ValidatorMore.

Import AmpValidatorCodec JS AmpValidator KeyCache Vocabulary ValidatorFacts.

Lemma verify_key_ids_cons_verify (k p m : string) (sb : Buffer) (evs : list Event) :
  verify_key_ids (Verify k p m sb :: evs) = verify_key_ids evs ++ [k].
Proof. reflexivity. Qed.

Lemma verify_key_ids_cons_log (l : Level) (m : string) (evs : list Event) :
  verify_key_ids (Log l m :: evs) = verify_key_ids evs.
Proof. reflexivity. Qed.

(** The loop changes nothing but the event trace. *)
Lemma verify_loop_state (w : World) (message : string) (sb : Buffer)
    (keys : list (string * string)) (st : Sys) :
  let st' := snd (verify_loop w message sb keys st) in
  publicKeys st' = publicKeys st /\ lastKeyFetch st' = lastKeyFetch st
  /\ clockReads st' = clockReads st /\ fetchCount st' = fetchCount st.
Proof.
  revert st. induction keys as [|[k p] rest IH]; intros st; [cbn; auto|].
  cbn [verify_loop]. destruct (rsa_verify w p message sb) as [[|]|m].
  - cbn. auto.
  - apply (IH (emit _ st)).
  - apply (IH (emit _ (emit _ st))).
Qed.

(** Keys that do not accept are tried in the order of the map and passed
    over, whether the primitive answers [false] or raises. *)
Lemma verify_loop_skips (w : World) (message : string) (sb : Buffer)
    (before rest : list (string * string)) (st : Sys) :
  Forall (fun kp => rsa_verify w (snd kp) message sb <> Returned true) before ->
  exists st1,
    verify_loop w message sb (before ++ rest) st = verify_loop w message sb rest st1
    /\ verify_key_ids (events st1) = verify_key_ids (events st) ++ map fst before.
Proof.
  revert st. induction before as [|[k p] before IH]; intros st F.
  - exists st. cbn. now rewrite app_nil_r.
  - inversion F as [|? ? N F']; subst. cbn [snd] in N.
    cbn [app verify_loop]. destruct (rsa_verify w p message sb) as [[|]|m].
    + contradiction.
    + destruct (IH (emit (Verify k p message sb) st) F') as (st1 & E & V).
      exists st1. split; [exact E|]. rewrite V. cbn [emit events].
      rewrite verify_key_ids_cons_verify, <- app_assoc. reflexivity.
    + destruct (IH (emit (Log LWarn "Failed to verify with key")
                      (emit (Verify k p message sb) st)) F') as (st1 & E & V).
      exists st1. split; [exact E|]. rewrite V. cbn [emit events].
      rewrite verify_key_ids_cons_log, verify_key_ids_cons_verify, <- app_assoc.
      reflexivity.
Qed.

(** X5.  The loop over the key map stops at the first key that accepts:
    the keys before it, which answered [false] or raised, were each tried
    once in map order, the accepting key was tried last, no key after it
    was tried, and the result names the accepting key.  When no key
    accepts, every key was tried once and the result is the generic
    failure. *)
Theorem first_accepting_key_wins (w : World) (message : string) (sb : Buffer)
    (before after : list (string * string)) (keyId pem : string) (st : Sys) :
  Forall (fun kp => rsa_verify w (snd kp) message sb <> Returned true) before ->
  (rsa_verify w pem message sb = Returned true ->
   let r := verify_loop w message sb (before ++ (keyId, pem) :: after) st in
   fst r = mkValidation true (Some keyId) None
   /\ verify_key_ids (events (snd r))
      = verify_key_ids (events st) ++ map fst before ++ [keyId])
  /\ (let r := verify_loop w message sb before st in
      fst r = verification_failed
      /\ verify_key_ids (events (snd r)) = verify_key_ids (events st) ++ map fst before).
Proof.
  intros F. split.
  - intros A. cbv zeta.
    destruct (verify_loop_skips w message sb before ((keyId, pem) :: after) st F)
      as (st1 & E & V).
    rewrite E. cbn [verify_loop]. rewrite A. cbn [fst snd emit events].
    split; [reflexivity|].
    rewrite verify_key_ids_cons_log, verify_key_ids_cons_verify, V, <- app_assoc.
    reflexivity.
  - cbv zeta.
    destruct (verify_loop_skips w message sb before [] st F) as (st1 & E & V).
    rewrite app_nil_r in E. rewrite E. cbn [verify_loop fst snd]. auto.
Qed.

(** Three keys held; the first raises, the second accepts, the third
    would accept as well. *)
Lemma first_accepting_key_wins_witness :
  Forall (fun kp => rsa_verify MoreExamples.picky_world (snd kp) "m" [1] <> Returned true)
    [("k0", "bad")]
  /\ fst (verify_loop MoreExamples.picky_world "m" [1] MoreExamples.three_keys
            Examples.no_keys)
     = mkValidation true (Some "k1") None
  /\ verify_key_ids
       (events (snd (verify_loop MoreExamples.picky_world "m" [1] MoreExamples.three_keys
                       Examples.no_keys)))
     = ["k0"; "k1"].
Proof.
  assert (F : Forall (fun kp => rsa_verify MoreExamples.picky_world (snd kp) "m" [1]
                                <> Returned true) [("k0", "bad")])
    by (constructor; [cbn; discriminate | constructor]).
  split; [exact F|].
  destruct (first_accepting_key_wins MoreExamples.picky_world "m" [1] [("k0", "bad")]
              [("k2", "fine")] "k1" "good" Examples.no_keys F) as [A _].
  specialize (A eq_refl). cbv zeta in A. exact A.
Defined.

(** *** Acceptance *)

Lemma verify_loop_sound (w : World) (message : string) (sb : Buffer)
    (keys : list (string * string)) (st : Sys) :
  isValid (fst (verify_loop w message sb keys st)) = true ->
  exists keyId pem,
    In (keyId, pem) keys
    /\ rsa_verify w pem message sb = Returned true
    /\ fst (verify_loop w message sb keys st) = mkValidation true (Some keyId) None.
Proof.
  revert st. induction keys as [|[k p] rest IH]; intros st; [cbn; discriminate|].
  cbn [verify_loop]. destruct (rsa_verify w p message sb) as [[|]|m] eqn:R.
  - intros _. exists k, p. cbn. auto.
  - intros H. destruct (IH _ H) as (k' & p' & I & A & E). exists k', p'. cbn [In]. auto.
  - intros H. destruct (IH _ H) as (k' & p' & I & A & E). exists k', p'. cbn [In]. auto.
Qed.

Lemma prefix_of_good_format (signature : option string) :
  bad_signature_format signature = false ->
  exists s, signature = Some s /\ String.prefix "rsa-sha256=" s = true.
Proof.
  destruct signature as [s|]; [|discriminate]. cbn. intros H.
  apply orb_false_iff in H as [_ H]. apply negb_false_iff in H. now exists s.
Qed.

Lemma fresh_timestamp_spec (now : Z) (timestamp : string) :
  num_gt (num_abs_diff now (num_mul (parseInt timestamp) 1000)) maxTimeDiff = false
  <-> (parseInt timestamp = NaN
       \/ exists v, parseInt timestamp = Num v /\ Z.abs (now - v * 1000) <= 300000).
Proof.
  destruct (parseInt timestamp) as [|v]; cbn [num_mul num_abs_diff num_gt].
  - split; auto.
  - unfold maxTimeDiff. split.
    + intros H. right. exists v. split; [reflexivity|].
      rewrite Z.gtb_ltb in H. apply Z.ltb_ge in H. lia.
    + intros [H|(v' & E & H)]; [discriminate|]. injection E as <-.
      rewrite Z.gtb_ltb. apply Z.ltb_ge. lia.
Qed.

(** What an accepting answer implies. *)
Lemma acceptance_sound (w : World) (body : string) (signature : option string)
    (timestamp : string) (st : Sys) :
  isValid (fst (validateSignature w body signature timestamp st)) = true ->
  exists s keyId pem,
    signature = Some s
    /\ String.prefix "rsa-sha256=" s = true
    /\ (parseInt timestamp = NaN
        \/ exists v, parseInt timestamp = Num v
                     /\ Z.abs (clock w (clockReads st) - v * 1000) <= 300000)
    /\ In (keyId, pem) (publicKeys (snd (validateSignature w body signature timestamp st)))
    /\ rsa_verify w pem (timestamp +++ body) (base64_decode (string_drop 11 s))
       = Returned true
    /\ fst (validateSignature w body signature timestamp st)
       = mkValidation true (Some keyId) None.
Proof.
  destruct (bad_signature_format signature) eqn:B.
  { unfold validateSignature, validate_begin. rewrite B. cbn. discriminate. }
  destruct (prefix_of_good_format signature B) as (s & -> & P).
  rewrite validateSignature_unfold by assumption. cbv zeta.
  destruct (num_gt _ maxTimeDiff) eqn:G; [cbn; discriminate|].
  apply fresh_timestamp_spec in G.
  unfold key_lookup_and_verification.
  destruct (ensurePublicKeys w (snd (Date_now w st))) as [[u|m] st2];
    [|cbn; discriminate].
  unfold verify_phase. intros V.
  destruct (verify_loop_sound _ _ _ _ _ V) as (k & p & I & A & E).
  exists s, k, p. split; [reflexivity|]. split; [assumption|]. split; [assumption|].
  split; [|split; assumption].
  now rewrite (proj1 (verify_loop_state w (timestamp +++ body)
                        (base64_decode (string_drop 11 s)) (publicKeys st2) st2)).
Qed.

(** X6.  A call is answered [isValid: true] only if the signature header
    carries the [rsa-sha256=] prefix, the timestamp is unparseable or within
    five minutes of the clock, and a key held in the map at the end of the
    call made the RSA primitive accept the text of the timestamp followed
    by the body with the signature bytes decoded from the header; the
    answer names that key and carries no error. *)
Theorem accepted_only_by_a_held_key (w : World) (body : string) (signature : option string)
    (timestamp : string) (st : Sys) :
  isValid (fst (validateSignature w body signature timestamp st)) = true ->
  exists s keyId pem,
    signature = Some s
    /\ String.prefix "rsa-sha256=" s = true
    /\ (parseInt timestamp = NaN
        \/ exists v, parseInt timestamp = Num v
                     /\ Z.abs (clock w (clockReads st) - v * 1000) <= 300000)
    /\ In (keyId, pem) (publicKeys (snd (validateSignature w body signature timestamp st)))
    /\ rsa_verify w pem (timestamp +++ body) (base64_decode (string_drop 11 s))
       = Returned true
    /\ fst (validateSignature w body signature timestamp st)
       = mkValidation true (Some keyId) None.
Proof. apply acceptance_sound. Qed.

Lemma accepted_only_by_a_held_key_witness :
  isValid (fst (validateSignature Examples.accepting_world "{}" (Some "rsa-sha256=AAAA")
                  "1700000000" Examples.cached)) = true
  /\ exists keyId pem,
       In (keyId, pem)
         (publicKeys (snd (validateSignature Examples.accepting_world "{}"
                             (Some "rsa-sha256=AAAA") "1700000000" Examples.cached)))
       /\ rsa_verify Examples.accepting_world pem ("1700000000" +++ "{}")
            (base64_decode (string_drop 11 "rsa-sha256=AAAA")) = Returned true.
Proof.
  assert (V : isValid (fst (validateSignature Examples.accepting_world "{}"
                              (Some "rsa-sha256=AAAA") "1700000000" Examples.cached)) = true)
    by (vm_compute; reflexivity).
  split; [exact V|].
  destruct (accepted_only_by_a_held_key _ _ _ _ _ V) as (s & k & p & S & _ & _ & I & A & _).
  injection S as <-. exists k, p. split; assumption.
Defined.



End ValidatorMore.

(** ** The key cache across refreshes *)

Module KeyCacheFacts.

Import AmpValidatorCodec JS AmpValidator KeyCache Vocabulary ValidatorFacts ValidatorMore.

Lemma verify_loop_answer (w : World) (message : string) (sb : Buffer)
    (keys : list (string * string)) (st st' : Sys) :
  fst (verify_loop w message sb keys st) = fst (verify_loop w message sb keys st').
Proof.
  revert st st'. induction keys as [|[k p] rest IH]; intros st st'; [reflexivity|].
  cbn [verify_loop]. destruct (rsa_verify w p message sb) as [[|]|m];
    [reflexivity | apply IH | apply IH].
Qed.

Lemma ensure_catch_with_keys (message : string) (st : Sys) :
  publicKeys st <> [] ->
  let r := ensure_catch message st in
  fst r = Returned tt /\ publicKeys (snd r) = publicKeys st
  /\ lastKeyFetch (snd r) = lastKeyFetch st /\ fetchCount (snd r) = fetchCount st
  /\ clockReads (snd r) = clockReads st.
Proof.
  intros N. unfold ensure_catch. cbn [emit publicKeys]. unfold map_size.
  destruct (publicKeys st) as [|kp rest] eqn:E; [contradiction|].
  cbn [List.length]. replace (Z.of_nat (S (List.length rest)) =? 0) with false
    by (symmetry; apply Z.eqb_neq; lia).
  cbn. rewrite E. auto.
Qed.

Lemma ensure_finish_failure (now : Z) (reply : FetchReply) (st : Sys) :
  fetch_failed reply = true ->
  exists message, ensure_finish now reply st = ensure_catch message st.
Proof.
  destruct reply; cbn; intros H; try discriminate; eexists; reflexivity.
Qed.

Lemma ensure_begin_stale (w : World) (st : Sys) :
  (map_size (publicKeys st) >? 0)
    && (clock w (clockReads st) - lastKeyFetch st <? KEY_CACHE_TTL) = false ->
  ensure_begin w st
  = (Fetching (clock w (clockReads st)) (endpoint w (fetchCount st)),
     mkSys (publicKeys st) (lastKeyFetch st) (S (clockReads st)) (S (fetchCount st))
       (Log LInfo "Fetching AMP public keys from Google" :: events st)).
Proof.
  intros Stale. unfold ensure_begin. cbn [Date_now publicKeys lastKeyFetch].
  rewrite Stale. reflexivity.
Qed.

Lemma ensure_begin_fresh (w : World) (st : Sys) :
  (map_size (publicKeys st) >? 0)
    && (clock w (clockReads st) - lastKeyFetch st <? KEY_CACHE_TTL) = true ->
  ensure_begin w st = (KeysFresh, snd (Date_now w st)).
Proof.
  intros Fresh. unfold ensure_begin. cbn [Date_now publicKeys lastKeyFetch snd].
  rewrite Fresh. reflexivity.
Qed.

(** X8.  When the cache holds keys, its TTL has run out and the fetch
    fails in any of its four ways (network error, status not 2xx, body not
    JSON, no [keys] array), [ensurePublicKeys] returns normally: the keys
    and [lastKeyFetch] are as before, one fetch went out, and the call
    that asked for the keys gets the answer the cached keys give.  The
    cache is still stale afterwards. *)
Theorem failed_refresh_keeps_cached_keys (w : World) (body timestamp : string)
    (sb : Buffer) (st : Sys) :
  publicKeys st <> [] ->
  clock w (clockReads st) - lastKeyFetch st >= KEY_CACHE_TTL ->
  fetch_failed (endpoint w (fetchCount st)) = true ->
  let r := ensurePublicKeys w st in
  fst r = Returned tt
  /\ publicKeys (snd r) = publicKeys st
  /\ lastKeyFetch (snd r) = lastKeyFetch st
  /\ fetchCount (snd r) = S (fetchCount st)
  /\ fst (key_lookup_and_verification w body timestamp sb st)
     = fst (verify_phase w body timestamp sb st).
Proof.
  intros N T F. cbv zeta.
  assert (Stale : (map_size (publicKeys st) >? 0)
              && (clock w (clockReads st) - lastKeyFetch st <? KEY_CACHE_TTL) = false).
  { apply andb_false_iff. right. apply Z.ltb_ge. lia. }
  unfold key_lookup_and_verification, ensurePublicKeys.
  rewrite (ensure_begin_stale w st Stale).
  destruct (ensure_finish_failure (clock w (clockReads st)) _
              (mkSys (publicKeys st) (lastKeyFetch st) (S (clockReads st))
                 (S (fetchCount st))
                 (Log LInfo "Fetching AMP public keys from Google" :: events st)) F)
    as (message & ->).
  match goal with
  | |- context [ensure_catch message ?s] =>
      destruct (ensure_catch_with_keys message s N) as (R & K & L & C & _);
      destruct (ensure_catch message s) as [o st2]
  end.
  cbn [fst snd publicKeys lastKeyFetch fetchCount] in *. subst o.
  repeat (split; [assumption || reflexivity|]).
  unfold verify_phase. rewrite K. apply verify_loop_answer.
Qed.

Lemma failed_refresh_keeps_cached_keys_witness :
  publicKeys Examples.expired <> []
  /\ fetch_failed (endpoint Examples.unreachable_world (fetchCount Examples.expired)) = true
  /\ fst (ensurePublicKeys Examples.unreachable_world Examples.expired) = Returned tt
  /\ publicKeys (snd (ensurePublicKeys Examples.unreachable_world Examples.expired))
     = publicKeys Examples.expired.
Proof.
  assert (N : publicKeys Examples.expired <> []) by (cbn; discriminate).
  split; [exact N|]. split; [reflexivity|].
  destruct (failed_refresh_keeps_cached_keys Examples.unreachable_world "{}" "1700000000"
              [] Examples.expired N) as (R & K & _).
  - vm_compute. discriminate.
  - reflexivity.
  - split; assumption.
Defined.

(** *** A successful refresh *)

Lemma map_get_set_other {V : Type} (k k' : string) (v : V) (m : list (string * V)) :
  k' <> k -> map_get k (map_set k' v m) = map_get k m.
Proof.
  intros N. induction m as [|[k0 v0] rest IH]; cbn [map_set map_get].
  - destruct (String.eqb k' k) eqn:E; [apply String.eqb_eq in E; contradiction | reflexivity].
  - destruct (String.eqb k0 k') eqn:E0; cbn [map_get].
    + apply String.eqb_eq in E0. subst k0.
      destruct (String.eqb k' k) eqn:E; [apply String.eqb_eq in E; contradiction | reflexivity].
    + destruct (String.eqb k0 k); [reflexivity | apply IH].
Qed.

Lemma map_set_keys {V : Type} (k x : string) (v : V) (m : list (string * V)) :
  In x (map fst (map_set k v m)) -> x = k \/ In x (map fst m).
Proof.
  induction m as [|[k0 v0] rest IH]; cbn [map_set].
  - cbn. intros [H|[]]; auto.
  - destruct (String.eqb k0 k) eqn:E; cbn [map fst In].
    + apply String.eqb_eq in E. subst k0. tauto.
    + intros [H|H]; [tauto|]. destruct (IH H); tauto.
Qed.

Lemma map_set_NoDup {V : Type} (k : string) (v : V) (m : list (string * V)) :
  NoDup (map fst m) -> NoDup (map fst (map_set k v m)).
Proof.
  induction m as [|[k0 v0] rest IH]; cbn [map_set]; intros N.
  - cbn. constructor; [intros [] | constructor].
  - inversion N as [|? ? X N']; subst.
    destruct (String.eqb k0 k) eqn:E; cbn [map fst].
    + apply String.eqb_eq in E. subst k0. now constructor.
    + constructor; [|now apply IH]. intros I.
      destruct (map_set_keys _ _ _ _ I) as [->|I']; [|contradiction].
      rewrite String.eqb_refl in E. discriminate.
Qed.

Lemma add_key_keys (keyData : Jwk) (st : Sys) :
  publicKeys (add_key keyData st)
  = match stored_key keyData with
    | Some (k, publicKey) => map_set k publicKey (publicKeys st)
    | None => publicKeys st
    end.
Proof.
  unfold add_key, stored_key.
  destruct (negb (String.eqb (jwk_kid keyData) "") && field_truthy (n_field keyData)
            && field_truthy (e_field keyData)); [|reflexivity].
  destruct (jwkToPem keyData); reflexivity.
Qed.

Lemma add_key_fields (keyData : Jwk) (st : Sys) :
  lastKeyFetch (add_key keyData st) = lastKeyFetch st
  /\ fetchCount (add_key keyData st) = fetchCount st
  /\ clockReads (add_key keyData st) = clockReads st
  /\ (NoDup (map fst (publicKeys st)) -> NoDup (map fst (publicKeys (add_key keyData st)))).
Proof.
  split; [|split; [|split]].
  4: { rewrite add_key_keys. destruct (stored_key keyData) as [[k v]|];
         auto using map_set_NoDup. }
  all: unfold add_key;
    destruct (negb (String.eqb (jwk_kid keyData) "") && field_truthy (n_field keyData)
              && field_truthy (e_field keyData)); [|reflexivity];
    destruct (jwkToPem keyData); reflexivity.
Qed.

Lemma add_key_get (keyData : Jwk) (k : string) (st : Sys) :
  map_get k (publicKeys (add_key keyData st))
  = match stored_key keyData with
    | Some (k', publicKey) =>
        if String.eqb k' k then Some publicKey else map_get k (publicKeys st)
    | None => map_get k (publicKeys st)
    end.
Proof.
  rewrite add_key_keys. destruct (stored_key keyData) as [[k' v]|]; [|reflexivity].
  destruct (String.eqb k' k) eqn:E.
  - apply String.eqb_eq in E. subst k. apply map_get_set.
  - apply map_get_set_other. intros Q. rewrite Q, String.eqb_refl in E. discriminate.
Qed.

Lemma find_app {A : Type} (p : A -> bool) (l1 l2 : list A) :
  find p (l1 ++ l2) = match find p l1 with Some x => Some x | None => find p l2 end.
Proof.
  induction l1 as [|a l1 IH]; [reflexivity|]. cbn. destruct (p a); [reflexivity | apply IH].
Qed.

Lemma add_keys_fields (keys : list KeyEntry) (st : Sys) :
  let st' := snd (add_keys keys st) in
  lastKeyFetch st' = lastKeyFetch st
  /\ fetchCount st' = fetchCount st
  /\ clockReads st' = clockReads st
  /\ (NoDup (map fst (publicKeys st)) -> NoDup (map fst (publicKeys st'))).
Proof.
  revert st. induction keys as [|[message|kd] keys IH]; intros st; [cbn; auto | cbn; auto|].
  cbn [add_keys]. destruct (IH (add_key kd st)) as (L & F & C & N).
  destruct (add_key_fields kd st) as (L0 & F0 & C0 & N0).
  cbv zeta. rewrite L, F, C. repeat (split; [assumption|]). intros D. apply N, N0, D.
Qed.

(** The loop ends with the [TypeError] of the first [null] of the array,
    and normally when the array holds none. *)
Lemma add_keys_outcome (keys : list KeyEntry) (st : Sys) :
  fst (add_keys keys st)
  = match first_null keys with
    | Some message => Thrown message
    | None => Returned tt
    end.
Proof.
  revert st. induction keys as [|[message|kd] keys IH]; intros st;
    [reflexivity | reflexivity | apply IH].
Qed.

Lemma last_stored_cons (k : string) (keyData : Jwk) (entries : list Jwk) :
  last_stored k (keyData :: entries)
  = match last_stored k entries with
    | Some publicKey => Some publicKey
    | None =>
        match stored_key keyData with
        | Some (k', publicKey) => if String.eqb k' k then Some publicKey else None
        | None => None
        end
    end.
Proof.
  unfold last_stored. cbn [rev]. rewrite find_app.
  destruct (find _ (rev entries)) as [kd|] eqn:F.
  - apply find_some in F as [_ F].
    destruct (stored_key kd) as [[k' v]|]; [reflexivity | discriminate].
  - cbn [find]. destruct (stored_key keyData) as [[k' v]|] eqn:SK; [|reflexivity].
    destruct (String.eqb k' k); [now rewrite SK | reflexivity].
Qed.

Lemma add_keys_get (keys : list KeyEntry) (k : string) (st : Sys) :
  map_get k (publicKeys (snd (add_keys keys st)))
  = match last_stored k (entries_read keys) with
    | Some publicKey => Some publicKey
    | None => map_get k (publicKeys st)
    end.
Proof.
  revert st. induction keys as [|[message|kd] keys IH]; intros st;
    [reflexivity | reflexivity|].
  cbn [add_keys entries_read]. rewrite IH, last_stored_cons.
  destruct (last_stored k (entries_read keys)); [reflexivity|].
  rewrite add_key_get. destruct (stored_key kd) as [[k' v]|]; [|reflexivity].
  destruct (String.eqb k' k); reflexivity.
Qed.

Lemma ensure_catch_fields (message : string) (st : Sys) :
  let r := ensure_catch message st in
  publicKeys (snd r) = publicKeys st
  /\ lastKeyFetch (snd r) = lastKeyFetch st
  /\ fetchCount (snd r) = fetchCount st
  /\ clockReads (snd r) = clockReads st
  /\ fst r = (if map_size (publicKeys st) =? 0
              then Thrown ("Cannot validate AMP signatures: " +++ message)
              else Returned tt).
Proof.
  unfold ensure_catch. cbn [emit publicKeys].
  destruct (map_size (publicKeys st) =? 0); cbn; auto.
Qed.

(** The two ways in which the loop over a [keys] array ends. *)
Lemma ensure_finish_loaded (now : Z) (keys : list KeyEntry) (st : Sys) :
  first_null keys = None ->
  let st1 := set_lastKeyFetch now (snd (add_keys keys (set_keys [] st))) in
  ensure_finish now (KeysDoc keys) st
  = (Returned tt,
     emit (Log LInfo ("Loaded " +++ Z_to_string (map_size (publicKeys st1))
                      +++ " AMP public keys")) st1).
Proof.
  intros N. cbn [ensure_finish].
  pose proof (add_keys_outcome keys (set_keys [] st)) as O. rewrite N in O.
  destruct (add_keys keys (set_keys [] st)) as [o st']. cbn [fst snd] in *.
  subst o. reflexivity.
Qed.

Lemma ensure_finish_null (now : Z) (keys : list KeyEntry) (message : string) (st : Sys) :
  first_null keys = Some message ->
  ensure_finish now (KeysDoc keys) st
  = ensure_catch message (snd (add_keys keys (set_keys [] st))).
Proof.
  intros N. cbn [ensure_finish].
  pose proof (add_keys_outcome keys (set_keys [] st)) as O. rewrite N in O.
  destruct (add_keys keys (set_keys [] st)) as [o st']. cbn [fst snd] in *.
  subst o. reflexivity.
Qed.

Lemma ensure_finish_keys (now : Z) (keys : list KeyEntry) (st : Sys) :
  let r := ensure_finish now (KeysDoc keys) st in
  publicKeys (snd r) = publicKeys (snd (add_keys keys (set_keys [] st)))
  /\ fetchCount (snd r) = fetchCount st
  /\ clockReads (snd r) = clockReads st.
Proof.
  cbv zeta. destruct (add_keys_fields keys (set_keys [] st)) as (_ & F & C & _).
  destruct (first_null keys) as [message|] eqn:N.
  - rewrite (ensure_finish_null now keys message st N).
    destruct (ensure_catch_fields message (snd (add_keys keys (set_keys [] st))))
      as (K & _ & F' & C' & _).
    rewrite K, F', C', F, C. auto.
  - rewrite (ensure_finish_loaded now keys st N).
    cbn [snd emit set_lastKeyFetch publicKeys fetchCount clockReads]. auto.
Qed.

(** What a reply with a [keys] array leaves. *)
Lemma refresh_replaces_facts (now : Z) (keys : list KeyEntry) (st : Sys) :
  let r := ensure_finish now (KeysDoc keys) st in
  (forall k, map_get k (publicKeys (snd r)) = last_stored k (entries_read keys))
  /\ NoDup (map fst (publicKeys (snd r)))
  /\ fetchCount (snd r) = fetchCount st
  /\ (first_null keys = None -> fst r = Returned tt /\ lastKeyFetch (snd r) = now)
  /\ (forall message, first_null keys = Some message ->
        lastKeyFetch (snd r) = lastKeyFetch st
        /\ fst r = (if map_size (publicKeys (snd r)) =? 0
                    then Thrown ("Cannot validate AMP signatures: " +++ message)
                    else Returned tt)).
Proof.
  cbv zeta.
  destruct (ensure_finish_keys now keys st) as (K & F & _).
  destruct (add_keys_fields keys (set_keys [] st)) as (L & _ & _ & N).
  split.
  { intros k. rewrite K, add_keys_get.
    destruct (last_stored k (entries_read keys)); reflexivity. }
  split; [rewrite K; apply N; constructor|]. split; [exact F|]. split.
  - intros Z. rewrite (ensure_finish_loaded now keys st Z). auto.
  - intros message Z. rewrite (ensure_finish_null now keys message st Z).
    destruct (ensure_catch_fields message (snd (add_keys keys (set_keys [] st))))
      as (K' & L' & _ & _ & O).
    rewrite L', L, K', O. auto.
Qed.

(** X9.  A reply that carries a [keys] array replaces the key set as a
    whole.  The entries are read up to the first [null] of the array;
    afterwards a key id is held exactly when one of the entries read
    stores a key under it (its [kid], [n] and [e] are truthy and
    [jwkToPem] returns), with the PEM text of the last such entry; a key
    held before and not stored again is gone; no id is held twice; no
    fetch is issued.  When the array holds no [null], the call returns
    normally and [lastKeyFetch] is the clock value read at the start of
    the call.  When it holds a [null], [lastKeyFetch] stays as it was, and
    the call throws with the message of the [TypeError] if no key was
    stored before the [null], and returns normally otherwise.  An entry
    with texts stores the PEM text of its decoded [n] and [e] when none of
    the three texts is empty. *)
Theorem refresh_replaces_the_key_set (now : Z) (keys : list KeyEntry) (st : Sys) :
  let r := ensure_finish now (KeysDoc keys) st in
  (forall k, map_get k (publicKeys (snd r)) = last_stored k (entries_read keys))
  /\ NoDup (map fst (publicKeys (snd r)))
  /\ fetchCount (snd r) = fetchCount st
  /\ (first_null keys = None -> fst r = Returned tt /\ lastKeyFetch (snd r) = now)
  /\ (forall message, first_null keys = Some message ->
        lastKeyFetch (snd r) = lastKeyFetch st
        /\ fst r = (if map_size (publicKeys (snd r)) =? 0
                    then Thrown ("Cannot validate AMP signatures: " +++ message)
                    else Returned tt))
  /\ (forall keyData : KeyData,
        stored_key keyData
        = if negb (String.eqb (kid keyData) "") && negb (String.eqb (jwk_n keyData) "")
             && negb (String.eqb (jwk_e keyData) "")
          then Some (kid keyData,
                     pem_of_der (createRSAPublicKeyDER (base64_decode (jwk_n keyData))
                                   (base64_decode (jwk_e keyData))))
          else None).
Proof.
  cbv zeta.
  destruct (refresh_replaces_facts now keys st) as (G & N & F & A & B).
  repeat (split; [assumption|]).
  intros keyData. unfold stored_key.
  cbn [text_jwk jwk_kid n_field e_field field_truthy].
  destruct (negb (String.eqb (kid keyData) "") && negb (String.eqb (jwk_n keyData) "")
            && negb (String.eqb (jwk_e keyData) "")); reflexivity.
Qed.

(** An array whose second entry is [null] leaves the key of its first
    entry and the old time of the last fetch; an array that holds [null]
    only leaves no key and makes the call throw. *)
Lemma refresh_replaces_the_key_set_witness :
  (publicKeys (snd (ensure_finish Examples.noon (KeysDoc MoreExamples.keys_with_null)
                      Examples.expired))
   = [("k1", Examples.a_pem)]
   /\ lastKeyFetch (snd (ensure_finish Examples.noon (KeysDoc MoreExamples.keys_with_null)
                           Examples.expired))
      = lastKeyFetch Examples.expired
   /\ fst (ensure_finish Examples.noon (KeysDoc MoreExamples.keys_with_null)
             Examples.expired) = Returned tt)
  /\ (publicKeys (snd (ensure_finish Examples.noon (KeysDoc MoreExamples.only_null)
                         Examples.expired)) = []
      /\ fst (ensure_finish Examples.noon (KeysDoc MoreExamples.only_null) Examples.expired)
         = Thrown ("Cannot validate AMP signatures: " +++ MoreExamples.null_message)).
Proof.
  split.
  - destruct (refresh_replaces_the_key_set Examples.noon MoreExamples.keys_with_null
                Examples.expired) as (_ & _ & _ & _ & A & _).
    destruct (A MoreExamples.null_message eq_refl) as (L & O).
    split; [reflexivity|]. split; [exact L|]. rewrite O. reflexivity.
  - destruct (refresh_replaces_the_key_set Examples.noon MoreExamples.only_null
                Examples.expired) as (_ & _ & _ & _ & A & _).
    destruct (A MoreExamples.null_message eq_refl) as (_ & O).
    split; [reflexivity|]. rewrite O. reflexivity.
Defined.

(** *** Forced refresh, and what a refresh leaves for the next call *)

Lemma ensure_catch_fetchCount (message : string) (st : Sys) :
  fetchCount (snd (ensure_catch message st)) = fetchCount st.
Proof. unfold ensure_catch. destruct (_ =? 0); reflexivity. Qed.

Lemma ensure_finish_fetchCount (now : Z) (reply : FetchReply) (st : Sys) :
  fetchCount (snd (ensure_finish now reply st)) = fetchCount st.
Proof.
  destruct reply; try (cbn [ensure_finish]; apply ensure_catch_fetchCount).
  now destruct (ensure_finish_keys now keys st) as (_ & F & _).
Qed.

Lemma ensurePublicKeys_fetchCount (w : World) (st : Sys) :
  fetchCount (snd (ensurePublicKeys w st))
  = if (map_size (publicKeys st) >? 0)
       && (clock w (clockReads st) - lastKeyFetch st <? KEY_CACHE_TTL)
    then fetchCount st else S (fetchCount st).
Proof.
  unfold ensurePublicKeys.
  destruct ((map_size (publicKeys st) >? 0)
            && (clock w (clockReads st) - lastKeyFetch st <? KEY_CACHE_TTL)) eqn:E.
  - rewrite (ensure_begin_fresh w st E). reflexivity.
  - rewrite (ensure_begin_stale w st E). rewrite ensure_finish_fetchCount. reflexivity.
Qed.

Lemma map_size_positive {V : Type} (m : list (string * V)) :
  (map_size m >? 0) = negb (match m with [] => true | _ => false end).
Proof.
  destruct m as [|kp rest]; [reflexivity|]. unfold map_size. cbn [List.length negb].
  apply Z.gtb_lt. lia.
Qed.

(** X10.  [refreshPublicKeys] sets [lastKeyFetch] to 0 and calls
    [ensurePublicKeys]: a fetch goes out exactly when the map is empty or
    the clock reads at least one TTL (24 h) past the epoch.  When that
    fetch fails and keys are held, the call returns normally with the keys
    kept and [lastKeyFetch] left at 0.  When it brings a [keys] array that
    holds no [null], the call returns normally and [lastKeyFetch] becomes
    the clock value read; when the array holds a [null], [lastKeyFetch] is
    left at 0 and the keys are those stored before the [null]. *)
Theorem refreshPublicKeys_forces_a_fetch (w : World) (st : Sys) :
  let r := refreshPublicKeys w st in
  (fetchCount (snd r) = S (fetchCount st)
   <-> (publicKeys st = [] \/ clock w (clockReads st) >= KEY_CACHE_TTL))
  /\ (fetchCount (snd r) = fetchCount st \/ fetchCount (snd r) = S (fetchCount st))
  /\ (publicKeys st <> [] -> clock w (clockReads st) >= KEY_CACHE_TTL ->
      fetch_failed (endpoint w (fetchCount st)) = true ->
      fst r = Returned tt /\ publicKeys (snd r) = publicKeys st /\ lastKeyFetch (snd r) = 0)
  /\ (forall keys,
        publicKeys st = [] \/ clock w (clockReads st) >= KEY_CACHE_TTL ->
        endpoint w (fetchCount st) = KeysDoc keys ->
        (first_null keys = None ->
         fst r = Returned tt /\ lastKeyFetch (snd r) = clock w (clockReads st))
        /\ (forall message, first_null keys = Some message ->
              lastKeyFetch (snd r) = 0
              /\ (forall k, map_get k (publicKeys (snd r))
                            = last_stored k (entries_read keys))
              /\ fst r = (if map_size (publicKeys (snd r)) =? 0
                          then Thrown ("Cannot validate AMP signatures: " +++ message)
                          else Returned tt))).
Proof.
  cbv zeta. unfold refreshPublicKeys.
  pose proof (ensurePublicKeys_fetchCount w (set_lastKeyFetch 0 st)) as C.
  cbn [set_lastKeyFetch publicKeys lastKeyFetch clockReads fetchCount] in C.
  rewrite map_size_positive, Z.sub_0_r in C.
  split; [|split; [|split]].
  - rewrite C. destruct (publicKeys st) as [|kp rest]; cbn [negb andb].
    + split; auto.
    + destruct (clock w (clockReads st) <? KEY_CACHE_TTL) eqn:E.
      * apply Z.ltb_lt in E. split; [lia|]. intros [H|H]; [discriminate | lia].
      * apply Z.ltb_ge in E. split; [|reflexivity]. intros _. right. lia.
  - rewrite C. destruct (_ && _); auto.
  - intros N T F.
    assert (Stale : (map_size (publicKeys (set_lastKeyFetch 0 st)) >? 0)
              && (clock w (clockReads (set_lastKeyFetch 0 st))
                  - lastKeyFetch (set_lastKeyFetch 0 st) <? KEY_CACHE_TTL) = false).
    { apply andb_false_iff. right. apply Z.ltb_ge.
      cbn [set_lastKeyFetch lastKeyFetch clockReads]. lia. }
    unfold ensurePublicKeys. rewrite (ensure_begin_stale _ _ Stale).
    cbn [set_lastKeyFetch publicKeys lastKeyFetch clockReads fetchCount events].
    destruct (ensure_finish_failure (clock w (clockReads st)) _
                (mkSys (publicKeys st) 0 (S (clockReads st)) (S (fetchCount st))
                   (Log LInfo "Fetching AMP public keys from Google" :: events st)) F)
      as (message & ->).
    match goal with
    | |- context [ensure_catch message ?s] =>
        destruct (ensure_catch_with_keys message s N) as (R & K & L & _)
    end.
    auto.
  - intros keys H D.
    assert (Stale : (map_size (publicKeys (set_lastKeyFetch 0 st)) >? 0)
              && (clock w (clockReads (set_lastKeyFetch 0 st))
                  - lastKeyFetch (set_lastKeyFetch 0 st) <? KEY_CACHE_TTL) = false).
    { cbn [set_lastKeyFetch publicKeys lastKeyFetch clockReads].
      rewrite map_size_positive. destruct H as [->|H]; [reflexivity|].
      apply andb_false_iff. right. apply Z.ltb_ge. lia. }
    unfold ensurePublicKeys. rewrite (ensure_begin_stale _ _ Stale).
    cbn [set_lastKeyFetch publicKeys lastKeyFetch clockReads fetchCount events].
    rewrite D.
    match goal with
    | |- context [ensure_finish ?now (KeysDoc keys) ?s] =>
        destruct (refresh_replaces_facts now keys s) as (G & _ & _ & A & B)
    end.
    split; [exact A|]. intros message Z. destruct (B message Z) as (L & O).
    split; [exact L|]. split; [exact G | exact O].
Qed.

(** With an empty map and an endpoint that serves [null] as the only
    entry, the forced refresh fetches once and throws. *)
Lemma refreshPublicKeys_forces_a_fetch_witness :
  fetchCount (snd (refreshPublicKeys MoreExamples.null_world Examples.no_keys)) = 1%nat
  /\ lastKeyFetch (snd (refreshPublicKeys MoreExamples.null_world Examples.no_keys)) = 0
  /\ fst (refreshPublicKeys MoreExamples.null_world Examples.no_keys)
     = Thrown ("Cannot validate AMP signatures: " +++ MoreExamples.null_message).
Proof.
  destruct (refreshPublicKeys_forces_a_fetch MoreExamples.null_world Examples.no_keys)
    as (F & _ & _ & A).
  split; [apply F; left; reflexivity|].
  destruct (A MoreExamples.only_null (or_introl eq_refl) eq_refl) as (_ & B).
  destruct (B MoreExamples.null_message eq_refl) as (L & _ & O).
  split; [exact L|]. rewrite O. reflexivity.
Defined.

Lemma stored_key_is_held (keys : list KeyEntry) (keyData : Jwk) (st : Sys) :
  In keyData (entries_read keys) -> stored_key keyData <> None ->
  publicKeys (snd (add_keys keys st)) <> [].
Proof.
  intros I U E. destruct (stored_key keyData) as [[k v]|] eqn:SK; [|contradiction].
  pose proof (add_keys_get keys k st) as G. rewrite E in G.
  destruct (last_stored k (entries_read keys)) as [pem|] eqn:L; [discriminate|].
  unfold last_stored in L.
  destruct (find _ (rev (entries_read keys))) as [kd|] eqn:Fd.
  - apply find_some in Fd as [_ Fd].
    destruct (stored_key kd) as [[k' v']|]; discriminate.
  - pose proof (find_none _ _ Fd keyData (proj1 (in_rev _ keyData) I)) as F.
    cbn beta in F. rewrite SK, String.eqb_refl in F. discriminate.
Qed.

Lemma nothing_stored_nothing_held (keys : list KeyEntry) (st : Sys) :
  (forall keyData, In keyData (entries_read keys) -> stored_key keyData = None) ->
  publicKeys (snd (add_keys keys st)) = publicKeys st.
Proof.
  revert st. induction keys as [|[message|kd] keys IH]; intros st H;
    [reflexivity | reflexivity|].
  cbn [add_keys]. rewrite IH by (intros x I; apply H; now right).
  rewrite add_key_keys, (H kd (or_introl eq_refl)). reflexivity.
Qed.

(** X11.  After a refresh whose [keys] array held no [null] and at least
    one entry that stores a key, a call of [ensurePublicKeys] within 24 h
    of the clock value read by the refresh issues no fetch and leaves the
    keys as they are.  After a refresh none of whose entries read stores a
    key the map is empty, and the next call fetches again whatever the
    clock says.  After a refresh whose array held a [null] the time of the
    last fetch is the old one, and the next call fetches again when that
    time is 24 h or more in the past. *)
Theorem refreshed_cache_is_reused (w : World) (now : Z) (keys : list KeyEntry) (st : Sys) :
  let st1 := snd (ensure_finish now (KeysDoc keys) st) in
  (first_null keys = None ->
   (exists keyData, In keyData (entries_read keys) /\ stored_key keyData <> None) ->
   clock w (clockReads st1) - now < KEY_CACHE_TTL ->
   ensurePublicKeys w st1 = (Returned tt, snd (Date_now w st1))
   /\ fetchCount (snd (ensurePublicKeys w st1)) = fetchCount st1
   /\ publicKeys (snd (ensurePublicKeys w st1)) = publicKeys st1)
  /\ ((forall keyData, In keyData (entries_read keys) -> stored_key keyData = None) ->
      publicKeys st1 = []
      /\ fetchCount (snd (ensurePublicKeys w st1)) = S (fetchCount st1))
  /\ (forall message, first_null keys = Some message ->
        lastKeyFetch st1 = lastKeyFetch st
        /\ (clock w (clockReads st1) - lastKeyFetch st >= KEY_CACHE_TTL ->
            fetchCount (snd (ensurePublicKeys w st1)) = S (fetchCount st1))).
Proof.
  cbv zeta.
  destruct (ensure_finish_keys now keys st) as (K & _ & _).
  destruct (refresh_replaces_facts now keys st) as (_ & _ & _ & A & B).
  split; [|split].
  - intros Z (kd & I & U) T. destruct (A Z) as (_ & L).
    assert (Fresh : (map_size (publicKeys (snd (ensure_finish now (KeysDoc keys) st))) >? 0)
              && (clock w (clockReads (snd (ensure_finish now (KeysDoc keys) st)))
                  - lastKeyFetch (snd (ensure_finish now (KeysDoc keys) st))
                  <? KEY_CACHE_TTL) = true).
    { apply andb_true_iff. split.
      - rewrite map_size_positive, K.
        pose proof (stored_key_is_held keys kd (set_keys [] st) I U) as N.
        destruct (publicKeys (snd (add_keys keys (set_keys [] st))));
          [contradiction | reflexivity].
      - apply Z.ltb_lt. rewrite L. lia. }
    unfold ensurePublicKeys. rewrite (ensure_begin_fresh w _ Fresh). auto.
  - intros H.
    assert (E : publicKeys (snd (ensure_finish now (KeysDoc keys) st)) = []).
    { rewrite K. now rewrite nothing_stored_nothing_held. }
    split; [exact E|]. rewrite ensurePublicKeys_fetchCount, E. reflexivity.
  - intros message Z. destruct (B message Z) as (L & _). split; [exact L|].
    intros T. rewrite ensurePublicKeys_fetchCount, L.
    replace (clock w (clockReads (snd (ensure_finish now (KeysDoc keys) st)))
             - lastKeyFetch st <? KEY_CACHE_TTL) with false
      by (symmetry; apply Z.ltb_ge; lia).
    now rewrite andb_false_r.
Qed.

(** After the refresh of the expired cache with an array whose second
    entry is [null], the next call at the same clock value fetches
    again. *)
Lemma refreshed_cache_is_reused_witness :
  fetchCount (snd (ensurePublicKeys Examples.accepting_world
                     (snd (ensure_finish Examples.noon
                             (KeysDoc MoreExamples.keys_with_null) Examples.expired))))
  = 1%nat.
Proof.
  destruct (refreshed_cache_is_reused Examples.accepting_world Examples.noon
              MoreExamples.keys_with_null Examples.expired) as (_ & _ & A).
  destruct (A MoreExamples.null_message eq_refl) as (_ & F).
  rewrite F; [reflexivity | vm_compute; discriminate].
Defined.

End KeyCacheFacts.

(** ** What the middleware lets through *)

Module MiddlewareMore.

Import AmpValidatorCodec JS AmpValidator Middleware KeyCache ValidatorFacts ValidatorMore.

(** X12.  [validateAmpSignature] calls [next()] in three cases only:
    validation is switched off in the configuration; a header is missing
    or empty and the process runs in development mode; or both headers
    are present and a held key made the RSA primitive accept the
    timestamp header followed by [JSON.stringify(req.body)] (the empty
    text for a falsy body).  In each case the request is marked
    [isValidSignature: true].  Every other request is answered 400
    (header missing, not in development) or 401. *)
Theorem middleware_passes_only_verified
    (cfg : Config) (w : World) (req : Request) (st : Sys) :
  (forall b, fst (validateAmpSignature cfg w req st) = Next b ->
     b = true
     /\ (validateSignatures cfg = false
         \/ (development cfg = true
             /\ header_missing (amp_signature req) || header_missing (amp_timestamp req) = true)
         \/ exists s t keyId pem,
              amp_signature req = Some s /\ amp_timestamp req = Some t
              /\ String.prefix "rsa-sha256=" s = true
              /\ In (keyId, pem) (publicKeys (snd (validateAmpSignature cfg w req st)))
              /\ rsa_verify w pem (t +++ rawBody req) (base64_decode (string_drop 11 s))
                 = Returned true))
  /\ (forall code text details,
        fst (validateAmpSignature cfg w req st) = Status code text details ->
        validateSignatures cfg = true
        /\ ((code = 400 /\ development cfg = false
             /\ header_missing (amp_signature req) || header_missing (amp_timestamp req) = true)
            \/ (code = 401
                /\ header_missing (amp_signature req) || header_missing (amp_timestamp req)
                   = false))).
Proof.
  unfold validateAmpSignature. cbn [Date_now].
  destruct (validateSignatures cfg) eqn:V; cbn [negb].
  2:{ split; [intros b H; injection H as <-; auto | intros c t d H; discriminate]. }
  destruct (header_missing (amp_signature req) || header_missing (amp_timestamp req)) eqn:M.
  { destruct (development cfg) eqn:D; cbn [fst].
    - split; [intros b H; injection H as <-; auto | intros c t d H; discriminate].
    - split; [intros b H; discriminate|]. intros c t d H. injection H as <- _ _. auto. }
  apply orb_false_iff in M as [Ms Mt].
  destruct (amp_signature req) as [s|] eqn:Es; [|discriminate].
  destruct (amp_timestamp req) as [t|] eqn:Et; [|discriminate].
  pose proof (acceptance_sound w (rawBody req) (Some s) t
                (mkSys (publicKeys st) (lastKeyFetch st) (S (clockReads st)) (fetchCount st)
                   (events st))) as Sound.
  destruct (validateSignature w (rawBody req) (Some s) t _) as [r st2].
  cbn [fst snd] in Sound. cbn [Date_now].
  destruct (isValid r) eqn:I; cbn [negb fst snd].
  - split; [|intros c x d H; discriminate].
    intros b H. injection H as <-. split; [reflexivity|]. right. right.
    destruct (Sound eq_refl) as (s' & k & p & S' & P & _ & In' & A & _).
    injection S' as <-. exists s, t, k, p. cbn [emit publicKeys]. auto.
  - split; [intros b H; discriminate|]. intros c x d H. injection H as <- _ _.
    split; [reflexivity|]. right. auto.
Qed.

End MiddlewareMore.

(** ** Reading the table of submissions *)

Module QueryFacts.

Import JS JSArray WebhookService WebhookQueries Vocabulary.

Section Sorting.

Context {A : Type} (time : A -> Z).

Lemma insert_newest_perm (x : A) (l : list A) :
  Permutation (insert_newest time x l) (x :: l).
Proof.
  induction l as [|y rest IH]; [reflexivity|]. cbn [insert_newest].
  destruct (time y <=? time x); [reflexivity|].
  rewrite IH. apply perm_swap.
Qed.

Lemma sort_newest_perm (l : list A) : Permutation (sort_newest_first time l) l.
Proof.
  induction l as [|x rest IH]; [reflexivity|]. cbn [sort_newest_first fold_right].
  rewrite insert_newest_perm. now constructor.
Qed.

Lemma insert_newest_sorted (x : A) (l : list A) :
  StronglySorted (fun a b => time b <= time a) l ->
  StronglySorted (fun a b => time b <= time a) (insert_newest time x l).
Proof.
  induction l as [|y rest IH]; intros S; cbn [insert_newest].
  - constructor; constructor.
  - inversion S as [|? ? S' F]; subst.
    destruct (time y <=? time x) eqn:E.
    + apply Z.leb_le in E. constructor; [assumption|]. constructor; [assumption|].
      rewrite Forall_forall in F |- *. intros z I. specialize (F z I). cbn beta in *. lia.
    + apply Z.leb_gt in E. constructor; [now apply IH|].
      rewrite Forall_forall in F |- *. intros z I.
      apply (Permutation_in _ (insert_newest_perm x rest)) in I.
      destruct I as [<-|I]; [lia | now apply F].
Qed.

Lemma sort_newest_sorted (l : list A) :
  StronglySorted (fun a b => time b <= time a) (sort_newest_first time l).
Proof.
  induction l as [|x rest IH]; [constructor|]. now apply insert_newest_sorted.
Qed.

End Sorting.

(** *** Slices *)

Lemma firstn_beyond {A : Type} (n : nat) (l : list A) :
  firstn (Nat.min n (List.length l)) l = firstn n l.
Proof. rewrite <- firstn_firstn, firstn_all. reflexivity. Qed.

Lemma slice_forward {A : Type} (a n : nat) (l : list A) :
  slice (Z.of_nat a) (Z.of_nat a + Z.of_nat n) l = firstn n (skipn a l).
Proof.
  unfold slice, slice_index.
  replace (Z.of_nat a <? 0) with false by (symmetry; apply Z.ltb_ge; lia).
  replace (Z.of_nat a + Z.of_nat n <? 0) with false by (symmetry; apply Z.ltb_ge; lia).
  destruct (Nat.le_gt_cases (List.length l) a) as [L|L].
  - rewrite (skipn_all2 l L).
    rewrite (Z.min_r (Z.of_nat a) (Z.of_nat (List.length l))) by lia.
    rewrite Nat2Z.id, skipn_all. now rewrite !firstn_nil.
  - rewrite (Z.min_l (Z.of_nat a) (Z.of_nat (List.length l))) by lia. rewrite Nat2Z.id.
    rewrite <- (firstn_beyond n (skipn a l)). f_equal.
    rewrite length_skipn. lia.
Qed.

Lemma slice_page_zero {A : Type} (n : Z) (l : list A) :
  0 <= n -> slice (- n) 0 l = [].
Proof.
  intros N. unfold slice, slice_index. cbn [Z.ltb Z.compare Z.min].
  replace (Z.min 0 (Z.of_nat (List.length l))) with 0 by lia.
  destruct (- n <? 0) eqn:E.
  - replace (Z.max (0 - Z.max (Z.of_nat (List.length l) + - n) 0) 0) with 0 by lia.
    reflexivity.
  - apply Z.ltb_ge in E. replace n with 0 by lia. cbn [Z.opp].
    rewrite Z.min_l by lia. reflexivity.
Qed.

Lemma firstn_add {A : Type} (a n : nat) (l : list A) :
  firstn (a + n) l = firstn a l ++ firstn n (skipn a l).
Proof.
  revert l. induction a as [|a IH]; intros l; [reflexivity|].
  destruct l as [|x l]; [cbn; now rewrite firstn_nil|].
  cbn [Nat.add firstn skipn app]. now rewrite IH.
Qed.

(** *** getSubmissions *)

Section Queries.

Variable toLowerCase : string -> string.

Lemma filter_always {A : Type} (l : list A) : filter (fun _ => true) l = l.
Proof. induction l as [|x l IH]; [reflexivity|]. cbn. now rewrite IH. Qed.

Lemma optional_filter {A B : Type} (o : option B) (g : B -> A -> bool) (l : list A) :
  match o with Some d => filter (g d) l | None => l end
  = filter (fun s => match o with Some d => g d s | None => true end) l.
Proof. destruct o; [reflexivity | now rewrite filter_always]. Qed.

(** The filters applied one after the other keep the submissions that
    pass every filter that is set. *)
Lemma apply_filters_passes (f : SubmissionFilters) (l : list AmpFormSubmission) :
  apply_filters toLowerCase f l = filter (passes toLowerCase f) l.
Proof.
  unfold apply_filters.
  replace (match filter_senderEmail f with
           | Some needle =>
               if String.eqb needle "" then l else filter (email_matches toLowerCase needle) l
           | None => l
           end)
    with (filter (fun s => match filter_senderEmail f with
                           | Some needle =>
                               String.eqb needle "" || email_matches toLowerCase needle s
                           | None => true
                           end) l).
  2:{ destruct (filter_senderEmail f) as [needle|]; [|apply filter_always].
      destruct (String.eqb needle ""); [apply filter_always | reflexivity]. }
  rewrite (optional_filter (startDate f) (fun d s => date_ge (timestamp s) d)).
  rewrite (optional_filter (endDate f) (fun d s => date_le (timestamp s) d)).
  rewrite (optional_filter (ampValidated f) validated_is).
  rewrite !StoreFacts.filter_filter. apply filter_ext. intros s. unfold passes.
  rewrite <- !andb_assoc. reflexivity.
Qed.

Lemma getSubmissions_unfold (f : SubmissionFilters) (svc : Service) :
  getSubmissions toLowerCase f svc
  = mkResult (slice ((page f - 1) * limit f) ((page f - 1) * limit f + limit f)
                (newest_first toLowerCase f svc))
      (Z.of_nat (List.length (newest_first toLowerCase f svc))).
Proof.
  unfold getSubmissions, newest_first, matching. now rewrite apply_filters_passes.
Qed.

Lemma getSubmissions_forward (f : SubmissionFilters) (svc : Service) :
  1 <= page f -> 0 <= limit f ->
  result_submissions (getSubmissions toLowerCase f svc)
  = firstn (Z.to_nat (limit f))
      (skipn (Z.to_nat ((page f - 1) * limit f)) (newest_first toLowerCase f svc)).
Proof.
  intros P L. rewrite getSubmissions_unfold. cbn [result_submissions].
  pose proof (slice_forward (Z.to_nat ((page f - 1) * limit f)) (Z.to_nat (limit f))
                (newest_first toLowerCase f svc)) as S.
  rewrite !Z2Nat.id in S by nia. exact S.
Qed.

Lemma newest_first_perm (f : SubmissionFilters) (svc : Service) :
  Permutation (newest_first toLowerCase f svc) (matching toLowerCase f svc).
Proof. apply sort_newest_perm. Qed.

Lemma newest_first_short (f : SubmissionFilters) (svc : Service) :
  (List.length (newest_first toLowerCase f svc) <= List.length (submissions svc))%nat.
Proof.
  rewrite (Permutation_length (newest_first_perm f svc)). unfold matching.
  rewrite <- (length_map snd (submissions svc)). apply filter_length_le.
Qed.

(** X13.  For a page number of at least 1 and a limit that is not
    negative, [getSubmissions] reports as [total] the number of
    submissions that pass every filter that is set, whatever the page, and
    returns the page cut from those submissions ordered newest first: at
    most [limit] of them, starting after the [(page - 1) * limit] newest.
    Every submission returned is in the table and passes the filters. *)
Theorem getSubmissions_returns_a_page (f : SubmissionFilters) (svc : Service) :
  1 <= page f -> 0 <= limit f ->
  let r := getSubmissions toLowerCase f svc in
  total r = Z.of_nat (List.length (matching toLowerCase f svc))
  /\ Permutation (newest_first toLowerCase f svc) (matching toLowerCase f svc)
  /\ StronglySorted newer_or_equal (newest_first toLowerCase f svc)
  /\ result_submissions r
     = firstn (Z.to_nat (limit f))
         (skipn (Z.to_nat ((page f - 1) * limit f)) (newest_first toLowerCase f svc))
  /\ Z.of_nat (List.length (result_submissions r)) <= limit f
  /\ (forall s, In s (result_submissions r) ->
        passes toLowerCase f s = true /\ exists k, In (k, s) (submissions svc)).
Proof.
  intros P L. cbv zeta.
  pose proof (getSubmissions_forward f svc P L) as F.
  split.
  { rewrite getSubmissions_unfold. cbn [total].
    now rewrite (Permutation_length (newest_first_perm f svc)). }
  split; [apply newest_first_perm|].
  split; [apply (sort_newest_sorted timestamp)|].
  split; [exact F|]. split.
  { rewrite F, length_firstn. lia. }
  intros s I. rewrite F in I. apply StoreFacts.firstn_In in I.
  assert (I' : In s (newest_first toLowerCase f svc)).
  { rewrite <- (firstn_skipn (Z.to_nat ((page f - 1) * limit f))). apply in_or_app. now right. }
  apply (Permutation_in _ (newest_first_perm f svc)) in I'.
  unfold matching in I'. apply filter_In in I' as [M Q]. split; [exact Q|].
  apply in_map_iff in M as ([k s'] & E & M). cbn in E. subst s'. now exists k.
Qed.

Lemma pages_concat (f : SubmissionFilters) (svc : Service) (k : nat) :
  0 <= limit f ->
  List.concat (pages toLowerCase f svc 1 k)
  = firstn (k * Z.to_nat (limit f)) (newest_first toLowerCase f svc).
Proof.
  intros L. unfold pages.
  induction k as [|k IH]; [reflexivity|].
  rewrite seq_S, map_app, concat_app, IH. cbn [map List.concat Nat.add].
  rewrite app_nil_r.
  rewrite (getSubmissions_forward
             (mkFilters (1 + Z.of_nat k) (limit f) (filter_senderEmail f) (startDate f)
                (endDate f) (ampValidated f)) svc) by (cbn [page limit]; lia).
  cbn [page limit].
  change (newest_first toLowerCase (mkFilters _ _ _ _ _ _) svc)
    with (newest_first toLowerCase f svc).
  replace (Z.to_nat ((1 + Z.of_nat k - 1) * limit f))
    with (k * Z.to_nat (limit f))%nat by nia.
  replace (S k * Z.to_nat (limit f))%nat
    with (k * Z.to_nat (limit f) + Z.to_nat (limit f))%nat by lia.
  symmetry. apply firstn_add.
Qed.

(** X14.  Pages 1, 2, ..., k of one query, put end to end, are the first
    [k * limit] matching submissions in newest-first order: no submission
    appears on two pages and none is skipped, and once [k * limit] reaches
    [total] the pages hold every matching submission.  Page 0 is empty
    whatever the table holds, while [total] is still reported. *)
Theorem pages_tile_the_result (f : SubmissionFilters) (svc : Service) (k : nat) :
  0 <= limit f ->
  List.concat (pages toLowerCase f svc 1 k)
  = firstn (k * Z.to_nat (limit f)) (newest_first toLowerCase f svc)
  /\ (total (getSubmissions toLowerCase f svc) <= Z.of_nat k * limit f ->
      List.concat (pages toLowerCase f svc 1 k) = newest_first toLowerCase f svc)
  /\ pages toLowerCase f svc 0 1 = [[]]
  /\ total (getSubmissions toLowerCase f svc)
     = Z.of_nat (List.length (matching toLowerCase f svc)).
Proof.
  intros L. split; [now apply pages_concat|]. split.
  { rewrite getSubmissions_unfold. cbn [total]. intros T.
    rewrite pages_concat by assumption. apply firstn_all2. nia. }
  split.
  { unfold pages. cbn [seq map]. rewrite getSubmissions_unfold.
    cbn [result_submissions page limit].
    replace ((0 + Z.of_nat 0 - 1) * limit f) with (- limit f) by lia.
    replace (- limit f + limit f) with 0 by lia.
    now rewrite slice_page_zero. }
  rewrite getSubmissions_unfold. cbn [total].
  now rewrite (Permutation_length (newest_first_perm f svc)).
Qed.

(** X15.  While the table holds at most 10000 submissions, the selection
    that [exportSubmissions] writes (page 1, limit 10000) is complete:
    every submission that passes the filters is exported, once, newest
    first, and [totalSubmissions] is the number exported. *)
Theorem export_is_complete (f : SubmissionFilters) (svc : Service) :
  store_size (submissions svc) <= maxSubmissions ->
  let r := exportSubmissions_selection toLowerCase f svc in
  result_submissions r = newest_first toLowerCase f svc
  /\ Permutation (result_submissions r) (matching toLowerCase f svc)
  /\ total r = Z.of_nat (List.length (result_submissions r)).
Proof.
  intros B. cbv zeta. unfold exportSubmissions_selection.
  assert (R : result_submissions
                (getSubmissions toLowerCase
                   (mkFilters 1 10000 (filter_senderEmail f) (startDate f) (endDate f)
                      (ampValidated f)) svc)
              = newest_first toLowerCase f svc).
  { rewrite getSubmissions_forward by (cbn [page limit]; lia). cbn [page limit].
    change (newest_first toLowerCase (mkFilters _ _ _ _ _ _) svc)
      with (newest_first toLowerCase f svc).
    change (Z.to_nat ((1 - 1) * 10000)) with 0%nat. cbn [skipn].
    apply firstn_all2. pose proof (newest_first_short f svc) as S.
    unfold store_size, maxSubmissions in B. lia. }
  split; [exact R|]. split; [rewrite R; apply newest_first_perm|].
  rewrite R, getSubmissions_unfold. reflexivity.
Qed.

End Queries.

Lemma getSubmissions_returns_a_page_witness :
  1 <= page (QueryExamples.no_filters 2 2)
  /\ 0 <= limit (QueryExamples.no_filters 2 2)
  /\ total (getSubmissions QueryExamples.as_is (QueryExamples.no_filters 2 2)
              QueryExamples.three_submissions) = 3
  /\ map id (result_submissions
              (getSubmissions QueryExamples.as_is (QueryExamples.no_filters 2 2)
                 QueryExamples.three_submissions)) = ["b"].
Proof.
  assert (P : 1 <= page (QueryExamples.no_filters 2 2)) by (cbn; lia).
  assert (L : 0 <= limit (QueryExamples.no_filters 2 2)) by (cbn; lia).
  split; [exact P|]. split; [exact L|].
  destruct (getSubmissions_returns_a_page QueryExamples.as_is (QueryExamples.no_filters 2 2)
              QueryExamples.three_submissions P L) as (T & _ & _ & R & _).
  split; [rewrite T; reflexivity | rewrite R; reflexivity].
Defined.

Lemma pages_tile_the_result_witness :
  0 <= limit (QueryExamples.no_filters 1 2)
  /\ map (map id) (pages QueryExamples.as_is (QueryExamples.no_filters 1 2)
                     QueryExamples.three_submissions 1 2)
     = [["a"; "c"]; ["b"]]
  /\ List.concat (pages QueryExamples.as_is (QueryExamples.no_filters 1 2)
               QueryExamples.three_submissions 1 2)
     = newest_first QueryExamples.as_is (QueryExamples.no_filters 1 2)
         QueryExamples.three_submissions.
Proof.
  assert (L : 0 <= limit (QueryExamples.no_filters 1 2)) by (cbn; lia).
  split; [exact L|]. split; [reflexivity|].
  destruct (pages_tile_the_result QueryExamples.as_is (QueryExamples.no_filters 1 2)
              QueryExamples.three_submissions 2 L) as (_ & A & _).
  apply A. vm_compute. discriminate.
Defined.

Lemma export_is_complete_witness :
  store_size (submissions QueryExamples.three_submissions) <= maxSubmissions
  /\ map id (result_submissions
              (exportSubmissions_selection QueryExamples.as_is
                 (QueryExamples.no_filters 1 10000) QueryExamples.three_submissions))
     = ["a"; "c"; "b"].
Proof.
  assert (B : store_size (submissions QueryExamples.three_submissions) <= maxSubmissions)
    by (vm_compute; discriminate).
  split; [exact B|].
  destruct (export_is_complete QueryExamples.as_is (QueryExamples.no_filters 1 10000)
              QueryExamples.three_submissions B) as (R & _).
  rewrite R. reflexivity.
Defined.

End QueryFacts.

(** ** The bound on the table *)

Module StoreInvariant.

Import JS WebhookService Vocabulary SubmissionStream StoreFacts.

Lemma store_set_keys (k x : string) (v : AmpFormSubmission) (m : list entry) :
  In x (map fst (store_set k v m)) -> x = k \/ In x (map fst m).
Proof.
  induction m as [|[k0 v0] rest IH]; cbn [store_set].
  - cbn. intros [H|[]]; auto.
  - destruct (String.eqb k0 k) eqn:E; cbn [map fst In].
    + apply String.eqb_eq in E. subst k0. tauto.
    + intros [H|H]; [tauto|]. destruct (IH H); tauto.
Qed.

Lemma store_set_NoDup (k : string) (v : AmpFormSubmission) (m : list entry) :
  NoDup (map fst m) -> NoDup (map fst (store_set k v m)).
Proof.
  induction m as [|[k0 v0] rest IH]; cbn [store_set]; intros N.
  - cbn. constructor; [intros [] | constructor].
  - inversion N as [|? ? X N']; subst.
    destruct (String.eqb k0 k) eqn:E; cbn [map fst].
    + apply String.eqb_eq in E. subst k0. now constructor.
    + constructor; [|now apply IH]. intros I.
      destruct (store_set_keys _ _ _ _ I) as [->|I']; [|contradiction].
      rewrite String.eqb_refl in E. discriminate.
Qed.

Lemma store_set_entries (k : string) (v : AmpFormSubmission) (m : list entry) (e : entry) :
  In e (store_set k v m) -> e = (k, v) \/ In e m.
Proof.
  induction m as [|[k0 v0] rest IH]; cbn [store_set].
  - intros [H|[]]; auto.
  - destruct (String.eqb k0 k); cbn [In].
    + intros [H|H]; auto.
    + intros [H|H]; [auto|]. destruct (IH H); auto.
Qed.

Lemma filter_keys_NoDup (f : entry -> bool) (m : list entry) :
  NoDup (map fst m) -> NoDup (map fst (filter f m)).
Proof.
  induction m as [|e rest IH]; intros N; [constructor|].
  inversion N as [|? ? X N']; subst. cbn [filter].
  destruct (f e); [|now apply IH]. cbn [map]. constructor; [|now apply IH].
  intros I. apply X. now apply (keys_filter f).
Qed.

Lemma cleanup_at_10001 (m : list entry) (lg : list (Level * string)) :
  store_size m = 10001 ->
  submissions (cleanupOldSubmissions (mkService m lg))
  = filter (fun e => negb (key_in (fst e) (oldest 1000 m))) m.
Proof.
  intros S. unfold cleanupOldSubmissions. cbn [submissions logged log]. rewrite S.
  replace (floor_tenth 10001) with 1000 by (vm_compute; reflexivity).
  change (Z.to_nat 1000) with 1000%nat. now rewrite delete_all_filter.
Qed.

(** One stored submission keeps the table well kept. *)
Lemma store_submission_well_kept (sub : AmpFormSubmission) (svc : Service) :
  well_kept svc -> well_kept (store_submission sub svc).
Proof.
  intros (N & B & C). unfold store_submission. cbn [submissions].
  pose proof (store_set_size (id sub) sub (submissions svc)) as Sz.
  pose proof (store_set_NoDup (id sub) sub (submissions svc) N) as N1.
  assert (C1 : forall k v, In (k, v) (store_set (id sub) sub (submissions svc)) -> id v = k).
  { intros k v I. destruct (store_set_entries _ _ _ _ I) as [E|I'].
    - now injection E as -> ->.
    - now apply C. }
  destruct (store_size (store_set (id sub) sub (submissions svc)) >? maxSubmissions) eqn:G.
  - apply Z.gtb_lt in G. unfold maxSubmissions in *.
    assert (S1 : store_size (store_set (id sub) sub (submissions svc)) = 10001) by lia.
    unfold well_kept. rewrite (cleanup_at_10001 _ _ S1).
    split; [now apply filter_keys_NoDup|]. split.
    + unfold store_size. rewrite (kept_length 1000 _ N1).
      unfold store_size in S1. unfold maxSubmissions. lia.
    + intros k v I. apply filter_In in I as [I _]. now apply C1.
  - rewrite Z.gtb_ltb in G. apply Z.ltb_ge in G.
    unfold well_kept. cbn [submissions]. auto.
Qed.

Lemma processSubmission_well_kept (newId : string) (now : Z) (request : SubmissionRequest)
    (svc : Service) :
  well_kept svc -> well_kept (snd (processSubmission newId now request svc)).
Proof.
  intros W. unfold processSubmission.
  pose proof (validateFormData_submissions (request_formData request) svc) as V.
  destruct (validateFormData (request_formData request) svc) as [[u|m] svc1];
    cbn [snd] in *.
  - assert (W1 : well_kept svc1) by (unfold well_kept in *; now rewrite V).
    apply (store_submission_well_kept
             (mkSubmission newId (formStructure_formId (request_metadata request))
                (request_formData request) (request_metadata request) now
                (request_isAmpValidated request) true)) in W1.
    unfold well_kept in *. now rewrite processFormContent_submissions.
  - unfold well_kept in *. cbn [log submissions]. now rewrite V.
Qed.

(** X16.  The table never outgrows its limit: if it holds at most 10000
    submissions under distinct ids, each filed under its own id, then
    after any sequence of [processSubmission] calls, accepted or
    rejected, with fresh or colliding ids, it still does; a rejected call
    leaves the table as it was. *)
Theorem table_stays_within_the_limit (arrivals : list Arrival) (svc : Service) :
  well_kept svc ->
  well_kept (process_all arrivals svc)
  /\ store_size (submissions (process_all arrivals svc)) <= 10000
  /\ forall newId now request message,
       fst (processSubmission newId now request svc) = Thrown message ->
       submissions (snd (processSubmission newId now request svc)) = submissions svc.
Proof.
  intros W. split; [|split].
  - revert svc W. induction arrivals as [|a rest IH]; intros svc W; [exact W|].
    cbn [process_all fold_left]. apply IH. now apply processSubmission_well_kept.
  - assert (G : well_kept (process_all arrivals svc)).
    { revert svc W. induction arrivals as [|a rest IH]; intros svc W; [exact W|].
      cbn [process_all fold_left]. apply IH. now apply processSubmission_well_kept. }
    apply G.
  - intros newId now request message. unfold processSubmission.
    pose proof (validateFormData_submissions (request_formData request) svc) as V.
    destruct (validateFormData (request_formData request) svc) as [[u|m] svc1];
      cbn [fst snd] in *; [discriminate|]. intros _. exact V.
Qed.

Lemma table_stays_within_the_limit_witness :
  well_kept StoreExamples.empty_service
  /\ store_size (submissions
                   (process_all [mkArrival "sub_1" 7 StoreExamples.a_request;
                                 mkArrival "sub_1" 8 StoreExamples.a_request;
                                 mkArrival "sub_2" 9 StoreExamples.empty_request]
                      StoreExamples.empty_service)) <= 10000.
Proof.
  assert (W : well_kept StoreExamples.empty_service).
  { split; [constructor|]. split; [vm_compute; discriminate | intros k v []]. }
  split; [exact W|].
  destruct (table_stays_within_the_limit
              [mkArrival "sub_1" 7 StoreExamples.a_request;
               mkArrival "sub_1" 8 StoreExamples.a_request;
               mkArrival "sub_2" 9 StoreExamples.empty_request]
              StoreExamples.empty_service W) as (_ & B & _).
  exact B.
Defined.

End StoreInvariant.

(** ** DatabaseService *)

Module DatabaseFacts.

Import JS JSArray WebhookService WebhookQueries DatabaseService StoreFacts QueryFacts.

Lemma date_ge_invalid (l : list AmpFormSubmission) :
  filter (fun s => date_ge (timestamp s) NaN) l = [].
Proof. apply filter_none. reflexivity. Qed.

(** X17.  [cleanupOldSubmissions] returns the number of submissions it
    deleted and keeps, in their order, those stamped at or after the
    cutoff.  When the number of days is [NaN] the cutoff is an invalid
    date, every comparison with it is false, and every submission is
    deleted; through the route [POST /api/cleanup] this is the case for a
    [daysOld] field that [parseInt] cannot read, the empty text
    included. *)
Theorem cleanup_with_unreadable_days_deletes_everything
    (days_before : Z -> Z -> Number) (now : Z) (db : Database) :
  (forall daysOld,
     let r := cleanupOldSubmissions days_before now daysOld db in
     fst r = Z.of_nat (List.length db) - Z.of_nat (List.length (snd r))
     /\ 0 <= fst r <= Z.of_nat (List.length db)
     /\ snd r = filter (fun s => date_ge (timestamp s)
                                   (cutoffDate days_before now daysOld)) db)
  /\ cleanupOldSubmissions days_before now NaN db = (Z.of_nat (List.length db), [])
  /\ (forall text, parseInt text = NaN ->
        cleanup_route days_before now (Some text) db = (Z.of_nat (List.length db), []))
  /\ cleanup_route days_before now (Some "") db = (Z.of_nat (List.length db), [])
  /\ cleanup_route days_before now None db
     = cleanupOldSubmissions days_before now (Num 30) db.
Proof.
  assert (W : cleanupOldSubmissions days_before now NaN db = (Z.of_nat (List.length db), [])).
  { unfold cleanupOldSubmissions. cbn [cutoffDate]. rewrite date_ge_invalid.
    cbn [List.length]. f_equal. lia. }
  split; [|split; [exact W|split; [|split]]].
  - intros daysOld. cbv zeta. unfold cleanupOldSubmissions. cbn [fst snd].
    pose proof (filter_length_le
                  (fun s => date_ge (timestamp s) (cutoffDate days_before now daysOld)) db).
    repeat split; lia.
  - intros text P. unfold cleanup_route. rewrite P. exact W.
  - unfold cleanup_route. change (parseInt "") with NaN. exact W.
  - reflexivity.
Qed.

(** *** saveSubmission and getSubmissionById *)

Lemma find_app_none {A : Type} (p : A -> bool) (l1 l2 : list A) :
  find p l1 = None -> find p (l1 ++ l2) = find p l2.
Proof.
  induction l1 as [|a l1 IH]; [reflexivity|]. cbn. destruct (p a); [discriminate | exact IH].
Qed.

Lemma find_app_some {A : Type} (p : A -> bool) (l1 l2 : list A) (x : A) :
  find p l1 = Some x -> find p (l1 ++ l2) = Some x.
Proof.
  induction l1 as [|a l1 IH]; [discriminate|]. cbn. destruct (p a); [auto | exact IH].
Qed.

(** X18.  [saveSubmission] appends the submission, with the new id and
    timestamp written into it, and leaves what was stored untouched; this
    has happened also when the call throws, which it does for form data
    [null].  [getSubmissionById] answers with the first stored submission
    of that id: the one just saved if the id was not in use, the older
    one if it was. *)
Theorem saved_submission_is_found (newId : string) (now : Z) (submission : AmpFormSubmission)
    (db : Database) :
  let r := saveSubmission newId now submission db in
  snd r = db ++ [with_id_and_time newId now submission]
  /\ (formData submission = JNull -> exists message, fst r = Thrown message)
  /\ (formData submission <> JNull -> fst r = Returned newId)
  /\ (getSubmissionById newId db = None ->
      getSubmissionById newId (snd r) = Some (with_id_and_time newId now submission))
  /\ (forall older, getSubmissionById newId db = Some older ->
        getSubmissionById newId (snd r) = Some older)
  /\ (forall k, k <> newId -> getSubmissionById k (snd r) = getSubmissionById k db).
Proof.
  cbv zeta.
  assert (E : snd (saveSubmission newId now submission db)
              = db ++ [with_id_and_time newId now submission]).
  { unfold saveSubmission. cbn [with_id_and_time formData].
    destruct (formData submission); reflexivity. }
  split; [exact E|]. rewrite E.
  split; [|split; [|split; [|split]]].
  - intros N. unfold saveSubmission. cbn [with_id_and_time formData]. rewrite N.
    eexists. reflexivity.
  - intros N. unfold saveSubmission. cbn [with_id_and_time formData].
    destruct (formData submission); try reflexivity. contradiction.
  - intros F. unfold getSubmissionById in *. rewrite find_app_none by assumption.
    cbn [find with_id_and_time id]. now rewrite String.eqb_refl.
  - intros older F. unfold getSubmissionById in *. now apply find_app_some.
  - intros k N. unfold getSubmissionById.
    destruct (find (fun s => String.eqb (id s) k) db) as [x|] eqn:F.
    + now apply find_app_some.
    + rewrite find_app_none by assumption. cbn [find with_id_and_time id].
      destruct (String.eqb newId k) eqn:Q; [|reflexivity].
      apply String.eqb_eq in Q. now subst.
Qed.

(** *** getSubmissions and exportSubmissions *)

Lemma select_sorted (options : Options) (db : Database) :
  StronglySorted newer_or_equal (select options db).
Proof. unfold select. apply (sort_newest_sorted timestamp). Qed.

Lemma select_stored (options : Options) (db : Database) (s : AmpFormSubmission) :
  In s (select options db) -> In s db.
Proof.
  unfold select. intros I. apply (Permutation_in _ (sort_newest_perm timestamp _)) in I.
  destruct (opt_endDate options); [apply filter_In in I as [I _]|];
    (destruct (opt_startDate options); [apply filter_In in I as [I _]|]);
    (destruct (opt_formId options) as [wanted|]; [|exact I]);
    (destruct (String.eqb wanted ""); [exact I | now apply filter_In in I as [I _]]).
Qed.

Lemma select_invalid_date (options : Options) (db : Database) :
  opt_startDate options = Some NaN \/ opt_endDate options = Some NaN ->
  select options db = [].
Proof.
  unfold select. intros [E|E]; rewrite E.
  - rewrite date_ge_invalid. now destruct (opt_endDate options).
  - rewrite (filter_none (fun s => date_le (timestamp s) NaN)) by reflexivity. reflexivity.
Qed.

Lemma database_getSubmissions_forward (options : Options) (db : Database) (a n : nat) :
  or_default (opt_offset options) 0 = Z.of_nat a ->
  or_default (opt_limit options) 100 = Z.of_nat n ->
  getSubmissions options db = firstn n (skipn a (select options db)).
Proof.
  intros A N. unfold getSubmissions. rewrite A, N. apply slice_forward.
Qed.

(** X19.  [getSubmissions] of the database cuts its answer from the
    submissions that pass the filters, newest first: with an offset
    [a >= 0] and a limit [n >= 0] in force it returns at most [n] of
    them after the first [a].  A limit that is absent, [NaN] or 0 is
    replaced by 100, so a limit of 0 returns up to 100 submissions; an
    offset that is absent or [NaN] is 0.  A start or end date that is an
    invalid [Date] matches nothing. *)
Theorem database_page (options : Options) (db : Database) :
  (forall a n,
     or_default (opt_offset options) 0 = Z.of_nat a ->
     or_default (opt_limit options) 100 = Z.of_nat n ->
     getSubmissions options db = firstn n (skipn a (select options db)))
  /\ (forall l o,
        l = None \/ l = Some NaN \/ l = Some (Num 0) ->
        o = None \/ o = Some NaN \/ o = Some (Num 0) ->
        getSubmissions (mkOptions l o (opt_formId options) (opt_startDate options)
                          (opt_endDate options)) db
        = firstn 100 (select options db))
  /\ (opt_startDate options = Some NaN \/ opt_endDate options = Some NaN ->
      getSubmissions options db = [])
  /\ StronglySorted newer_or_equal (select options db)
  /\ (forall s, In s (getSubmissions options db) -> In s db).
Proof.
  split; [intros a n; apply database_getSubmissions_forward|]. split.
  { intros l o L O.
    rewrite (database_getSubmissions_forward _ db 0 100).
    - reflexivity.
    - destruct O as [->|[->| ->]]; reflexivity.
    - destruct L as [->|[->| ->]]; reflexivity. }
  split.
  { intros D. unfold getSubmissions. rewrite (select_invalid_date options db D).
    unfold slice. cbn [List.length skipn]. now rewrite skipn_nil, firstn_nil. }
  split; [apply select_sorted|].
  intros s I. unfold getSubmissions, slice in I.
  apply firstn_In in I. apply (select_stored options).
  rewrite <- (firstn_skipn (Z.to_nat
    (slice_index (Z.of_nat (List.length (select options db)))
       (or_default (opt_offset options) 0))) (select options db)).
  apply in_or_app. now right.
Qed.

Lemma sorted_split (l : list AmpFormSubmission) (k : nat) :
  StronglySorted newer_or_equal l ->
  forall x y, In x (firstn k l) -> In y (skipn k l) -> timestamp y <= timestamp x.
Proof.
  intros S. revert k. induction S as [|a l S IH F]; intros k x y.
  - rewrite firstn_nil. intros [].
  - destruct k as [|k]; [intros []|]. cbn [firstn skipn]. intros [<-|Ix] Iy.
    + rewrite Forall_forall in F. apply F.
      rewrite <- (firstn_skipn k l). apply in_or_app. now right.
    + now apply (IH k).
Qed.

(** X20.  [exportSubmissions] of the database returns the 10000 newest
    submissions that pass the filters and no more: when more pass, the
    rest is left out without notice, and each one left out is no newer
    than each one exported.  Nothing bounds the stored array, which grows
    by one with every [saveSubmission], whether the call returns or
    throws. *)
Theorem database_export_is_capped (wanted : option string) (startDate endDate : option Number)
    (db : Database) :
  let chosen := select (mkOptions None None wanted startDate endDate) db in
  let exported := exportSubmissions wanted startDate endDate db in
  exported = firstn (Z.to_nat 10000) chosen
  /\ (List.length exported <= Z.to_nat 10000)%nat
  /\ ((List.length chosen <= Z.to_nat 10000)%nat -> exported = chosen)
  /\ ((Z.to_nat 10000 < List.length chosen)%nat ->
      List.length exported = Z.to_nat 10000
      /\ chosen = exported ++ skipn (Z.to_nat 10000) chosen
      /\ skipn (Z.to_nat 10000) chosen <> []
      /\ forall x y, In x exported -> In y (skipn (Z.to_nat 10000) chosen) ->
                     timestamp y <= timestamp x)
  /\ (forall newId now submission,
        List.length (snd (saveSubmission newId now submission db)) = S (List.length db)).
Proof.
  cbv zeta.
  assert (E : exportSubmissions wanted startDate endDate db
              = firstn (Z.to_nat 10000) (select (mkOptions None None wanted startDate endDate) db)).
  { unfold exportSubmissions.
    rewrite (database_getSubmissions_forward _ db 0 (Z.to_nat 10000)) by reflexivity. reflexivity. }
  rewrite E. split; [reflexivity|]. split; [rewrite length_firstn; lia|].
  split; [intros L; now apply firstn_all2|]. split.
  - intros L. split; [rewrite length_firstn; lia|].
    split; [now rewrite firstn_skipn|]. split.
    + intros N. apply (f_equal (@List.length _)) in N. rewrite length_skipn in N.
      cbn [List.length] in N. lia.
    + apply sorted_split, select_sorted.
  - intros newId now submission. unfold saveSubmission.
    destruct (formData (with_id_and_time newId now submission));
      cbn [snd]; rewrite length_app; cbn [List.length]; lia.
Qed.

(** *** getAdminStats *)

Lemma distinct_spec (seen values : list string) (v : string) :
  In v (distinct seen values) <-> In v values /\ ~ In v seen.
Proof.
  revert seen. induction values as [|x rest IH]; intros seen; cbn [distinct In].
  - tauto.
  - destruct (existsb (String.eqb x) seen) eqn:E.
    + apply existsb_exists in E as (y & I & Q). apply String.eqb_eq in Q. subst y.
      rewrite IH. split; [tauto|]. intros [[<-|I'] N]; [contradiction | tauto].
    + assert (N : ~ In x seen).
      { intros I.
        assert (T : existsb (String.eqb x) seen = true)
          by (apply existsb_exists; exists x; split; [exact I | apply String.eqb_refl]).
        congruence. }
      cbn [In]. rewrite IH. cbn [In]. split.
      * intros [<-|[I M]]; [tauto|]. split; [tauto|]. intros Q. apply M. now right.
      * intros [[<-|I] M]; [tauto|].
        destruct (string_dec x v) as [<-|D]; [tauto|]. right. split; [exact I|].
        intros [Q|Q]; [contradiction | contradiction].
Qed.

Lemma distinct_NoDup (seen values : list string) : NoDup (distinct seen values).
Proof.
  revert seen. induction values as [|x rest IH]; intros seen; cbn [distinct]; [constructor|].
  destruct (existsb (String.eqb x) seen); [apply IH|].
  constructor; [|apply IH]. intros I. apply distinct_spec in I as [_ N]. apply N. now left.
Qed.

Lemma filter_either {A : Type} (p q : A -> bool) (l : list A) :
  (forall x, p x && q x = false) ->
  List.length (filter (fun x => p x || q x) l)
  = (List.length (filter p l) + List.length (filter q l))%nat.
Proof.
  intros D. induction l as [|x l IH]; [reflexivity|]. cbn [filter].
  specialize (D x). destruct (p x), (q x); cbn [orb List.length] in *;
    try discriminate; lia.
Qed.

Lemma counts_add_up (ids : list string) (db : Database) :
  NoDup ids ->
  sum_counts (map (fun wanted => (wanted, count_form wanted db)) ids)
  = Z.of_nat (List.length (filter (fun s => existsb (String.eqb (form_of s)) ids) db)).
Proof.
  intros N. induction N as [|v rest X N IH]; cbn [map sum_counts fold_right snd existsb].
  - rewrite filter_none by reflexivity. reflexivity.
  - fold (sum_counts (map (fun wanted => (wanted, count_form wanted db)) rest)).
    rewrite IH. unfold count_form. fold form_of.
    rewrite (filter_either (fun s => String.eqb (form_of s) v)
               (fun s => existsb (String.eqb (form_of s)) rest) db);
      [rewrite Nat2Z.inj_add; reflexivity|].
    intros s. destruct (String.eqb (form_of s) v) eqn:E; [|reflexivity].
    apply String.eqb_eq in E. cbn [andb].
    destruct (existsb (String.eqb (form_of s)) rest) eqn:Q; [|reflexivity].
    apply existsb_exists in Q as (y & I & Q). apply String.eqb_eq in Q. congruence.
Qed.

Lemma count_since_monotone (t t' : Z) (db : Database) :
  t' <= t -> count_since t db <= count_since t' db.
Proof.
  intros L. unfold count_since. apply inj_le.
  induction db as [|s db IH]; [reflexivity|]. cbn [filter].
  destruct (t <=? timestamp s) eqn:A.
  - apply Z.leb_le in A. replace (t' <=? timestamp s) with true
      by (symmetry; apply Z.leb_le; lia). cbn [List.length]. lia.
  - destruct (t' <=? timestamp s); cbn [List.length]; lia.
Qed.

(** X21.  [getAdminStats] sorts the stored array itself: afterwards the
    database holds the same submissions newest first, so asking for the
    statistics changes the order in which later calls see the stored
    submissions.  The statistics are consistent: the counts of the form
    types add up to the total, each form type is listed once, the count
    for today is at most the count for the week, which is at most the
    total, and the recent submissions are the first ten of the reordered
    array. *)
Theorem admin_stats_reorder_the_store (today thisMonth : Z) (db : Database) :
  let stats := fst (getAdminStats today thisMonth db) in
  let db' := snd (getAdminStats today thisMonth db) in
  Permutation db' db
  /\ StronglySorted newer_or_equal db'
  /\ recentSubmissions stats = firstn 10 db'
  /\ sum_counts (formTypes stats) = totalSubmissions stats
  /\ NoDup (map fst (formTypes stats))
  /\ todaySubmissions stats <= weekSubmissions stats <= totalSubmissions stats.
Proof.
  cbv zeta. unfold getAdminStats.
  cbn [fst snd recentSubmissions formTypes totalSubmissions todaySubmissions weekSubmissions].
  split; [apply sort_newest_perm|].
  split; [apply (sort_newest_sorted timestamp)|].
  split; [apply (slice_forward 0 10)|].
  split.
  { rewrite counts_add_up by apply distinct_NoDup. f_equal. f_equal. apply filter_all.
    intros s I. apply existsb_exists. exists (form_of s). split; [|apply String.eqb_refl].
    apply distinct_spec. split; [|intros []]. now apply (in_map form_of). }
  split.
  { rewrite map_map. cbn [fst]. rewrite map_id. apply distinct_NoDup. }
  split; [apply count_since_monotone; lia|].
  unfold count_since. apply inj_le, filter_length_le.
Qed.

End DatabaseFacts.

(** ** The CSV export read back *)

Module CsvFacts.

Import AdminCsv.

Lemma string_append_assoc (a b c : string) : (a +++ b) +++ c = a +++ (b +++ c).
Proof. induction a as [|x a IH]; [reflexivity|]. cbn. now rewrite IH. Qed.

Lemma plain_text_cons (c : ascii) (s : string) :
  plain_text (String c s) = true ->
  Ascii.eqb c comma = false /\ Ascii.eqb c quote_mark = false
  /\ Ascii.eqb c line_feed = false /\ plain_text s = true.
Proof.
  unfold plain_text. cbn [has_char].
  destruct (Ascii.eqb c comma), (Ascii.eqb c quote_mark), (Ascii.eqb c line_feed),
    (has_char comma s), (has_char quote_mark s), (has_char line_feed s);
    cbn; intros H; try discriminate; auto.
Qed.

Lemma boundary_not_quote (c : ascii) :
  Ascii.eqb c comma || Ascii.eqb c line_feed = true -> Ascii.eqb c quote_mark = false.
Proof.
  intros H. apply orb_true_iff in H as [H|H]; apply Ascii.eqb_eq in H; subst; reflexivity.
Qed.

Lemma after_quote_at_boundary (rest : string) :
  at_boundary rest = true -> read AfterQuote rest = read CellStart rest.
Proof.
  destruct rest as [|c rest]; [reflexivity|]. cbn [at_boundary read]. intros B.
  now rewrite (boundary_not_quote c B).
Qed.

Lemma plain_at_boundary (rest : string) :
  at_boundary rest = true -> read Plain rest = read CellStart rest.
Proof.
  destruct rest as [|c rest]; [reflexivity|]. cbn [at_boundary read]. intros B.
  now rewrite (boundary_not_quote c B).
Qed.

Lemma read_quoted_body (str rest : string) :
  read Quoted (double_quotes str +++ String quote_mark rest)
  = prepend str (read AfterQuote rest).
Proof.
  induction str as [|c str IH].
  - cbn [double_quotes String.append read prepend]. now rewrite Ascii.eqb_refl.
  - cbn [double_quotes]. destruct (Ascii.eqb c quote_mark) eqn:E.
    + apply Ascii.eqb_eq in E. subst c.
      cbn [String.append read prepend]. rewrite !Ascii.eqb_refl. now rewrite IH.
    + cbn [String.append read prepend]. rewrite E. now rewrite IH.
Qed.

Lemma read_plain_body (str rest : string) :
  plain_text str = true -> at_boundary rest = true ->
  read Plain (str +++ rest) = prepend str (read CellStart rest).
Proof.
  intros P B. induction str as [|c str IH].
  - cbn [String.append prepend]. now apply plain_at_boundary.
  - apply plain_text_cons in P as (C & Q & L & P).
    cbn [String.append read prepend]. rewrite C, L. now rewrite IH.
Qed.

Lemma read_plain_cell (str rest : string) :
  plain_text str = true -> at_boundary rest = true ->
  read CellStart (str +++ rest) = prepend str (read CellStart rest).
Proof.
  intros P B. destruct str as [|c str]; [reflexivity|].
  pose proof (plain_text_cons c str P) as (C & Q & L & P').
  cbn [String.append read prepend]. rewrite C, Q, L. now rewrite read_plain_body.
Qed.

(** An escaped value is read back as the value. *)
Lemma read_value (str rest : string) :
  at_boundary rest = true ->
  read CellStart (escape_value str +++ rest) = prepend str (read CellStart rest).
Proof.
  intros B. unfold escape_value.
  destruct (has_char comma str || has_char quote_mark str || has_char line_feed str) eqn:E.
  - cbn [String.append read]. rewrite Ascii.eqb_refl.
    rewrite string_append_assoc. cbn [String.append].
    rewrite read_quoted_body. now rewrite after_quote_at_boundary.
  - apply read_plain_cell; [|exact B]. unfold plain_text. now rewrite E.
Qed.

Lemma prepend_cell (str cell : string) (cells : list string) (rest : list (list string)) :
  prepend str ((cell :: cells) :: rest) = ((str +++ cell) :: cells) :: rest.
Proof.
  induction str as [|c str IH]; [reflexivity|]. cbn [prepend String.append].
  now rewrite IH.
Qed.

Lemma read_record_end (tail : string) :
  record_end tail = true ->
  at_boundary tail = true /\ read CellStart tail = [EmptyString] :: further_records tail.
Proof.
  destruct tail as [|c more]; [auto|]. cbn [record_end at_boundary read further_records].
  intros E. rewrite E, orb_true_r. apply Ascii.eqb_eq in E. subst c. auto.
Qed.

Lemma read_row (row : list string) (tail : string) :
  row <> [] -> record_end tail = true ->
  read CellStart (csv_row row +++ tail) = row :: further_records tail.
Proof.
  intros N E. destruct (read_record_end tail E) as [B R].
  induction row as [|c1 row IH]; [contradiction|]. clear N.
  destruct row as [|c2 row].
  - unfold csv_row. cbn [map String.concat]. rewrite read_value by exact B.
    rewrite R, prepend_cell. now rewrite PemRoundTrip.append_empty_r.
  - unfold csv_row in *. cbn [map]. cbn [map] in IH.
    change (String.concat (String comma EmptyString)
              (escape_value c1 :: escape_value c2 :: map escape_value row))
      with (escape_value c1
            +++ String comma EmptyString
            +++ String.concat (String comma EmptyString)
                  (escape_value c2 :: map escape_value row)).
    rewrite !string_append_assoc. cbn [String.append].
    rewrite read_value by reflexivity.
    cbn [read]. rewrite Ascii.eqb_refl. change (Ascii.eqb comma quote_mark) with false.
    cbv iota. rewrite IH by discriminate. cbn [new_cell].
    rewrite prepend_cell. now rewrite PemRoundTrip.append_empty_r.
Qed.

Lemma read_rows (rows : list (list string)) :
  rows <> [] -> Forall (fun row => row <> []) rows ->
  read CellStart (String.concat (String line_feed EmptyString) (map csv_row rows)) = rows.
Proof.
  intros N F. induction rows as [|r rows IH]; [contradiction|]. clear N.
  inversion F as [|? ? Nr F']; subst. destruct rows as [|r2 rows].
  - cbn [map String.concat].
    rewrite <- (PemRoundTrip.append_empty_r (csv_row r)).
    now rewrite read_row.
  - cbn [map]. cbn [map] in IH.
    change (String.concat (String line_feed EmptyString)
              (csv_row r :: csv_row r2 :: map csv_row rows))
      with (csv_row r
            +++ String line_feed EmptyString
            +++ String.concat (String line_feed EmptyString)
                  (csv_row r2 :: map csv_row rows)).
    cbn [String.append]. rewrite read_row by (assumption || reflexivity).
    cbn [further_records]. now rewrite IH by (discriminate || assumption).
Qed.

Lemma escape_plain (str : string) : plain_text str = true -> escape_value str = str.
Proof.
  unfold plain_text, escape_value. intros P. apply negb_true_iff in P. now rewrite P.
Qed.

Lemma header_as_row (headers : list string) :
  Forall (fun name => plain_text name = true) headers ->
  String.concat (String comma EmptyString) headers = csv_row headers.
Proof.
  intros F. unfold csv_row. f_equal. induction F as [|h hs P F IH]; [reflexivity|].
  cbn [map]. now rewrite escape_plain, <- IH.
Qed.

Lemma join_splits_name (before after : list string) (a b : string) :
  String.concat (String comma EmptyString) (before ++ [a +++ String comma b] ++ after)
  = String.concat (String comma EmptyString) (before ++ [a; b] ++ after).
Proof.
  induction before as [|x before IH].
  - cbn [app]. destruct after as [|y after]; cbn [String.concat].
    + reflexivity.
    + now rewrite string_append_assoc.
  - cbn [app] in *.
    destruct (before ++ (a +++ String comma b) :: after) as [|y ys] eqn:E1;
      [destruct before; discriminate|].
    destruct (before ++ a :: b :: after) as [|z zs] eqn:E2;
      [destruct before; discriminate|].
    cbn [String.concat]. cbn [String.concat] in IH. now rewrite IH.
Qed.

(** X22.  The CSV text of the export is read back without loss when the
    column names hold no comma, quotation mark or line feed: a reader of
    comma-separated values gives the header and then every row, cell by
    cell, whatever the cells contain (commas, quotation marks and line
    feeds included).  The header line is written without escaping: the
    column name [a,b] gives the same text as the two column names [a]
    and [b]. *)
Theorem csv_export_reads_back (headers : list string) (rows : list (list string)) :
  headers <> [] ->
  Forall (fun name => plain_text name = true) headers ->
  rows <> [] ->
  Forall (fun row => row <> []) rows ->
  read_csv (convertToCSV headers rows) = headers :: rows
  /\ (forall str rest, at_boundary rest = true ->
        read CellStart (escape_value str +++ rest) = prepend str (read CellStart rest))
  /\ (forall before after a b,
        convertToCSV (before ++ [a +++ String comma b] ++ after) rows
        = convertToCSV (before ++ [a; b] ++ after) rows).
Proof.
  intros Nh Fh Nr Fr. split; [|split].
  - unfold read_csv, convertToCSV, csv_text.
    destruct rows as [|r rows]; [contradiction|].
    rewrite (header_as_row headers Fh).
    apply (read_rows (headers :: r :: rows)); [discriminate|]. now constructor.
  - intros str rest. apply read_value.
  - intros before after a b. unfold convertToCSV, csv_text.
    destruct rows as [|r rows]; [contradiction|]. now rewrite join_splits_name.
Qed.

Lemma csv_export_reads_back_witness :
  ["ID"; "note"] <> []
  /\ Forall (fun name => plain_text name = true) ["ID"; "note"]
  /\ [["sub_1"; "a,b"]; ["sub_2"; String quote_mark "hi"]] <> []
  /\ Forall (fun row => row <> []) [["sub_1"; "a,b"]; ["sub_2"; String quote_mark "hi"]]
  /\ read_csv (convertToCSV ["ID"; "note"]
                 [["sub_1"; "a,b"]; ["sub_2"; String quote_mark "hi"]])
     = [["ID"; "note"]; ["sub_1"; "a,b"]; ["sub_2"; String quote_mark "hi"]].
Proof.
  assert (Nh : ["ID"; "note"] <> []) by discriminate.
  assert (Fh : Forall (fun name => plain_text name = true) ["ID"; "note"])
    by (repeat constructor).
  assert (Nr : [["sub_1"; "a,b"]; ["sub_2"; String quote_mark "hi"]] <> [])
    by discriminate.
  assert (Fr : Forall (fun row : list string => row <> [])
                 [["sub_1"; "a,b"]; ["sub_2"; String quote_mark "hi"]])
    by (repeat constructor; discriminate).
  split; [exact Nh|]. split; [exact Fh|]. split; [exact Nr|]. split; [exact Fr|].
  destruct (csv_export_reads_back ["ID"; "note"]
              [["sub_1"; "a,b"]; ["sub_2"; String quote_mark "hi"]] Nh Fh Nr Fr) as [R _].
  exact R.
Defined.

End CsvFacts.
